(** * dm: bit array and sparse-set storage

    A shallow embedding of [dm/ng/datastructures/bitarray.h] (the
    [BitArrayImpl] operations and the three [BitArrayStorage*] back-ends) and
    of the storage part of [dm/datastructures/set.h] ([Set::init],
    [Set::destroy]).

    Conventions.
    - [uint16_t], [uint32_t] and [uint64_t] values are integers in [Z]; every
      place where the C++ arithmetic can wrap is written with [u32] or [u64].
    - The word buffer behind [bits()] is a [list Z]; an access outside the
      buffer is undefined behaviour in C++ and yields [Err OutOfBounds] here.
    - [DM_CHECK] is the assertion hook; a violated check yields
      [Err CheckFailed].
    - Addresses are byte addresses in [Z]; [NULL] is [0]. *)

From stdpp Require Import base list relations.
From Stdlib Require Import ZArith Lia Bool.

Local Open Scope Z_scope.

(** ** Machine integers *)

Definition u32 (z : Z) : Z := z mod 2 ^ 32.
Definition u64 (z : Z) : Z := z mod 2 ^ 64.

Definition UINT64_MAX : Z := 2 ^ 64 - 1.

(** [~v] on a [uint64_t]. *)
Definition not64 (v : Z) : Z := Z.lxor v UINT64_MAX.

(** [sizeof(uint64_t)] and [sizeof(uint16_t)]. *)
Definition sizeof_u64 : Z := 8.
Definition sizeof_u16 : Z := 2.

Definition NULL : Z := 0.

(** ** Outcomes of an operation *)

Inductive fault : Type :=
| CheckFailed
| OutOfBounds.

Inductive res (A : Type) : Type :=
| Ok (a : A)
| Err (f : fault).

Arguments Ok {A} a.
Arguments Err {A} f.

#[global] Instance res_ret : MRet res := fun A a => Ok a.

#[global] Instance res_bind : MBind res := fun A B k m =>
  match m with
  | Ok a => k a
  | Err f => Err f
  end.

(** [DM_CHECK(cond, ...)]. *)
Definition DM_CHECK (cond : bool) : res unit :=
  if cond then Ok tt else Err CheckFailed.

(** ** The word buffer *)

(** [p[i]] as an rvalue. *)
Definition load (ws : list Z) (i : Z) : res Z :=
  match ws !! Z.to_nat i with
  | Some w => Ok w
  | None => Err OutOfBounds
  end.

(** [p[i] = v]. *)
Definition store (ws : list Z) (i : Z) (v : Z) : res (list Z) :=
  if decide (Z.to_nat i < length ws)%nat
  then Ok (<[Z.to_nat i := v]> ws)
  else Err OutOfBounds.

(** [memset(p + start, c, n * sizeof(uint64_t))] where every byte of a word
    gets the same value, so that each of the [n] words becomes [v]. *)
Fixpoint memset_words (ws : list Z) (start : Z) (v : Z) (n : nat) : res (list Z) :=
  match n with
  | O => Ok ws
  | S n' =>
      ws' ← store ws start v;
      memset_words ws' (start + 1) v n'
  end.

(** ** Helpers of [dm/ng/bitops.h] *)

Fixpoint first_set_from (w : Z) (p : Z) (fuel : nat) : Z :=
  match fuel with
  | O => p
  | S fuel' => if Z.testbit w p then p else first_set_from w (p + 1) fuel'
  end.

(** Modelled from the spec: [dm/ng/bitops.h] is not among the sources;
    [cnttz_u64] counts the zero bits below the lowest set bit of a 64-bit
    word (64 for the zero word), which is what "locates the lowest unset bit
    via the isolate-lowest-bit trick" needs. *)
Definition cnttz_u64 (w : Z) : Z := first_set_from w 0 64.

Fixpoint last_set_from (w : Z) (p : Z) (fuel : nat) : Z :=
  match fuel with
  | O => 64
  | S fuel' => if Z.testbit w p then 63 - p else last_set_from w (p - 1) fuel'
  end.

(** Modelled from the spec: [dm/ng/bitops.h] is not among the sources;
    [cntlz_u64] counts the zero bits above the highest set bit of a 64-bit
    word (64 for the zero word). *)
Definition cntlz_u64 (w : Z) : Z := last_set_from w 63 64.

(** Number of [i < n] with [f i = true]. *)
Fixpoint count_upto (f : Z -> bool) (n : nat) : Z :=
  match n with
  | O => 0
  | S n' => count_upto f n' + (if f (Z.of_nat n') then 1 else 0)
  end.

(** Modelled from the spec: [dm/ng/bitops.h] is not among the sources;
    [cntbits_u64] is the "per-word set-bit count" of a 64-bit word. *)
Definition cntbits_u64 (w : Z) : Z := count_upto (Z.testbit w) 64.

(** ** Bit-array storage *)

(** [BitArrayStorageT<MaxT>::NumSlots], an enumerator computed from the
    [uint32_t] template argument. *)
Definition BitArrayStorageT_NumSlots (MaxT : Z) : Z :=
  u32 (Z.shiftr (u32 (MaxT - 1)) 6 + 1).

(** [BitArrayStorageExt::numSlotsFor]. *)
Definition BitArrayStorageExt_numSlotsFor (_max : Z) : Z :=
  u32 (Z.shiftr (u32 (_max - 1)) 6 + 1).

(** [BitArrayStorageExt::sizeFor]: the product is computed in [size_t] and
    returned as [uint32_t]. *)
Definition BitArrayStorageExt_sizeFor (_max : Z) : Z :=
  u32 (BitArrayStorageExt_numSlotsFor _max * sizeof_u64).

(** [BitArrayStorage::numSlotsFor]. *)
Definition BitArrayStorage_numSlotsFor (_max : Z) : Z :=
  u32 (Z.shiftr (u32 (_max - 1)) 6 + 1).

(** [BitArrayStorage::sizeFor]. *)
Definition BitArrayStorage_sizeFor (_max : Z) : Z :=
  u32 (BitArrayStorage_numSlotsFor _max * sizeof_u64).

(** The exact quotient the spec asks for: [ceil(max/64)]. *)
Definition ceil_div64 (m : Z) : Z := (m + 63) / 64.

(** A bit array of any of the three storage kinds.  [m_bits] is the address
    held by the storage ([BitArrayStorageT] embeds the array, the other two
    hold a pointer), [words] is the memory behind it, one entry for each
    [uint64_t]; [m_numSlots] and [m_max] are what [numSlots()] and [max()]
    return, [m_reallocFn] is the release function of the owning storage, and
    [m_last] is the cursor of [BitArrayImpl]. *)
Record BitArray : Type := mkBitArray {
  m_bits : Z;
  words : list Z;
  m_numSlots : Z;
  m_max : Z;
  m_reallocFn : Z;
  m_last : Z
}.

Definition with_words (s : BitArray) (ws : list Z) : BitArray :=
  mkBitArray (m_bits s) ws (m_numSlots s) (m_max s) (m_reallocFn s) (m_last s).

Definition with_last (s : BitArray) (l : Z) : BitArray :=
  mkBitArray (m_bits s) (words s) (m_numSlots s) (m_max s) (m_reallocFn s) l.

(** ** [BitArrayImpl] *)

Definition markFirstUnsetBit (_v : Z) : Z :=
  let val := _v in
  let neg := not64 val in
  let add := u64 (val + 1) in
  let bit := Z.land neg add in
  bit.

(** [UINT64_C(1) << (_bit & 63)]. *)
Definition bit_mask (_bit : Z) : Z := u64 (Z.shiftl 1 (Z.land _bit 63)).

Definition set (s : BitArray) (_bit : Z) : res BitArray :=
  _ ← DM_CHECK (_bit <? m_max s);
  let bucket := Z.shiftr _bit 6 in
  let bit := bit_mask _bit in
  w ← load (words s) bucket;
  ws ← store (words s) bucket (Z.lor w bit);
  Ok (with_words s ws).

(** The six [valBegin |= valBegin >> k] statements. *)
Definition smear_down (v : Z) : Z :=
  let v := Z.lor v (Z.shiftr v 1) in
  let v := Z.lor v (Z.shiftr v 2) in
  let v := Z.lor v (Z.shiftr v 4) in
  let v := Z.lor v (Z.shiftr v 8) in
  let v := Z.lor v (Z.shiftr v 16) in
  let v := Z.lor v (Z.shiftr v 32) in
  v.

(** The six [valEnd |= valEnd << k] statements, each shift in 64 bits. *)
Definition smear_up (v : Z) : Z :=
  let v := Z.lor v (u64 (Z.shiftl v 1)) in
  let v := Z.lor v (u64 (Z.shiftl v 2)) in
  let v := Z.lor v (u64 (Z.shiftl v 4)) in
  let v := Z.lor v (u64 (Z.shiftl v 8)) in
  let v := Z.lor v (u64 (Z.shiftl v 16)) in
  let v := Z.lor v (u64 (Z.shiftl v 32)) in
  v.

Definition setRange (s : BitArray) (_begin _end : Z) : res BitArray :=
  _ ← DM_CHECK (_begin <? m_max s);
  _ ← DM_CHECK (_end <? m_max s);
  let bucketBegin := Z.shiftr _begin 6 in
  let bucketEnd := Z.shiftr _end 6 in
  let bitBegin := bit_mask _begin in
  let valBegin := smear_down bitBegin in
  w0 ← load (words s) bucketBegin;
  ws1 ← store (words s) bucketBegin (Z.lor w0 valBegin);
  let bitEnd := bit_mask _end in
  let valEnd := smear_up bitEnd in
  w1 ← load ws1 bucketEnd;
  ws2 ← store ws1 bucketEnd (Z.lor w1 valEnd);
  let numBucketsToSet := u32 (bucketEnd - bucketBegin) in
  ws3 ← memset_words ws2 bucketBegin UINT64_MAX (Z.to_nat numBucketsToSet);
  let last :=
    if (_begin <=? m_last s) && (m_last s <=? _end) then _end else m_last s in
  Ok (with_last (with_words s ws3) last).

Definition unsetRange (s : BitArray) (_begin _end : Z) : res BitArray :=
  _ ← DM_CHECK (_begin <? m_max s);
  _ ← DM_CHECK (_end <? m_max s);
  let bucketBegin := Z.shiftr _begin 6 in
  let bucketEnd := Z.shiftr _end 6 in
  let bitBegin := bit_mask _begin in
  let valBegin := smear_down bitBegin in
  w0 ← load (words s) bucketBegin;
  ws1 ← store (words s) bucketBegin (Z.land w0 (not64 valBegin));
  let bitEnd := bit_mask _end in
  let valEnd := smear_up bitEnd in
  w1 ← load ws1 bucketEnd;
  ws2 ← store ws1 bucketEnd (Z.land w1 (not64 valEnd));
  let numBucketsToSet := u32 (bucketEnd - bucketBegin) in
  ws3 ← memset_words ws2 bucketBegin 0 (Z.to_nat numBucketsToSet);
  Ok (with_last (with_words s ws3) _begin).

Definition unset (s : BitArray) (_bit : Z) : res BitArray :=
  _ ← DM_CHECK (_bit <? m_max s);
  let bucket := Z.shiftr _bit 6 in
  let bit := bit_mask _bit in
  w ← load (words s) bucket;
  ws ← store (words s) bucket (Z.land w (not64 bit));
  Ok (with_words s ws).

Definition toggle (s : BitArray) (_bit : Z) : res BitArray :=
  _ ← DM_CHECK (_bit <? m_max s);
  let bucket := Z.shiftr _bit 6 in
  let bit := bit_mask _bit in
  w ← load (words s) bucket;
  ws ← store (words s) bucket (Z.lxor w bit);
  Ok (with_words s ws).

Definition isSet (s : BitArray) (_bit : Z) : res bool :=
  _ ← DM_CHECK (_bit <? m_max s);
  let bucket := Z.shiftr _bit 6 in
  let bit := bit_mask _bit in
  w ← load (words s) bucket;
  Ok (negb (0 =? Z.land w bit)).

Definition setRightmostBit (s : BitArray) (_slot : Z) : res (BitArray * Z) :=
  w ← load (words s) _slot;
  let rightmost := u64 (w + 1) in
  ws ← store (words s) _slot (Z.lor w rightmost);
  let pos := u32 (cnttz_u64 rightmost) in
  let idx := u32 (u32 (Z.shiftl _slot 6) + pos) in
  let maxIdx := m_max s in
  Ok (with_words s ws, if idx <? maxIdx then idx else maxIdx).

(** The loop of [setFirst], with [n] iterations left; [slot < end] holds
    whenever [++slot] runs, so the increment cannot wrap. *)
Fixpoint setFirst_loop (s : BitArray) (slot : Z) (n : nat) : res (BitArray * Z) :=
  match n with
  | O => Ok (s, m_max s)
  | S n' =>
      w ← load (words s) slot;
      let hasUnsetBits := negb (w =? UINT64_MAX) in
      if hasUnsetBits then setRightmostBit s slot
      else setFirst_loop s (slot + 1) n'
  end.

Definition setFirst (s : BitArray) : res (BitArray * Z) :=
  setFirst_loop s 0 (Z.to_nat (m_numSlots s)).

(** Either loop of [setAny], with [n] iterations left: [Some r] when the
    loop returns [r] from the function, [None] when it runs to its end. *)
Fixpoint setAny_loop (s : BitArray) (slot : Z) (n : nat) : res (BitArray * option Z) :=
  match n with
  | O => Ok (s, None)
  | S n' =>
      w ← load (words s) slot;
      let hasUnsetBits := negb (w =? UINT64_MAX) in
      if hasUnsetBits then
        '(s', r) ← setRightmostBit s slot;
        Ok (s', Some r)
      else setAny_loop (with_last s (slot + 1)) (slot + 1) n'
  end.

Definition setAny (s : BitArray) : res (BitArray * Z) :=
  let begin := m_last s in
  let count := m_numSlots s in
  '(s1, r1) ← setAny_loop s begin (Z.to_nat (m_numSlots s - begin));
  match r1 with
  | Some r => Ok (s1, r)
  | None =>
      let s2 := with_last s1 (if count <=? m_last s1 then 0 else m_last s1) in
      '(s3, r3) ← setAny_loop s2 0 (Z.to_nat begin);
      match r3 with
      | Some r => Ok (s3, r)
      | None => Ok (s3, m_max s3)
      end
  end.

(** The loops [for (uint32_t ii = numSlots(); ii--; )] visit
    [ii = numSlots()-1, ..., 0]; [n] is the value of [ii] before the
    decrement. *)
Fixpoint getLastSetBit_loop (s : BitArray) (n : nat) : res Z :=
  match n with
  | O => Ok 0
  | S n' =>
      let ii := Z.of_nat n' in
      w ← load (words s) ii;
      let hasSetBits := negb (0 =? w) in
      if hasSetBits then
        let allSet := UINT64_MAX =? w in
        if allSet then Ok (u32 (Z.shiftl (u32 (ii + 1)) 6))
        else
          let sel := markFirstUnsetBit w in
          let leading := cntlz_u64 sel in
          let pos := u32 (63 - u32 leading) in
          Ok (u32 (u32 (Z.shiftl ii 6) + pos))
      else getLastSetBit_loop s n'
  end.

Definition getLastSetBit (s : BitArray) : res Z :=
  getLastSetBit_loop s (Z.to_nat (m_numSlots s)).

Fixpoint doCount_loop (s : BitArray) (n : nat) (count : Z) : res Z :=
  match n with
  | O => Ok count
  | S n' =>
      let ii := Z.of_nat n' in
      curr ← load (words s) ii;
      doCount_loop s n' (u64 (count + cntbits_u64 curr))
  end.

Definition doCount (s : BitArray) : res Z :=
  count ← doCount_loop s (Z.to_nat (m_numSlots s)) 0;
  Ok (u32 count).

(** [reset()]. *)
Definition reset (s : BitArray) : res BitArray :=
  let s := with_last s 0 in
  ws ← memset_words (words s) 0 0 (Z.to_nat (m_numSlots s));
  Ok (with_words s ws).

(** [reset(_startBucket, _endBucket)]. *)
Definition reset_range (s : BitArray) (_startBucket _endBucket : Z) : res BitArray :=
  let s := with_last s 0 in
  ws ← memset_words (words s) _startBucket 0
         (Z.to_nat (u32 (_endBucket - _startBucket)));
  Ok (with_words s ws).

(** ** Storage back-ends of the bit array *)

(** Calls into the allocation collaborator ([dm_alloc], [dm_free],
    [BX_ALLOC], [BX_FREE]), in the order they are made. *)
Inductive event : Type :=
| EvAlloc (size : Z) (allocator : Z)
| EvFree (ptr : Z) (allocator : Z).

(** The constructors of [BitArrayStorageExt] and [BitArrayStorage]; the
    members they leave alone keep the values [reallocFn] and [last]. *)
Definition BitArrayStorage_ctor (reallocFn last : Z) : BitArray :=
  mkBitArray NULL [] 0 0 reallocFn last.

(** [BitArrayStorageExt::init(_max, _mem)]; [buf] is the caller's memory at
    address [_mem]. *)
Definition BitArrayStorageExt_init (s : BitArray) (_max _mem : Z) (buf : list Z)
  : BitArray * Z :=
  (mkBitArray _mem buf (BitArrayStorageExt_numSlotsFor _max) _max
     (m_reallocFn s) (m_last s),
   _mem + BitArrayStorageExt_sizeFor _max).

(** [BitArrayExt::init]. *)
Definition BitArrayExt_init (s : BitArray) (_max _mem : Z) (buf : list Z)
  : res (BitArray * Z) :=
  let '(s1, ptr) := BitArrayStorageExt_init s _max _mem buf in
  s2 ← reset s1;
  Ok (s2, ptr).

(** [BitArrayStorage::init(_max, _reallocFn)]; [mem] and [buf] are the
    address and the memory that [dm_alloc] hands out. *)
Definition BitArrayStorage_init (s : BitArray) (_max _reallocFn : Z)
    (mem : Z) (buf : list Z) : BitArray * list event :=
  (mkBitArray mem buf (BitArrayStorage_numSlotsFor _max) _max _reallocFn (m_last s),
   [EvAlloc (BitArrayStorage_sizeFor _max) _reallocFn]).

(** [BitArray::init]. *)
Definition BitArray_init (s : BitArray) (_max _reallocFn : Z)
    (mem : Z) (buf : list Z) : res (BitArray * list event) :=
  let '(s1, evs) := BitArrayStorage_init s _max _reallocFn mem buf in
  s2 ← reset s1;
  Ok (s2, evs).

(** [BitArrayStorage::destroy]; once freed there is no memory behind
    [m_bits] any more. *)
Definition BitArrayStorage_destroy (s : BitArray) : BitArray * list event :=
  if negb (NULL =? m_bits s) then
    (mkBitArray NULL [] (m_numSlots s) (m_max s) (m_reallocFn s) (m_last s),
     [EvFree (m_bits s) (m_reallocFn s)])
  else (s, []).

(** ** Sparse-set storage ([dm::Set]) *)

Module SparseSet.

(** [m_allocator] and [m_reallocator] share one member (a union). *)
Record t : Type := mk {
  m_max : Z;
  m_num : Z;
  m_values : Z;
  m_indices : Z;
  m_allocator : Z;
  m_cleanup : bool
}.

(** [Set()]: only the two pointers are assigned. *)
Definition ctor (max num allocator : Z) (cleanup : bool) : t :=
  mk max num NULL NULL allocator cleanup.

Definition SizePerElement : Z := 2 * sizeof_u16.

Definition sizeFor (_max : Z) : Z := u32 (_max * SizePerElement).

(** [p + n] for [uint16_t* p]. *)
Definition ptr_add_u16 (p n : Z) : Z := p + n * sizeof_u16.

(** [init(_max, _reallocator)]; [mem] is the address [BX_ALLOC] returns. *)
Definition init_realloc (s : t) (_max _reallocator : Z) (mem : Z) : t * list event :=
  (mk _max 0 mem (ptr_add_u16 mem _max) _reallocator true,
   [EvAlloc (sizeFor _max) _reallocator]).

(** [init(_max, _mem, _allocator)]. *)
Definition init_mem (s : t) (_max _mem _allocator : Z) : t * Z :=
  (mk _max 0 _mem (ptr_add_u16 _mem _max) _allocator false,
   _mem + sizeFor _max).

Definition destroy (s : t) : t * list event :=
  if m_cleanup s && negb (NULL =? m_values s) then
    (mk (m_max s) (m_num s) NULL NULL (m_allocator s) (m_cleanup s),
     [EvFree (m_values s) (m_allocator s)])
  else (s, []).

Definition isInitialized (s : t) : bool := negb (NULL =? m_values s).

End SparseSet.

(** ** Sequences of calls *)

Inductive call : Type :=
| CallSet (i : Z)
| CallUnset (i : Z)
| CallToggle (i : Z)
| CallSetRange (a b : Z)
| CallUnsetRange (a b : Z)
| CallSetFirst
| CallSetAny
| CallReset.

(** One call: the new state and the value returned ([None] for [void]). *)
Definition exec (c : call) (s : BitArray) : res (BitArray * option Z) :=
  match c with
  | CallSet i => s' ← set s i; Ok (s', None)
  | CallUnset i => s' ← unset s i; Ok (s', None)
  | CallToggle i => s' ← toggle s i; Ok (s', None)
  | CallSetRange a b => s' ← setRange s a b; Ok (s', None)
  | CallUnsetRange a b => s' ← unsetRange s a b; Ok (s', None)
  | CallSetFirst => '(s', r) ← setFirst s; Ok (s', Some r)
  | CallSetAny => '(s', r) ← setAny s; Ok (s', Some r)
  | CallReset => s' ← reset s; Ok (s', None)
  end.

(** A sequence of calls, none of which trips a check or leaves the buffer;
    the returned values are collected in call order. *)
Fixpoint run (cs : list call) (s : BitArray) : res (BitArray * list (option Z)) :=
  match cs with
  | [] => Ok (s, [])
  | c :: cs' =>
      '(s1, r) ← exec c s;
      '(s2, rs) ← run cs' s1;
      Ok (s2, r :: rs)
  end.

(** [n] calls of [setFirst] in a row and what they return. *)
Fixpoint setFirst_times (n : nat) (s : BitArray) : res (BitArray * list Z) :=
  match n with
  | O => Ok (s, [])
  | S n' =>
      '(s1, r) ← setFirst s;
      '(s2, rs) ← setFirst_times n' s1;
      Ok (s2, r :: rs)
  end.

(** ** Predicates on states *)

(** A [uint64_t] value. *)
Definition word_ok (w : Z) : Prop := 0 <= w < 2 ^ 64.

(** The storage was set up by one of the [init] functions (or is a
    [BitArrayStorageT]) for a capacity of at least one bit: the slot count
    belongs to the capacity, the memory holds at least that many words, and
    each word is a 64-bit value. *)
Record wf (s : BitArray) : Prop := mk_wf {
  wf_max : 1 <= m_max s < 2 ^ 32;
  wf_numSlots : m_numSlots s = BitArrayStorageExt_numSlotsFor (m_max s);
  wf_length : (Z.to_nat (m_numSlots s) <= length (words s))%nat;
  wf_words : Forall word_ok (words s);
  wf_last : 0 <= m_last s < 2 ^ 32
}.

(** Bit [p] of the buffer: word [p >> 6], position [p & 63]. *)
Definition bit_at (s : BitArray) (p : Z) : bool :=
  match words s !! Z.to_nat (p / 64) with
  | Some w => Z.testbit w (p mod 64)
  | None => false
  end.

(** No bit is set at a position [p >= max()] of the slots. *)
Definition padding_clear (s : BitArray) : Prop :=
  forall p, m_max s <= p < 64 * m_numSlots s -> bit_at s p = false.

(** All slots are zero and the cursor is zero: the state [reset()] leaves. *)
Definition is_reset (s : BitArray) : Prop :=
  m_last s = 0 /\
  forall j, (j < Z.to_nat (m_numSlots s))%nat -> words s !! j = Some 0.

(** Exactly the first [k] bits of the slots are set: slot [j] holds the low
    [k - 64 j] ones, cut off at 0 and at 64. *)
Definition prefix_filled (k : Z) (s : BitArray) : Prop :=
  forall j : nat, Z.of_nat j < m_numSlots s ->
    words s !! j = Some (Z.ones (Z.max 0 (Z.min 64 (k - 64 * Z.of_nat j)))).

(** The number of indices [i] in [[0, max())] for which [isSet(i)] is true. *)
Definition count_set (s : BitArray) : Z :=
  count_upto (fun i => match isSet s i with Ok b => b | Err _ => false end)
    (Z.to_nat (m_max s)).

(** The calls that keep every set bit inside the domain: the point and
    clearing operations, and [setFirst]/[setAny] when the index they hand out
    is below [max()].  Arguments are unsigned. *)
Inductive in_domain_step : BitArray -> BitArray -> Prop :=
| ids_set s i s' : 0 <= i -> set s i = Ok s' -> in_domain_step s s'
| ids_unset s i s' : 0 <= i -> unset s i = Ok s' -> in_domain_step s s'
| ids_toggle s i s' : 0 <= i -> toggle s i = Ok s' -> in_domain_step s s'
| ids_unsetRange s a b s' :
    0 <= a -> 0 <= b -> unsetRange s a b = Ok s' -> in_domain_step s s'
| ids_reset s s' : reset s = Ok s' -> in_domain_step s s'
| ids_setFirst s s' r :
    setFirst s = Ok (s', r) -> r < m_max s -> in_domain_step s s'
| ids_setAny s s' r :
    setAny s = Ok (s', r) -> r < m_max s -> in_domain_step s s'.

(** A bit array of capacity [_max] right after [BitArrayExt::init] on the
    caller's buffer [buf] at address [_mem]. *)
Definition fresh (_max _mem : Z) (buf : list Z) : res BitArray :=
  '(s, _) ← BitArrayExt_init (BitArrayStorage_ctor 0 0) _max _mem buf;
  Ok s.

(** ** The remaining queries of [BitArrayImpl] *)

(** The loop of [getFirstSetBit], with [n] iterations left. *)
Fixpoint getFirstSetBit_loop (s : BitArray) (ii : Z) (n : nat) : res Z :=
  match n with
  | O => Ok (m_max s)
  | S n' =>
      w ← load (words s) ii;
      let hasSetBits := negb (0 =? w) in
      if hasSetBits then
        let pos := u32 (cnttz_u64 w) in
        Ok (u32 (u32 (Z.shiftl ii 6) + pos))
      else getFirstSetBit_loop s (ii + 1) n'
  end.

Definition getFirstSetBit (s : BitArray) : res Z :=
  getFirstSetBit_loop s 0 (Z.to_nat (m_numSlots s)).

(** The loop of [getFirstUnsetBit], with [n] iterations left. *)
Fixpoint getFirstUnsetBit_loop (s : BitArray) (ii : Z) (n : nat) : res Z :=
  match n with
  | O => Ok (m_max s)
  | S n' =>
      w ← load (words s) ii;
      let hasUnsetBits := negb (w =? UINT64_MAX) in
      if hasUnsetBits then
        let sel := markFirstUnsetBit w in
        let pos := u32 (cnttz_u64 sel) in
        Ok (u32 (u32 (Z.shiftl ii 6) + pos))
      else getFirstUnsetBit_loop s (ii + 1) n'
  end.

Definition getFirstUnsetBit (s : BitArray) : res Z :=
  getFirstUnsetBit_loop s 0 (Z.to_nat (m_numSlots s)).

(** The loop of [getLastUnsetBit]; [n] is the value of [ii] before the
    decrement. *)
Fixpoint getLastUnsetBit_loop (s : BitArray) (n : nat) : res Z :=
  match n with
  | O => Ok (m_max s)
  | S n' =>
      let ii := Z.of_nat n' in
      w ← load (words s) ii;
      let hasSetBits := negb (0 =? w) in
      if hasSetBits then
        let leading := cntlz_u64 w in
        let pos := u32 (63 - u32 leading) in
        Ok (u32 (u32 (Z.shiftl ii 6) + pos))
      else getLastUnsetBit_loop s n'
  end.

Definition getLastUnsetBit (s : BitArray) : res Z :=
  getLastUnsetBit_loop s (Z.to_nat (m_numSlots s)).

(** The arguments of a call are unsigned. *)
Definition call_unsigned (c : call) : Prop :=
  match c with
  | CallSet i | CallUnset i | CallToggle i => 0 <= i
  | CallSetRange a b | CallUnsetRange a b => 0 <= a /\ 0 <= b
  | CallSetFirst | CallSetAny | CallReset => True
  end.

(** The positions that [setRange(_begin, _end)] sets and
    [unsetRange(_begin, _end)] clears: the words from [_begin]'s up to, but
    not including, [_end]'s; in [_begin]'s word the positions at or below
    [_begin]; in [_end]'s word the positions at or above [_end]. *)
Definition range_touched (_begin _end p : Z) : bool :=
  ((_begin / 64 <=? p / 64) && (p / 64 <? _end / 64))
  || ((p / 64 =? _begin / 64) && (p <=? _begin))
  || ((p / 64 =? _end / 64) && (_end <=? p)).

(** Two states over the same storage: the address, the capacity, the slot
    count, the release function and the size of the buffer agree. *)
Definition same_storage (s s' : BitArray) : Prop :=
  m_bits s' = m_bits s /\ m_max s' = m_max s /\ m_numSlots s' = m_numSlots s /\
  m_reallocFn s' = m_reallocFn s /\ length (words s') = length (words s).

(** The cursor is a word index. *)
Definition cursor_in_slots (s : BitArray) : Prop := 0 <= m_last s <= m_numSlots s.

(** * Properties *)

(** ** The outcome monad *)

Lemma bind_Ok {A B : Type} (m : res A) (k : A -> res B) (b : B) :
  m ≫= k = Ok b <-> exists a, m = Ok a /\ k a = Ok b.
Proof.
  destruct m as [a|f]; simpl; split.
  - intros H. exists a. auto.
  - intros [a' [Ha Hk]]. inversion Ha. subst. exact Hk.
  - discriminate.
  - intros [a' [Ha _]]. discriminate.
Qed.

Lemma bind_Ok_l {A B : Type} (a : A) (k : A -> res B) : Ok a ≫= k = k a.
Proof. reflexivity. Qed.

Lemma DM_CHECK_Ok (c : bool) (u : unit) : DM_CHECK c = Ok u <-> c = true.
Proof. destruct c, u; simpl; split; congruence. Qed.

(** Splits every hypothesis of the form [m ≫= k = Ok b]. *)
Ltac inv_bind :=
  repeat match goal with
  | H : _ ≫= _ = Ok _ |- _ =>
      let a := fresh "a" in
      let Ha := fresh "Hstep" in
      apply bind_Ok in H; destruct H as [a [Ha H]]
  | H : DM_CHECK _ = Ok _ |- _ => apply DM_CHECK_Ok in H
  | H : Ok _ = Ok _ |- _ => inversion H; clear H; subst
  | H : Err _ = Ok _ |- _ => discriminate H
  end.

(** ** Machine arithmetic *)

Lemma u32_small (z : Z) : 0 <= z < 2 ^ 32 -> u32 z = z.
Proof. intros H. unfold u32. apply Z.mod_small. exact H. Qed.

Lemma u64_small (z : Z) : 0 <= z < 2 ^ 64 -> u64 z = z.
Proof. intros H. unfold u64. apply Z.mod_small. exact H. Qed.

Lemma shiftr6 (z : Z) : Z.shiftr z 6 = z / 64.
Proof. rewrite Z.shiftr_div_pow2 by lia. reflexivity. Qed.

Lemma shiftl6 (z : Z) : Z.shiftl z 6 = z * 64.
Proof. rewrite Z.shiftl_mul_pow2 by lia. reflexivity. Qed.

Lemma land63 (z : Z) : Z.land z 63 = z mod 64.
Proof. change 63 with (Z.ones 6). rewrite Z.land_ones by lia. reflexivity. Qed.

Lemma numSlotsFor_pos (m : Z) :
  1 <= m < 2 ^ 32 -> BitArrayStorageExt_numSlotsFor m = (m - 1) / 64 + 1.
Proof.
  intros H. unfold BitArrayStorageExt_numSlotsFor.
  rewrite (u32_small (m - 1)) by lia. rewrite shiftr6.
  apply u32_small.
  assert (0 <= (m - 1) / 64) by (apply Z.div_pos; lia).
  assert ((m - 1) / 64 < 2 ^ 26).
  { apply Z.div_lt_upper_bound; [lia|]. change (64 * 2 ^ 26) with (2 ^ 32). lia. }
  change (2 ^ 26) with 67108864 in *. change (2 ^ 32) with 4294967296. lia.
Qed.

Lemma ceil_div64_pos (m : Z) : ceil_div64 m = (m - 1) / 64 + 1.
Proof.
  unfold ceil_div64. replace (m + 63) with ((m - 1) + 1 * 64) by lia.
  rewrite Z.div_add by lia. reflexivity.
Qed.

(** ** Buffer accesses *)

Lemma load_Ok (ws : list Z) (i w : Z) :
  load ws i = Ok w <-> ws !! Z.to_nat i = Some w.
Proof.
  unfold load. destruct (ws !! Z.to_nat i); split; congruence.
Qed.

Lemma load_in_bounds (ws : list Z) (i : Z) :
  (Z.to_nat i < length ws)%nat -> exists w, load ws i = Ok w.
Proof.
  intros H. apply lookup_lt_is_Some_2 in H. destruct H as [w Hw].
  exists w. apply load_Ok. exact Hw.
Qed.

Lemma store_Ok (ws : list Z) (i v : Z) (ws' : list Z) :
  store ws i v = Ok ws' <->
  (Z.to_nat i < length ws)%nat /\ ws' = <[Z.to_nat i := v]> ws.
Proof.
  unfold store. destruct (decide (Z.to_nat i < length ws)%nat); split.
  - intros H. inversion H. auto.
  - intros [_ ->]. reflexivity.
  - discriminate.
  - intros [H _]. contradiction.
Qed.

Lemma store_length (ws : list Z) (i v : Z) (ws' : list Z) :
  store ws i v = Ok ws' -> length ws' = length ws.
Proof. intros H. apply store_Ok in H. destruct H as [_ ->]. apply length_insert. Qed.

Lemma memset_words_length (n : nat) (ws : list Z) (start v : Z) (ws' : list Z) :
  memset_words ws start v n = Ok ws' -> length ws' = length ws.
Proof.
  revert ws start. induction n as [|n IH]; intros ws start H; simpl in H.
  - inversion H. reflexivity.
  - inv_bind. apply IH in H. apply store_length in Hstep. congruence.
Qed.

Lemma memset_words_in_bounds (n : nat) (ws : list Z) (start v : Z) :
  0 <= start -> (Z.to_nat start + n <= length ws)%nat ->
  exists ws', memset_words ws start v n = Ok ws'.
Proof.
  revert ws start. induction n as [|n IH]; intros ws start Hs Hlen; simpl.
  - eauto.
  - destruct (store ws start v) as [ws1|f] eqn:E.
    + simpl. apply IH; [lia|]. apply store_length in E. lia.
    + unfold store in E.
      destruct (decide (Z.to_nat start < length ws)%nat); [discriminate|lia].
Qed.

(** Every word a [memset] leaves is either the fill value or the old word. *)
Lemma memset_words_lookup (n : nat) (ws : list Z) (start v : Z) (ws' : list Z) (j : nat) :
  0 <= start -> memset_words ws start v n = Ok ws' ->
  ws' !! j =
    if decide (Z.to_nat start <= j < Z.to_nat start + n)%nat
    then Some v else ws !! j.
Proof.
  revert ws start. induction n as [|n IH]; intros ws start Hs H; simpl in H.
  - inversion H. subst. destruct (decide _); [lia|reflexivity].
  - inv_bind. apply IH in H; [|lia]. rewrite H. clear H.
    apply store_Ok in Hstep. destruct Hstep as [Hlt ->].
    replace (Z.to_nat (start + 1)) with (S (Z.to_nat start)) by lia.
    destruct (decide (S (Z.to_nat start) <= j < S (Z.to_nat start) + n)%nat);
      destruct (decide (Z.to_nat start <= j < Z.to_nat start + S n)%nat);
      try lia.
    + reflexivity.
    + assert (j = Z.to_nat start) by lia. subst j.
      apply list_lookup_insert_eq. exact Hlt.
    + rewrite list_lookup_insert_ne by lia. reflexivity.
Qed.

Lemma bucket_in_bounds (s : BitArray) (i : Z) :
  wf s -> 0 <= i < m_max s -> (Z.to_nat (Z.shiftr i 6) < length (words s))%nat.
Proof.
  intros Hwf Hi. destruct Hwf as [Hmax Hn Hlen _ _].
  rewrite numSlotsFor_pos in Hn by exact Hmax.
  rewrite shiftr6.
  assert (0 <= i / 64) by (apply Z.div_pos; lia).
  assert (i / 64 <= (m_max s - 1) / 64) by (apply Z.div_le_mono; lia).
  lia.
Qed.

Lemma store_in_bounds (ws : list Z) (i v : Z) :
  (Z.to_nat i < length ws)%nat -> store ws i v = Ok (<[Z.to_nat i := v]> ws).
Proof. intros H. apply store_Ok. auto. Qed.

(** With its preconditions met, [setRange] stays inside the buffer, and its
    effect on the cursor is the final [if] of the function. *)
Lemma setRange_runs (s : BitArray) (a b : Z) :
  wf s -> 0 <= a -> a <= b -> b < m_max s ->
  exists ws,
    setRange s a b =
      Ok (with_last (with_words s ws)
            (if (a <=? m_last s) && (m_last s <=? b) then b else m_last s)) /\
    length ws = length (words s).
Proof.
  intros Hwf Ha Hab Hb. unfold setRange.
  assert (Hca : (a <? m_max s) = true) by (apply Z.ltb_lt; lia).
  assert (Hcb : (b <? m_max s) = true) by (apply Z.ltb_lt; lia).
  rewrite Hca, Hcb. simpl.
  pose proof (bucket_in_bounds s a Hwf ltac:(lia)) as Hba.
  pose proof (bucket_in_bounds s b Hwf ltac:(lia)) as Hbb.
  destruct (load_in_bounds _ _ Hba) as [w0 ->]. simpl.
  rewrite store_in_bounds by exact Hba. simpl.
  set (ws1 := <[Z.to_nat (Z.shiftr a 6) := _]> (words s)).
  assert (Hl1 : length ws1 = length (words s)) by apply length_insert.
  destruct (load_in_bounds ws1 (Z.shiftr b 6)) as [w1 ->]; [lia|]. simpl.
  rewrite store_in_bounds by lia. simpl.
  set (ws2 := <[Z.to_nat (Z.shiftr b 6) := _]> ws1).
  assert (Hl2 : length ws2 = length (words s)).
  { unfold ws2. rewrite length_insert. exact Hl1. }
  assert (Hq : 0 <= a / 64 <= b / 64).
  { split; [apply Z.div_pos; lia | apply Z.div_le_mono; lia]. }
  assert (Hb32 : b / 64 < 2 ^ 32).
  { destruct Hwf as [Hmax _ _ _ _].
    apply Z.div_lt_upper_bound; [lia|]. lia. }
  rewrite !shiftr6 in *.
  rewrite (u32_small (b / 64 - a / 64)) by lia.
  destruct (memset_words_in_bounds (Z.to_nat (b / 64 - a / 64)) ws2 (a / 64) UINT64_MAX)
    as [ws3 Hm]; [lia | lia |].
  rewrite Hm. simpl. exists ws3. split; [reflexivity|].
  apply memset_words_length in Hm. lia.
Qed.

(** ** 64-bit words, bit by bit *)

Lemma word_ok_bits (w : Z) :
  word_ok w <-> (forall p, Z.testbit w p = true -> 0 <= p < 64).
Proof.
  unfold word_ok. split.
  - intros [Hlo Hhi] p Hp.
    destruct (Z.ltb_spec p 0) as [Hneg|Hnn].
    { rewrite Z.testbit_neg_r in Hp by exact Hneg. discriminate. }
    split; [exact Hnn|].
    destruct (Z.ltb_spec p 64) as [Hlt|Hge]; [exact Hlt|].
    destruct (Z.eq_dec w 0) as [->|Hnz].
    { rewrite Z.bits_0 in Hp. discriminate. }
    rewrite Z.bits_above_log2 in Hp; [discriminate|lia|].
    assert (Z.log2 w < 64) by (apply Z.log2_lt_pow2; lia). lia.
  - intros H.
    assert (Hnn : 0 <= w).
    { destruct (Z.ltb_spec w 0) as [Hneg|Hnn]; [|exact Hnn].
      apply Z.bits_iff_neg_ex in Hneg. destruct Hneg as [k Hk].
      specialize (Hk (Z.max 64 (k + 1)) ltac:(lia)).
      apply H in Hk. lia. }
    split; [exact Hnn|].
    destruct (Z.ltb_spec w (2 ^ 64)) as [Hlt|Hge]; [exact Hlt|].
    assert (Hpos : 0 < w) by lia.
    pose proof (Z.bit_log2 w Hpos) as Hb. apply H in Hb.
    assert (64 <= Z.log2 w) by (apply Z.log2_le_pow2; lia). lia.
Qed.

Lemma testbit_UINT64_MAX (p : Z) :
  Z.testbit UINT64_MAX p = (0 <=? p) && (p <? 64).
Proof.
  change UINT64_MAX with (Z.ones 64). apply Z.testbit_ones. lia.
Qed.

Lemma word_ok_lor (a b : Z) : word_ok a -> word_ok b -> word_ok (Z.lor a b).
Proof.
  rewrite !word_ok_bits. intros Ha Hb p. rewrite Z.lor_spec.
  intros H. apply orb_true_iff in H. destruct H; auto.
Qed.

Lemma word_ok_land (a b : Z) : word_ok a -> word_ok (Z.land a b).
Proof.
  rewrite !word_ok_bits. intros Ha p. rewrite Z.land_spec.
  intros H. apply andb_true_iff in H. destruct H; auto.
Qed.

Lemma word_ok_lxor (a b : Z) : word_ok a -> word_ok b -> word_ok (Z.lxor a b).
Proof.
  rewrite !word_ok_bits. intros Ha Hb p. rewrite Z.lxor_spec.
  destruct (Z.testbit a p) eqn:Ea; [auto|].
  destruct (Z.testbit b p) eqn:Eb; [auto|]. discriminate.
Qed.

Lemma bit_mask_pow2 (i : Z) : bit_mask i = 2 ^ (i mod 64).
Proof.
  unfold bit_mask. rewrite land63, Z.shiftl_1_l.
  assert (0 <= i mod 64 < 64) by (apply Z.mod_pos_bound; lia).
  apply u64_small. split; [apply Z.pow_nonneg; lia|].
  apply Z.pow_lt_mono_r; lia.
Qed.

Lemma testbit_bit_mask (i p : Z) :
  Z.testbit (bit_mask i) p = (i mod 64 =? p).
Proof.
  rewrite bit_mask_pow2. apply Z.pow2_bits_eqb.
  apply Z.mod_pos_bound. lia.
Qed.

Lemma word_ok_bit_mask (i : Z) : word_ok (bit_mask i).
Proof.
  apply word_ok_bits. intros p. rewrite testbit_bit_mask.
  intros H. apply Z.eqb_eq in H. subst p. apply Z.mod_pos_bound. lia.
Qed.

(** Below a bound, a predicate holds everywhere or fails first somewhere. *)
Lemma first_false (f : Z -> bool) (n : nat) :
  (forall q, 0 <= q < Z.of_nat n -> f q = true) \/
  (exists t, 0 <= t < Z.of_nat n /\ f t = false /\
             forall q, 0 <= q < t -> f q = true).
Proof.
  induction n as [|n [Hall|[t [Ht [Hf Hlow]]]]].
  - left. intros q Hq. lia.
  - destruct (f (Z.of_nat n)) eqn:E.
    + left. intros q Hq.
      destruct (Z.eq_dec q (Z.of_nat n)) as [->|Hne]; [exact E|].
      apply Hall. lia.
    + right. exists (Z.of_nat n). split; [lia|]. split; [exact E|].
      intros q Hq. apply Hall. lia.
  - right. exists t. split; [lia|]. split; [exact Hf|exact Hlow].
Qed.

(** A word that is not all-ones has a lowest zero bit. *)
Lemma lowest_zero_exists (w : Z) :
  word_ok w -> w <> UINT64_MAX ->
  exists t, 0 <= t < 64 /\ Z.testbit w t = false /\
            forall q, 0 <= q < t -> Z.testbit w q = true.
Proof.
  intros Hw Hne.
  destruct (first_false (Z.testbit w) 64) as [Hall|Hex]; [|exact Hex].
  exfalso. apply Hne. apply Z.bits_inj'. intros p Hp.
  rewrite testbit_UINT64_MAX.
  destruct (Z.ltb_spec p 64) as [Hlt|Hge].
  - rewrite Hall by lia. destruct (Z.leb_spec 0 p); [reflexivity|lia].
  - rewrite andb_false_r.
    destruct (Z.testbit w p) eqn:Eb; [|reflexivity].
    apply (proj1 (word_ok_bits w) Hw) in Eb. lia.
Qed.

(** Adding one clears the ones below the lowest zero bit and sets that bit. *)
Lemma testbit_succ (w t p : Z) :
  0 <= w -> 0 <= t -> Z.testbit w t = false ->
  (forall q, 0 <= q < t -> Z.testbit w q = true) ->
  0 <= p ->
  Z.testbit (w + 1) p =
    if p <? t then false else if p =? t then true else Z.testbit w p.
Proof.
  intros Hw Ht Hz Hlow Hp.
  assert (Hmod : w mod 2 ^ t = Z.ones t).
  { rewrite <- Z.land_ones by exact Ht. apply Z.bits_inj'. intros q Hq.
    rewrite Z.land_spec, Z.testbit_ones by exact Ht.
    destruct (Z.leb_spec 0 q); [|lia]. cbn [andb].
    destruct (Z.ltb_spec q t).
    - rewrite Hlow by lia. reflexivity.
    - apply andb_false_r. }
  assert (Heven : Z.testbit (w / 2 ^ t) 0 = false).
  { rewrite Z.div_pow2_bits by lia. exact Hz. }
  assert (Hpow : 0 < 2 ^ t) by (apply Z.pow_pos_nonneg; lia).
  set (y := w / 2 ^ t / 2).
  assert (Hy : w / 2 ^ t = 2 * y).
  { pose proof (Z.div_mod (w / 2 ^ t) 2 ltac:(lia)) as Hd.
    pose proof (Z.bit0_mod (w / 2 ^ t)) as Hm.
    rewrite Heven in Hm. cbn [Z.b2z] in Hm.
    unfold y. lia. }
  assert (Hsucc : w + 1 = (2 * y + 1) * 2 ^ t).
  { pose proof (Z.div_mod w (2 ^ t) ltac:(lia)) as Hd.
    rewrite Hmod, Hy in Hd. rewrite Z.ones_equiv in Hd. lia. }
  rewrite Hsucc.
  destruct (Z.ltb_spec p t) as [Hlt|Hge].
  - apply Z.mul_pow2_bits_low. lia.
  - rewrite Z.mul_pow2_bits by lia.
    destruct (Z.eqb_spec p t) as [->|Hne].
    + rewrite Z.sub_diag. apply Z.testbit_odd_0.
    + replace (p - t) with (Z.succ (p - t - 1)) by lia.
      rewrite Z.testbit_odd_succ by lia.
      rewrite <- (Z.testbit_even_succ y) by lia.
      rewrite <- Hy. rewrite Z.div_pow2_bits by lia.
      f_equal. lia.
Qed.

Lemma first_set_from_found (w t : Z) (fuel : nat) (p : Z) :
  p <= t -> t - p < Z.of_nat fuel ->
  Z.testbit w t = true ->
  (forall q, p <= q < t -> Z.testbit w q = false) ->
  first_set_from w p fuel = t.
Proof.
  revert p. induction fuel as [|fuel IH]; intros p Hp Hfuel Ht Hlow; [lia|].
  simpl. destruct (Z.eq_dec p t) as [->|Hne].
  - rewrite Ht. reflexivity.
  - rewrite Hlow by lia. apply IH; [lia|lia|exact Ht|].
    intros q Hq. apply Hlow. lia.
Qed.

(** What [setRightmostBit] computes on a word [w] that has a zero bit:
    [w + 1] does not wrap, [w | (w + 1)] is [w] with its lowest zero bit [t]
    set, and [cnttz_u64 (w + 1)] is [t]. *)
Lemma rightmost_spec (w : Z) :
  word_ok w -> w <> UINT64_MAX ->
  exists t,
    0 <= t < 64 /\ Z.testbit w t = false /\
    (forall q, 0 <= q < t -> Z.testbit w q = true) /\
    u64 (w + 1) = w + 1 /\
    cnttz_u64 (w + 1) = t /\
    word_ok (Z.lor w (w + 1)) /\
    forall p, 0 <= p -> Z.testbit (Z.lor w (w + 1)) p = Z.testbit w p || (p =? t).
Proof.
  intros Hw Hne.
  destruct (lowest_zero_exists w Hw Hne) as [t [Ht [Hz Hlow]]].
  assert (Hnn : 0 <= w) by (destruct Hw; assumption).
  assert (Hbits : forall p, 0 <= p ->
            Z.testbit (Z.lor w (w + 1)) p = Z.testbit w p || (p =? t)).
  { intros p Hp. rewrite Z.lor_spec.
    rewrite (testbit_succ w t p Hnn ltac:(lia) Hz Hlow Hp).
    destruct (Z.ltb_spec p t).
    - destruct (Z.eqb_spec p t); [lia|]. reflexivity.
    - destruct (Z.eqb_spec p t) as [->|].
      + rewrite Hz. reflexivity.
      + rewrite orb_diag. rewrite orb_false_r. reflexivity. }
  assert (Hsmall : 0 <= w + 1 < 2 ^ 64).
  { unfold word_ok, UINT64_MAX in *. lia. }
  exists t.
  split; [exact Ht|]. split; [exact Hz|]. split; [exact Hlow|].
  split; [apply u64_small; exact Hsmall|].
  split; [|split; [apply word_ok_lor; [exact Hw|exact Hsmall]|exact Hbits]].
  unfold cnttz_u64. apply first_set_from_found; [lia|lia| |].
  - rewrite (testbit_succ w t t Hnn ltac:(lia) Hz Hlow ltac:(lia)).
    rewrite Z.ltb_irrefl, Z.eqb_refl. reflexivity.
  - intros q Hq.
    rewrite (testbit_succ w t q Hnn ltac:(lia) Hz Hlow ltac:(lia)).
    destruct (Z.ltb_spec q t); [reflexivity|lia].
Qed.

(** ** States after a word has been replaced *)

Lemma bit_at_insert (s : BitArray) (j : nat) (v : Z) (l p : Z) :
  (j < length (words s))%nat ->
  bit_at (with_last (with_words s (<[j := v]> (words s))) l) p =
    if decide (Z.to_nat (p / 64) = j) then Z.testbit v (p mod 64) else bit_at s p.
Proof.
  intros Hj. unfold bit_at. cbn [with_last with_words words].
  destruct (decide (Z.to_nat (p / 64) = j)) as [->|Hne].
  - rewrite list_lookup_insert_eq by exact Hj. reflexivity.
  - rewrite list_lookup_insert_ne by congruence. reflexivity.
Qed.

Lemma Forall_word_ok_insert (ws : list Z) (j : nat) (v : Z) :
  Forall word_ok ws -> word_ok v -> Forall word_ok (<[j := v]> ws).
Proof. intros Hws Hv. apply Forall_insert; assumption. Qed.

(** Replacing one word by a 64-bit value keeps the state well formed; and if
    every bit the new word adds inside the slots is a bit of the domain, no
    padding bit appears. *)
Lemma update_word_keeps (s : BitArray) (j : nat) (w v l : Z) :
  wf s -> words s !! j = Some w -> word_ok v -> 0 <= l < 2 ^ 32 ->
  wf (with_last (with_words s (<[j := v]> (words s))) l) /\
  ((forall q, 0 <= q < 64 -> Z.testbit v q = true -> Z.testbit w q = false ->
      Z.of_nat j < m_numSlots s -> 64 * Z.of_nat j + q < m_max s) ->
   padding_clear s ->
   padding_clear (with_last (with_words s (<[j := v]> (words s))) l)).
Proof.
  intros Hwf Hj Hv Hl.
  assert (Hlen : (j < length (words s))%nat) by (eapply lookup_lt_Some; exact Hj).
  split.
  - destruct Hwf as [Hmax Hn Hlength Hws _].
    constructor; cbn [with_last with_words m_max m_numSlots words m_last].
    + exact Hmax.
    + exact Hn.
    + rewrite length_insert. exact Hlength.
    + apply Forall_word_ok_insert; assumption.
    + exact Hl.
  - intros Hnew Hpad p Hp.
    cbn [with_last with_words m_max m_numSlots] in Hp.
    rewrite bit_at_insert by exact Hlen.
    destruct (decide (Z.to_nat (p / 64) = j)) as [Hpj|Hne]; [|apply Hpad; exact Hp].
    destruct (Z.testbit v (p mod 64)) eqn:Ev; [|reflexivity].
    exfalso.
    assert (Hp0 : 0 <= p) by (destruct Hwf; lia).
    assert (Hq : 0 <= p mod 64 < 64) by (apply Z.mod_pos_bound; lia).
    assert (Hd : 0 <= p / 64) by (apply Z.div_pos; lia).
    pose proof (Z.div_mod p 64 ltac:(lia)) as Hdm.
    destruct (Z.testbit w (p mod 64)) eqn:Ew.
    + specialize (Hpad p Hp). unfold bit_at in Hpad.
      rewrite Hpj, Hj, Ew in Hpad. discriminate.
    + specialize (Hnew (p mod 64) Hq Ev Ew). lia.
Qed.

(** ** Point operations *)

Lemma point_op_inv (s : BitArray) (i : Z) (f : Z -> Z) (s' : BitArray) :
  (_ ← DM_CHECK (i <? m_max s);
   w ← load (words s) (Z.shiftr i 6);
   ws ← store (words s) (Z.shiftr i 6) (f w);
   Ok (with_words s ws)) = Ok s' ->
  i < m_max s /\
  exists w, words s !! Z.to_nat (Z.shiftr i 6) = Some w /\
    s' = with_last (with_words s (<[Z.to_nat (Z.shiftr i 6) := f w]> (words s))) (m_last s).
Proof.
  intros H. inv_bind. apply Z.ltb_lt in Hstep.
  apply load_Ok in Hstep0. apply store_Ok in Hstep1. destruct Hstep1 as [_ ->].
  split; [exact Hstep|]. eexists. split; [exact Hstep0|reflexivity].
Qed.

(** A position inside word [i >> 6] whose offset is [i & 63] is [i]. *)
Lemma same_bucket_same_bit (i q : Z) (j : nat) :
  0 <= i -> j = Z.to_nat (Z.shiftr i 6) -> i mod 64 = q ->
  64 * Z.of_nat j + q = i.
Proof.
  intros Hi -> <-. rewrite shiftr6.
  assert (0 <= i / 64) by (apply Z.div_pos; lia).
  rewrite Z2Nat.id by lia.
  pose proof (Z.div_mod i 64 ltac:(lia)). lia.
Qed.

Lemma set_keeps (s : BitArray) (i : Z) (s' : BitArray) :
  wf s -> 0 <= i -> set s i = Ok s' ->
  wf s' /\ (padding_clear s -> padding_clear s').
Proof.
  intros Hwf Hi H. apply (point_op_inv s i (fun w => Z.lor w (bit_mask i))) in H.
  destruct H as [Hmax [w [Hw ->]]].
  assert (Hwok : word_ok w).
  { destruct Hwf as [_ _ _ Hws _]. rewrite Forall_lookup in Hws. eapply Hws, Hw. }
  destruct (update_word_keeps s _ w (Z.lor w (bit_mask i)) (m_last s) Hwf Hw) as [Hwf' Hpad].
  - apply word_ok_lor; [exact Hwok|apply word_ok_bit_mask].
  - destruct Hwf; assumption.
  - split; [exact Hwf'|]. apply Hpad. intros q Hq Hv Hwq _.
    rewrite Z.lor_spec, Hwq, testbit_bit_mask in Hv. cbn [orb] in Hv.
    apply Z.eqb_eq in Hv.
    rewrite (same_bucket_same_bit i q _ Hi eq_refl Hv). exact Hmax.
Qed.

Lemma unset_keeps (s : BitArray) (i : Z) (s' : BitArray) :
  wf s -> unset s i = Ok s' ->
  wf s' /\ (padding_clear s -> padding_clear s').
Proof.
  intros Hwf H. apply (point_op_inv s i (fun w => Z.land w (not64 (bit_mask i)))) in H.
  destruct H as [Hmax [w [Hw ->]]].
  assert (Hwok : word_ok w).
  { destruct Hwf as [_ _ _ Hws _]. rewrite Forall_lookup in Hws. eapply Hws, Hw. }
  destruct (update_word_keeps s _ w (Z.land w (not64 (bit_mask i))) (m_last s) Hwf Hw)
    as [Hwf' Hpad].
  - apply word_ok_land. exact Hwok.
  - destruct Hwf; assumption.
  - split; [exact Hwf'|]. apply Hpad. intros q Hq Hv Hwq _.
    rewrite Z.land_spec, Hwq in Hv. discriminate.
Qed.

Lemma toggle_keeps (s : BitArray) (i : Z) (s' : BitArray) :
  wf s -> 0 <= i -> toggle s i = Ok s' ->
  wf s' /\ (padding_clear s -> padding_clear s').
Proof.
  intros Hwf Hi H. apply (point_op_inv s i (fun w => Z.lxor w (bit_mask i))) in H.
  destruct H as [Hmax [w [Hw ->]]].
  assert (Hwok : word_ok w).
  { destruct Hwf as [_ _ _ Hws _]. rewrite Forall_lookup in Hws. eapply Hws, Hw. }
  destruct (update_word_keeps s _ w (Z.lxor w (bit_mask i)) (m_last s) Hwf Hw) as [Hwf' Hpad].
  - apply word_ok_lxor; [exact Hwok|apply word_ok_bit_mask].
  - destruct Hwf; assumption.
  - split; [exact Hwf'|]. apply Hpad. intros q Hq Hv Hwq _.
    rewrite Z.lxor_spec, Hwq, testbit_bit_mask in Hv. cbn [xorb] in Hv.
    apply Z.eqb_eq in Hv.
    rewrite (same_bucket_same_bit i q _ Hi eq_refl Hv). exact Hmax.
Qed.

Lemma wf_word_ok (s : BitArray) (j : nat) (w : Z) :
  wf s -> words s !! j = Some w -> word_ok w.
Proof.
  intros Hwf Hw. destruct Hwf as [_ _ _ Hws _].
  rewrite Forall_lookup in Hws. eapply Hws, Hw.
Qed.

Lemma wf_with_last (s : BitArray) (l : Z) :
  wf s -> 0 <= l < 2 ^ 32 -> wf (with_last s l).
Proof.
  intros [Hmax Hn Hlen Hws _] Hl. constructor; assumption.
Qed.

Lemma with_last_same (s : BitArray) : with_last s (m_last s) = s.
Proof. destruct s. reflexivity. Qed.

Lemma with_last_with_last (s : BitArray) (l1 l2 : Z) :
  with_last (with_last s l1) l2 = with_last s l2.
Proof. reflexivity. Qed.

Lemma padding_clear_with_last (s : BitArray) (l : Z) :
  padding_clear s -> padding_clear (with_last s l).
Proof. intros H p Hp. apply (H p Hp). Qed.

Lemma wf_numSlots_bound (s : BitArray) : wf s -> 1 <= m_numSlots s <= 2 ^ 26.
Proof.
  intros [Hmax Hn _ _ _]. rewrite Hn, numSlotsFor_pos by exact Hmax.
  assert (0 <= (m_max s - 1) / 64) by (apply Z.div_pos; lia).
  assert ((m_max s - 1) / 64 < 2 ^ 26).
  { apply Z.div_lt_upper_bound; [lia|]. change (64 * 2 ^ 26) with (2 ^ 32). lia. }
  lia.
Qed.

(** ** [memset] with zero *)

Lemma memset_zero_keeps (s : BitArray) (start : Z) (n : nat) (ws' : list Z) (l : Z) :
  wf s -> 0 <= start -> 0 <= l < 2 ^ 32 ->
  memset_words (words s) start 0 n = Ok ws' ->
  wf (with_last (with_words s ws') l) /\
  (padding_clear s -> padding_clear (with_last (with_words s ws') l)).
Proof.
  intros Hwf Hs Hl Hm.
  pose proof (memset_words_length _ _ _ _ _ Hm) as Hlen.
  pose proof (fun j => memset_words_lookup n (words s) start 0 ws' j Hs Hm) as Hlook.
  split.
  - destruct Hwf as [Hmax Hn Hlength Hws _].
    constructor; cbn [with_last with_words m_max m_numSlots words m_last];
      try assumption.
    + rewrite Hlen. exact Hlength.
    + rewrite Forall_lookup. intros j w Hj. rewrite Hlook in Hj.
      destruct (decide _).
      * inversion Hj. unfold word_ok. lia.
      * rewrite Forall_lookup in Hws. eapply Hws, Hj.
  - intros Hpad p Hp. specialize (Hpad p Hp).
    unfold bit_at in *. cbn [with_last with_words words].
    rewrite Hlook. destruct (decide _); [apply Z.bits_0|exact Hpad].
Qed.

Lemma reset_keeps (s : BitArray) (s' : BitArray) :
  wf s -> reset s = Ok s' -> wf s' /\ (padding_clear s -> padding_clear s').
Proof.
  intros Hwf H. unfold reset in H. inv_bind.
  cbn [with_last words m_numSlots] in Hstep.
  apply (memset_zero_keeps s 0 _ _ 0 Hwf) in Hstep; [exact Hstep|lia|lia].
Qed.

Lemma unsetRange_keeps (s : BitArray) (a b : Z) (s' : BitArray) :
  wf s -> 0 <= a -> unsetRange s a b = Ok s' ->
  wf s' /\ (padding_clear s -> padding_clear s').
Proof.
  intros Hwf Ha H. unfold unsetRange in H. inv_bind.
  apply Z.ltb_lt in Hstep. apply Z.ltb_lt in Hstep0.
  apply load_Ok in Hstep1. apply store_Ok in Hstep2. destruct Hstep2 as [_ ->].
  apply load_Ok in Hstep3. apply store_Ok in Hstep4. destruct Hstep4 as [_ ->].
  assert (Hl : 0 <= m_last s < 2 ^ 32) by (destruct Hwf; assumption).
  assert (Ha32 : 0 <= a < 2 ^ 32) by (destruct Hwf; lia).
  destruct (update_word_keeps s _ _ (Z.land a2 (not64 (smear_down (bit_mask a))))
              (m_last s) Hwf Hstep1) as [Hwf1 Hpad1];
    [apply word_ok_land; eapply wf_word_ok; eassumption|exact Hl|].
  set (s1 := with_last (with_words s _) (m_last s)) in *.
  destruct (update_word_keeps s1 _ _ (Z.land a4 (not64 (smear_up (bit_mask b))))
              (m_last s) Hwf1 Hstep3) as [Hwf2 Hpad2];
    [apply word_ok_land; eapply wf_word_ok; eassumption|exact Hl|].
  set (s2 := with_last (with_words s1 _) (m_last s)) in *.
  assert (H0 : 0 <= Z.shiftr a 6) by (rewrite shiftr6; apply Z.div_pos; lia).
  destruct (memset_zero_keeps s2 _ _ _ a Hwf2 H0 Ha32 Hstep5) as [Hwf3 Hpad3].
  split; [exact Hwf3|].
  intros Hpad. apply Hpad3, Hpad2.
  - intros q Hq Hv Hw _. rewrite Z.land_spec, Hw in Hv. discriminate.
  - apply Hpad1; [|exact Hpad].
    intros q Hq Hv Hw _. rewrite Z.land_spec, Hw in Hv. discriminate.
Qed.

(** ** [setRightmostBit] and the scans that call it *)

Lemma setRightmostBit_inv (s : BitArray) (slot : Z) (s' : BitArray) (r : Z) :
  setRightmostBit s slot = Ok (s', r) ->
  exists w,
    words s !! Z.to_nat slot = Some w /\
    s' = with_last (with_words s (<[Z.to_nat slot := Z.lor w (u64 (w + 1))]> (words s)))
           (m_last s) /\
    r = (let idx := u32 (u32 (Z.shiftl slot 6) + u32 (cnttz_u64 (u64 (w + 1)))) in
         if idx <? m_max s then idx else m_max s).
Proof.
  intros H. unfold setRightmostBit in H. inv_bind.
  apply load_Ok in Hstep. apply store_Ok in Hstep0. destruct Hstep0 as [_ ->].
  exists a. split; [exact Hstep|]. split; reflexivity.
Qed.

Lemma setRightmostBit_keeps (s : BitArray) (slot w : Z) (s' : BitArray) (r : Z) :
  wf s -> 0 <= slot ->
  words s !! Z.to_nat slot = Some w -> w <> UINT64_MAX ->
  setRightmostBit s slot = Ok (s', r) ->
  wf s' /\ (r < m_max s -> padding_clear s -> padding_clear s').
Proof.
  intros Hwf Hslot Hw Hne H.
  apply setRightmostBit_inv in H. destruct H as [w' [Hw' [-> ->]]].
  rewrite Hw in Hw'. inversion Hw'. subst w'. clear Hw'.
  pose proof (wf_word_ok s _ w Hwf Hw) as Hwok.
  destruct (rightmost_spec w Hwok Hne) as [t [Ht [Hz [Hlow [Hu [Hc [Hok Hbits]]]]]]].
  rewrite Hu, Hc.
  destruct (update_word_keeps s _ w (Z.lor w (w + 1)) (m_last s) Hwf Hw Hok) as [Hwf' Hpad];
    [destruct Hwf; assumption|].
  split; [exact Hwf'|]. intros Hr. apply Hpad.
  intros q Hq Hv Hwq Hj.
  rewrite Hbits, Hwq in Hv by lia. cbn [orb] in Hv. apply Z.eqb_eq in Hv. subst q.
  rewrite Z2Nat.id in * by lia.
  pose proof (wf_numSlots_bound s Hwf) as Hn.
  change (2 ^ 26) with 67108864 in Hn.
  cbv zeta in Hr. rewrite shiftl6 in Hr.
  rewrite (u32_small (slot * 64)) in Hr by (change (2 ^ 32) with 4294967296; lia).
  rewrite (u32_small t) in Hr by (change (2 ^ 32) with 4294967296; lia).
  rewrite (u32_small (slot * 64 + t)) in Hr by (change (2 ^ 32) with 4294967296; lia).
  destruct (Z.ltb_spec (slot * 64 + t) (m_max s)); lia.
Qed.

Lemma setFirst_loop_inv (n : nat) (s : BitArray) (slot : Z) (s' : BitArray) (r : Z) :
  0 <= slot -> setFirst_loop s slot n = Ok (s', r) ->
  (s' = s /\ r = m_max s /\
   forall i, slot <= i < slot + Z.of_nat n -> words s !! Z.to_nat i = Some UINT64_MAX) \/
  (exists j w,
     slot <= j < slot + Z.of_nat n /\
     words s !! Z.to_nat j = Some w /\ w <> UINT64_MAX /\
     (forall i, slot <= i < j -> words s !! Z.to_nat i = Some UINT64_MAX) /\
     setRightmostBit s j = Ok (s', r)).
Proof.
  revert slot. induction n as [|n IH]; intros slot Hslot H; simpl in H.
  - inversion H. left. split; [reflexivity|]. split; [reflexivity|]. intros i Hi. lia.
  - inv_bind. apply load_Ok in Hstep.
    destruct (Z.eqb_spec a UINT64_MAX) as [->|Hne]; cbn [negb] in H.
    + destruct (IH (slot + 1) ltac:(lia) H) as [[-> [-> Hall]]|[j [w [Hj [Hw [Hnw [Hall Hset]]]]]]].
      * left. split; [reflexivity|]. split; [reflexivity|]. intros i Hi.
        destruct (Z.eq_dec i slot) as [->|]; [exact Hstep|]. apply Hall. lia.
      * right. exists j, w. split; [lia|]. split; [exact Hw|]. split; [exact Hnw|].
        split; [|exact Hset]. intros i Hi.
        destruct (Z.eq_dec i slot) as [->|]; [exact Hstep|]. apply Hall. lia.
    + right. exists slot, a. split; [lia|]. split; [exact Hstep|]. split; [exact Hne|].
      split; [|exact H]. intros i Hi. lia.
Qed.

Lemma setFirst_keeps (s : BitArray) (s' : BitArray) (r : Z) :
  wf s -> setFirst s = Ok (s', r) ->
  wf s' /\ (r < m_max s -> padding_clear s -> padding_clear s').
Proof.
  intros Hwf H. unfold setFirst in H.
  apply setFirst_loop_inv in H; [|lia].
  destruct H as [[-> [-> _]]|[j [w [Hj [Hw [Hne [_ Hset]]]]]]].
  - split; [exact Hwf|]. intros _ Hpad. exact Hpad.
  - eapply setRightmostBit_keeps; try eassumption. lia.
Qed.

Lemma setAny_loop_inv (n : nat) (s : BitArray) (slot B : Z) (s' : BitArray) (r : option Z) :
  0 <= slot -> slot + Z.of_nat n <= B -> 0 <= m_last s <= B ->
  setAny_loop s slot n = Ok (s', r) ->
  exists l, 0 <= l <= B /\
    ((r = None /\ s' = with_last s l) \/
     (exists j w r',
        r = Some r' /\ slot <= j /\
        words s !! Z.to_nat j = Some w /\ w <> UINT64_MAX /\
        setRightmostBit (with_last s l) j = Ok (s', r'))).
Proof.
  revert s slot. induction n as [|n IH]; intros s slot Hslot HB Hl H; simpl in H.
  - inv_bind. exists (m_last s'). split; [exact Hl|]. left.
    split; [reflexivity|]. symmetry. apply with_last_same.
  - inv_bind. apply load_Ok in Hstep.
    destruct (Z.eqb_spec a UINT64_MAX) as [->|Hne]; cbn [negb] in H.
    + apply IH in H; [|lia|lia|cbn [with_last m_last]; lia].
      destruct H as [l [Hlb [[-> ->]|[j [w [r' [-> [Hj [Hw [Hnw Hset]]]]]]]]]].
      * exists l. split; [exact Hlb|]. left. split; reflexivity.
      * exists l. split; [exact Hlb|]. right. exists j, w, r'.
        split; [reflexivity|]. split; [lia|]. split; [exact Hw|].
        split; [exact Hnw|exact Hset].
    + inv_bind. destruct a0 as [s1 r1]. inversion H. subst. clear H.
      exists (m_last s). split; [exact Hl|]. right. exists slot, a, r1.
      split; [reflexivity|]. split; [lia|]. split; [exact Hstep|].
      split; [exact Hne|]. rewrite with_last_same. exact Hstep0.
Qed.

Lemma setAny_keeps (s : BitArray) (s' : BitArray) (r : Z) :
  wf s -> setAny s = Ok (s', r) ->
  wf s' /\ (r < m_max s -> padding_clear s -> padding_clear s').
Proof.
  intros Hwf H. unfold setAny in H. inv_bind. destruct a as [s1 r1].
  pose proof (wf_numSlots_bound s Hwf) as Hn.
  change (2 ^ 26) with 67108864 in Hn.
  assert (Hl : 0 <= m_last s < 2 ^ 32) by (destruct Hwf; assumption).
  change (2 ^ 32) with 4294967296 in Hl.
  set (B := Z.max (m_numSlots s) (m_last s)).
  assert (HB : B < 4294967296) by lia.
  apply (setAny_loop_inv _ s (m_last s) B) in Hstep; [|lia|lia|lia].
  destruct Hstep as [l1 [Hl1 [[-> ->]|[j [w [r' [-> [Hj [Hw [Hnw Hset]]]]]]]]]].
  - inv_bind. destruct a as [s3 r3].
    cbn [with_last m_last] in Hstep.
    set (l2 := if m_numSlots s <=? l1 then 0 else l1) in Hstep.
    assert (Hl2 : 0 <= l2 <= B) by (unfold l2; destruct (_ <=? _); lia).
    apply (setAny_loop_inv _ _ 0 B) in Hstep;
      [|lia|lia|cbn [with_last m_last]; exact Hl2].
    destruct Hstep as [l3 [Hl3 [[-> ->]|[j [w [r' [-> [Hj [Hw [Hnw Hset]]]]]]]]]].
    + inversion H. subst. clear H. rewrite !with_last_with_last.
      split; [|cbn [with_last m_max]; intros Hr; lia].
      apply wf_with_last; [exact Hwf|change (2 ^ 32) with 4294967296; lia].
    + inversion H. subst. clear H.
      rewrite !with_last_with_last in Hset.
      cbn [with_last words] in Hw.
      destruct (setRightmostBit_keeps (with_last s l3) j w s' r) as [Hwf' Hpad];
        try assumption.
      * apply wf_with_last; [exact Hwf|change (2 ^ 32) with 4294967296; lia].
      * split; [exact Hwf'|]. intros Hr Hp. apply Hpad; [exact Hr|].
        apply padding_clear_with_last. exact Hp.
  - inversion H. subst. clear H.
    destruct (setRightmostBit_keeps (with_last s l1) j w s' r) as [Hwf' Hpad];
      try assumption.
    + apply wf_with_last; [exact Hwf|change (2 ^ 32) with 4294967296; lia].
    + lia.
    + split; [exact Hwf'|]. intros Hr Hp. apply Hpad; [exact Hr|].
      apply padding_clear_with_last. exact Hp.
Qed.

(** ** Claims about the storage back-ends *)

(** C8 (as amended): for every capacity from 1 up to the largest [uint32_t],
    the three slot-count computations ([BitArrayStorageExt::numSlotsFor],
    [BitArrayStorage::numSlotsFor] and the enumerator
    [BitArrayStorageT::NumSlots]) give [ceil(max/64)]. *)
Theorem numSlots_is_ceil (m : Z) :
  1 <= m < 2 ^ 32 ->
  BitArrayStorageExt_numSlotsFor m = ceil_div64 m /\
  BitArrayStorage_numSlotsFor m = ceil_div64 m /\
  BitArrayStorageT_NumSlots m = ceil_div64 m.
Proof.
  intros H. rewrite ceil_div64_pos.
  repeat split; apply numSlotsFor_pos; exact H.
Qed.

Lemma numSlots_is_ceil_witness :
  BitArrayStorageExt_numSlotsFor 128 = ceil_div64 128 /\
  BitArrayStorage_numSlotsFor 128 = ceil_div64 128 /\
  BitArrayStorageT_NumSlots 128 = ceil_div64 128.
Proof. apply (numSlots_is_ceil 128). lia. Defined.

(** C8 (as stated) fails at capacity 0: [0 - 1] wraps to [2^32 - 1], so the
    slot count is [2^26], while [ceil(0/64)] is 0. *)
Lemma numSlots_zero_capacity :
  BitArrayStorageExt_numSlotsFor 0 = 67108864 /\
  BitArrayStorage_numSlotsFor 0 = 67108864 /\
  BitArrayStorageT_NumSlots 0 = 67108864 /\
  ceil_div64 0 = 0 /\
  BitArrayStorageExt_numSlotsFor 0 <> ceil_div64 0.
Proof. repeat split; vm_compute; congruence. Qed.

(** C9 (as amended): [Set::init(max, mem, ...)] returns the address
    [2 * max * sizeof(uint16_t)] bytes past [mem] for every 16-bit capacity,
    with the values at [mem] and the indices [max] elements after them;
    [BitArrayStorageExt::init(max, mem)] returns the address
    [ceil(max/64) * 8] bytes past [mem] for every capacity of at least 1. *)
Theorem init_returns_end_of_region
    (set0 : SparseSet.t) (ba0 : BitArray) (smax bmax mem allocator : Z) (buf : list Z) :
  0 <= smax < 2 ^ 16 ->
  1 <= bmax < 2 ^ 32 ->
  (let '(st, ret) := SparseSet.init_mem set0 smax mem allocator in
   ret = mem + 2 * smax * sizeof_u16 /\
   SparseSet.m_values st = mem /\
   SparseSet.m_indices st = SparseSet.m_values st + smax * sizeof_u16) /\
  (let '(ba, ret) := BitArrayStorageExt_init ba0 bmax mem buf in
   ret = mem + ceil_div64 bmax * sizeof_u64 /\ m_bits ba = mem).
Proof.
  intros Hs Hb. split.
  - simpl. unfold SparseSet.ptr_add_u16, SparseSet.sizeFor, SparseSet.SizePerElement.
    rewrite u32_small by (unfold sizeof_u16; lia).
    unfold sizeof_u16. repeat split; lia.
  - simpl. split; [|reflexivity].
    unfold BitArrayStorageExt_sizeFor.
    rewrite numSlotsFor_pos by exact Hb. rewrite ceil_div64_pos.
    assert (0 <= (bmax - 1) / 64) by (apply Z.div_pos; lia).
    assert ((bmax - 1) / 64 < 2 ^ 26).
    { apply Z.div_lt_upper_bound; [lia|]. change (64 * 2 ^ 26) with (2 ^ 32). lia. }
    rewrite u32_small; [reflexivity|].
    unfold sizeof_u64. change (2 ^ 26) with 67108864 in *.
    change (2 ^ 32) with 4294967296. lia.
Qed.

Lemma init_returns_end_of_region_witness :
  (let '(st, ret) := SparseSet.init_mem (SparseSet.ctor 0 0 0 false) 8 4096 0 in
   ret = 4096 + 2 * 8 * sizeof_u16 /\
   SparseSet.m_values st = 4096 /\
   SparseSet.m_indices st = SparseSet.m_values st + 8 * sizeof_u16) /\
  (let '(ba, ret) := BitArrayStorageExt_init (BitArrayStorage_ctor 0 0) 128 4096 [0; 0] in
   ret = 4096 + ceil_div64 128 * sizeof_u64 /\ m_bits ba = 4096).
Proof.
  apply (init_returns_end_of_region
           (SparseSet.ctor 0 0 0 false) (BitArrayStorage_ctor 0 0) 8 128 4096 0 [0; 0]);
    lia.
Defined.

(** C9 (as stated) fails for the bit array at capacity 0: [init(0, mem)]
    claims [2^26] slots and returns [mem + 2^29], not [mem + 0]. *)
Lemma init_zero_capacity_end :
  snd (BitArrayStorageExt_init (BitArrayStorage_ctor 0 0) 0 4096 []) = 4096 + 536870912 /\
  4096 + ceil_div64 0 * sizeof_u64 = 4096 /\
  snd (BitArrayStorageExt_init (BitArrayStorage_ctor 0 0) 0 4096 [])
    <> 4096 + ceil_div64 0 * sizeof_u64.
Proof. repeat split; vm_compute; congruence. Qed.

Lemma SparseSet_destroy_owned (st : SparseSet.t) :
  SparseSet.m_cleanup st = true ->
  let '(st1, ev1) := SparseSet.destroy st in
   SparseSet.m_values st1 = NULL /\ (length ev1 <= 1)%nat /\
   SparseSet.destroy st1 = (st1, []).
Proof.
  intros Hc. unfold SparseSet.destroy at 1. rewrite Hc.
  destruct (Z.eqb_spec NULL (SparseSet.m_values st)) as [E|E]; cbn [andb negb].
  - split; [auto|]. split; [simpl; lia|].
    unfold SparseSet.destroy. rewrite Hc.
    destruct (Z.eqb_spec NULL (SparseSet.m_values st)); [reflexivity|contradiction].
  - split; [reflexivity|]. split; [simpl; lia|]. 
    unfold SparseSet.destroy. cbn [SparseSet.m_cleanup SparseSet.m_values].
    rewrite Z.eqb_refl, andb_false_r. reflexivity.
Qed.

Lemma BitArrayStorage_destroy_twice (ba : BitArray) :
  let '(ba1, ev1) := BitArrayStorage_destroy ba in
   m_bits ba1 = NULL /\ (length ev1 <= 1)%nat /\
   BitArrayStorage_destroy ba1 = (ba1, []).
Proof.
  unfold BitArrayStorage_destroy at 1.
  destruct (Z.eqb_spec NULL (m_bits ba)) as [E|E]; cbn [negb].
  - split; [auto|]. split; [simpl; lia|].
    unfold BitArrayStorage_destroy.
    destruct (Z.eqb_spec NULL (m_bits ba)); [reflexivity|contradiction].
  - split; [reflexivity|]. split; [simpl; lia|].
    unfold BitArrayStorage_destroy. cbn [m_bits].
    rewrite Z.eqb_refl. reflexivity.
Qed.

(** C10: [destroy()] of an owning sparse set and of an owning bit array
    frees at most once and leaves the buffer pointer null; a second
    [destroy()], and a [destroy()] of an instance that was only constructed,
    frees nothing and changes nothing. *)
Theorem destroy_releases_at_most_once (st : SparseSet.t) (ba : BitArray) :
  SparseSet.m_cleanup st = true ->
  (let '(st1, ev1) := SparseSet.destroy st in
   SparseSet.m_values st1 = NULL /\ (length ev1 <= 1)%nat /\
   SparseSet.destroy st1 = (st1, [])) /\
  (let '(ba1, ev1) := BitArrayStorage_destroy ba in
   m_bits ba1 = NULL /\ (length ev1 <= 1)%nat /\
   BitArrayStorage_destroy ba1 = (ba1, [])) /\
  (forall mx n a c,
     SparseSet.destroy (SparseSet.ctor mx n a c) = (SparseSet.ctor mx n a c, [])) /\
  (forall fn l,
     BitArrayStorage_destroy (BitArrayStorage_ctor fn l) = (BitArrayStorage_ctor fn l, [])).
Proof.
  intros Hc. split; [|split; [|split]].
  - apply SparseSet_destroy_owned. exact Hc.
  - apply BitArrayStorage_destroy_twice.
  - intros mx n a c. unfold SparseSet.destroy, SparseSet.ctor.
    cbn [SparseSet.m_cleanup SparseSet.m_values].
    rewrite Z.eqb_refl, andb_false_r. reflexivity.
  - intros fn l. unfold BitArrayStorage_destroy, BitArrayStorage_ctor.
    cbn [m_bits]. rewrite Z.eqb_refl. reflexivity.
Qed.

Lemma destroy_releases_at_most_once_witness :
  (let '(st1, ev1) :=
     SparseSet.destroy (fst (SparseSet.init_realloc (SparseSet.ctor 0 0 0 false) 8 77 4096)) in
   SparseSet.m_values st1 = NULL /\ (length ev1 <= 1)%nat /\
   SparseSet.destroy st1 = (st1, [])) /\
  (let '(ba1, ev1) :=
     BitArrayStorage_destroy
       (fst (BitArrayStorage_init (BitArrayStorage_ctor 0 0) 128 77 4096 [0; 0])) in
   m_bits ba1 = NULL /\ (length ev1 <= 1)%nat /\
   BitArrayStorage_destroy ba1 = (ba1, [])) /\
  (forall mx n a c,
     SparseSet.destroy (SparseSet.ctor mx n a c) = (SparseSet.ctor mx n a c, [])) /\
  (forall fn l,
     BitArrayStorage_destroy (BitArrayStorage_ctor fn l) = (BitArrayStorage_ctor fn l, [])).
Proof.
  apply (destroy_releases_at_most_once
           (fst (SparseSet.init_realloc (SparseSet.ctor 0 0 0 false) 8 77 4096))
           (fst (BitArrayStorage_init (BitArrayStorage_ctor 0 0) 128 77 4096 [0; 0]))).
  reflexivity.
Defined.

(** ** Claims about [setRange], [unsetRange] and the cursor *)

(** C1 (the code departs from it): on a reset array of 128 bits,
    [setRange(60, 70)] leaves bit 64, which lies in the range, unset, and
    sets bit 0, which lies outside it; 122 bits are set instead of 11.  On a
    reset array of 64 bits, [setRange(1, 3)] leaves bit 2 unset and sets
    bit 0. *)
Theorem setRange_misses_and_overshoots :
  (exists s s',
     fresh 128 4096 [0; 0] = Ok s /\ setRange s 60 70 = Ok s' /\
     isSet s' 64 = Ok false /\
     isSet s 0 = Ok false /\ isSet s' 0 = Ok true /\
     isSet s 71 = Ok false /\ isSet s' 71 = Ok true /\
     doCount s' = Ok 122) /\
  (exists s s',
     fresh 64 4096 [0] = Ok s /\ setRange s 1 3 = Ok s' /\
     isSet s' 2 = Ok false /\
     isSet s 0 = Ok false /\ isSet s' 0 = Ok true).
Proof.
  split.
  - exists (mkBitArray 4096 [0; 0] 2 128 0 0).
    exists (mkBitArray 4096 [UINT64_MAX; 18446744073709551552] 2 128 0 0).
    repeat (split; [vm_compute; reflexivity|]). vm_compute. reflexivity.
  - exists (mkBitArray 4096 [0] 1 64 0 0).
    exists (mkBitArray 4096 [18446744073709551611] 1 64 0 0).
    repeat (split; [vm_compute; reflexivity|]). vm_compute. reflexivity.
Qed.

(** C5 (the code departs from it): [unsetRange] and [setRange] store a bit
    index in the cursor.  On a reset array of 128 bits (2 slots),
    [unsetRange(100, 120)] leaves the cursor at 100; and after 128 calls of
    [setFirst], [setRange(0, 100)] leaves it at 100, from where [setAny]
    reads past the last slot. *)
Theorem range_calls_push_cursor_past_slots :
  (exists s s',
     fresh 128 4096 [0; 0] = Ok s /\ unsetRange s 100 120 = Ok s' /\
     m_numSlots s' = 2 /\ m_last s' = 100 /\
     ~ (0 <= m_last s' <= m_numSlots s')) /\
  (exists s s' rs,
     fresh 128 4096 [0; 0] = Ok s /\
     run (repeat CallSetFirst 128 ++ [CallSetRange 0 100]) s = Ok (s', rs) /\
     m_numSlots s' = 2 /\ m_last s' = 100 /\
     setAny s' = Err OutOfBounds).
Proof.
  split.
  - exists (mkBitArray 4096 [0; 0] 2 128 0 0).
    exists (mkBitArray 4096 [0; 0] 2 128 0 100).
    cbn [m_last m_numSlots].
    split; [vm_compute; reflexivity|].
    split; [vm_compute; reflexivity|].
    lia.
  - exists (mkBitArray 4096 [0; 0] 2 128 0 0).
    exists (mkBitArray 4096 [UINT64_MAX; UINT64_MAX] 2 128 0 100).
    eexists.
    repeat (split; [vm_compute; reflexivity|]). vm_compute. reflexivity.
Qed.

(** X24: with [begin <= end < max()], [setRange(begin, end)] succeeds and
    stores [end] itself in the cursor when [begin <= cursor <= end]; it
    leaves the cursor alone otherwise. *)
Theorem setRange_cursor (s : BitArray) (a b : Z) :
  wf s -> 0 <= a -> a <= b -> b < m_max s ->
  exists s',
    setRange s a b = Ok s' /\
    (a <= m_last s <= b -> m_last s' = b) /\
    (~ (a <= m_last s <= b) -> m_last s' = m_last s).
Proof.
  intros Hwf Ha Hab Hb.
  destruct (setRange_runs s a b Hwf Ha Hab Hb) as [ws [Hrun _]].
  eexists. split; [exact Hrun|].
  cbn [with_last m_last].
  destruct (Z.leb_spec a (m_last s)); destruct (Z.leb_spec (m_last s) b);
    cbn [andb]; split; intros; lia.
Qed.

Lemma wf_128 : wf (mkBitArray 4096 [0; 0] 2 128 0 0).
Proof.
  constructor; cbn [m_max m_numSlots words m_last].
  - lia.
  - reflexivity.
  - simpl. lia.
  - apply Forall_cons; split; [unfold word_ok; lia|].
    apply Forall_cons; split; [unfold word_ok; lia|].
    apply Forall_nil. exact I.
  - lia.
Defined.

Lemma setRange_cursor_witness :
  exists s',
    setRange (mkBitArray 4096 [0; 0] 2 128 0 0) 0 5 = Ok s' /\
    (0 <= m_last (mkBitArray 4096 [0; 0] 2 128 0 0) <= 5 -> m_last s' = 5) /\
    (~ (0 <= m_last (mkBitArray 4096 [0; 0] 2 128 0 0) <= 5) ->
     m_last s' = m_last (mkBitArray 4096 [0; 0] 2 128 0 0)).
Proof.
  apply (setRange_cursor (mkBitArray 4096 [0; 0] 2 128 0 0) 0 5).
  - exact wf_128.
  - lia.
  - lia.
  - simpl. lia.
Defined.

(** C6 (the code departs from it): on a reset array of 128 bits (2 slots)
    the cursor is 0, the range of [setRange(0, 5)] covers it, and the call
    leaves the cursor at 5, the bit index [end], not at [end + 1]. *)
Theorem setRange_cursor_not_past_end :
  exists s s',
    fresh 128 4096 [0; 0] = Ok s /\ setRange s 0 5 = Ok s' /\
    0 <= m_last s <= 5 /\ m_last s' = 5 /\ m_last s' <> 5 + 1 /\
    m_numSlots s' = 2.
Proof.
  exists (mkBitArray 4096 [0; 0] 2 128 0 0).
  exists (mkBitArray 4096 [18446744073709551585; 0] 2 128 0 5).
  cbn [m_last m_numSlots].
  split; [vm_compute; reflexivity|].
  split; [vm_compute; reflexivity|].
  lia.
Qed.

(** ** The reset state *)

Lemma reset_runs (s : BitArray) :
  wf s -> exists s', reset s = Ok s' /\ wf s' /\ is_reset s'.
Proof.
  intros Hwf. unfold reset. cbn [with_last words m_numSlots].
  destruct (memset_words_in_bounds (Z.to_nat (m_numSlots s)) (words s) 0 0)
    as [ws Hm]; [lia|destruct Hwf; simpl; lia|].
  rewrite Hm. simpl. eexists. split; [reflexivity|].
  split.
  - assert (H0 : 0 <= 0 < 2 ^ 32) by lia.
    destruct (memset_zero_keeps s 0 _ ws 0 Hwf (Z.le_refl 0) H0 Hm) as [Hwf' _].
    exact Hwf'.
  - split; [reflexivity|]. intros j Hj. cbn [with_words with_last words m_numSlots] in *.
    rewrite (memset_words_lookup _ _ _ _ _ j (Z.le_refl 0) Hm).
    destruct (decide _) as [_|Hn]; [reflexivity|]. simpl in Hn. lia.
Qed.

Lemma is_reset_padding_clear (s : BitArray) :
  wf s -> is_reset s -> padding_clear s.
Proof.
  intros Hwf [_ Hz] p Hp. unfold bit_at.
  assert (0 <= p) by (destruct Hwf; lia).
  assert (0 <= p / 64) by (apply Z.div_pos; lia).
  assert (p / 64 < m_numSlots s) by (apply Z.div_lt_upper_bound; lia).
  rewrite Hz by lia. apply Z.bits_0.
Qed.

Lemma in_domain_step_keeps (s s' : BitArray) :
  in_domain_step s s' -> wf s -> wf s' /\ (padding_clear s -> padding_clear s').
Proof.
  intros Hstep Hwf.
  destruct Hstep as [s i s' Hi H|s i s' Hi H|s i s' Hi H|s a b s' Ha Hb H
                    |s s' H|s s' r H Hr|s s' r H Hr].
  - exact (set_keeps s i s' Hwf Hi H).
  - exact (unset_keeps s i s' Hwf H).
  - exact (toggle_keeps s i s' Hwf Hi H).
  - exact (unsetRange_keeps s a b s' Hwf Ha H).
  - exact (reset_keeps s s' Hwf H).
  - destruct (setFirst_keeps s s' r Hwf H) as [Hwf' Hpad]. auto.
  - destruct (setAny_keeps s s' r Hwf H) as [Hwf' Hpad]. auto.
Qed.

(** ** Claims about padding bits and the population count *)

(** X22: starting from the all-zero reset state of a bit array over
    [0, M), M >= 1, any sequence of [set], [unset], [toggle], [unsetRange],
    [reset], [setFirst] and [setAny] calls that pass their checks, in which
    every [setFirst]/[setAny] returns an index below [max()], leaves no bit
    set at a position p >= M of the final word. *)
Theorem padding_stays_clear (s s' : BitArray) :
  wf s -> is_reset s -> rtc in_domain_step s s' -> padding_clear s'.
Proof.
  intros Hwf Hreset Hsteps.
  assert (Hinv : wf s' /\ padding_clear s'); [|destruct Hinv; assumption].
  pose proof (is_reset_padding_clear s Hwf Hreset) as Hpad.
  clear Hreset. induction Hsteps as [s|s s1 s' Hstep Hsteps IH].
  - split; assumption.
  - destruct (in_domain_step_keeps s s1 Hstep Hwf) as [Hwf1 Hpad1].
    apply IH; auto.
Qed.

Lemma wf_100 : wf (mkBitArray 4096 [0; 0] 2 100 0 0).
Proof.
  constructor; cbn [m_max m_numSlots words m_last].
  - lia.
  - reflexivity.
  - simpl. lia.
  - apply Forall_cons; split; [unfold word_ok; lia|].
    apply Forall_cons; split; [unfold word_ok; lia|].
    apply Forall_nil. exact I.
  - lia.
Defined.

Lemma is_reset_100 : is_reset (mkBitArray 4096 [0; 0] 2 100 0 0).
Proof.
  split; [reflexivity|]. cbn [m_numSlots words]. intros j Hj.
  destruct j as [|[|j]]; [reflexivity|reflexivity|lia].
Defined.

Lemma padding_stays_clear_witness :
  padding_clear (mkBitArray 4096 [3; 0] 2 100 0 0).
Proof.
  apply (padding_stays_clear (mkBitArray 4096 [0; 0] 2 100 0 0)).
  - exact wf_100.
  - exact is_reset_100.
  - apply rtc_l with (mkBitArray 4096 [1; 0] 2 100 0 0).
    + apply ids_setFirst with 0; [vm_compute; reflexivity|simpl; lia].
    + apply rtc_once.
      apply ids_setAny with 1; [vm_compute; reflexivity|simpl; lia].
Defined.

(** C2 (the code departs from it): [setRightmostBit] sets the lowest zero
    bit of the word before it cuts the index off at [max()], and the end
    mask of [setRange] reaches up to bit 63.  On a bit array over [0, 1),
    two calls of [setFirst], or two of [setAny], from the reset state
    return 0 and 1 and leave bit 1, a position >= M of the final word, set;
    on a bit array over [0, 100), [setRange(0, 99)] from the reset state
    leaves bit 100 set. *)
Theorem calls_set_padding_bits :
  (exists s s',
     fresh 1 4096 [0] = Ok s /\ is_reset s /\
     run [CallSetFirst; CallSetFirst] s = Ok (s', [Some 0; Some 1]) /\
     m_max s' = 1 /\ m_numSlots s' = 1 /\ bit_at s' 1 = true /\
     ~ padding_clear s') /\
  (exists s s',
     fresh 1 4096 [0] = Ok s /\ is_reset s /\
     run [CallSetAny; CallSetAny] s = Ok (s', [Some 0; Some 1]) /\
     m_max s' = 1 /\ m_numSlots s' = 1 /\ bit_at s' 1 = true /\
     ~ padding_clear s') /\
  (exists s s',
     fresh 100 4096 [0; 0] = Ok s /\ is_reset s /\
     setRange s 0 99 = Ok s' /\
     m_max s' = 100 /\ m_numSlots s' = 2 /\ bit_at s' 100 = true /\
     ~ padding_clear s').
Proof.
  assert (Hreset1 : is_reset (mkBitArray 4096 [0] 1 1 0 0)).
  { split; [reflexivity|]. cbn [m_numSlots words]. intros j Hj.
    destruct j as [|j]; [reflexivity|lia]. }
  assert (Hpad1 : forall l, ~ padding_clear (mkBitArray 4096 [3] 1 1 0 l)).
  { intros l Hpad. specialize (Hpad 1). cbn [m_max m_numSlots] in Hpad.
    assert (Hb : bit_at (mkBitArray 4096 [3] 1 1 0 l) 1 = false) by (apply Hpad; lia).
    vm_compute in Hb. discriminate. }
  split; [|split].
  - exists (mkBitArray 4096 [0] 1 1 0 0).
    exists (mkBitArray 4096 [3] 1 1 0 0).
    split; [vm_compute; reflexivity|].
    split; [exact Hreset1|].
    split; [vm_compute; reflexivity|].
    split; [reflexivity|]. split; [reflexivity|]. split; [reflexivity|].
    apply Hpad1.
  - exists (mkBitArray 4096 [0] 1 1 0 0).
    exists (mkBitArray 4096 [3] 1 1 0 0).
    split; [vm_compute; reflexivity|].
    split; [exact Hreset1|].
    split; [vm_compute; reflexivity|].
    split; [reflexivity|]. split; [reflexivity|]. split; [reflexivity|].
    apply Hpad1.
  - exists (mkBitArray 4096 [0; 0] 2 100 0 0).
    exists (mkBitArray 4096 [UINT64_MAX; 18446744039349813248] 2 100 0 99).
    split; [vm_compute; reflexivity|].
    split; [exact is_reset_100|].
    split; [vm_compute; reflexivity|].
    split; [reflexivity|]. split; [reflexivity|]. split; [reflexivity|].
    intros Hpad. specialize (Hpad 100). cbn [m_max m_numSlots] in Hpad.
    assert (Hb : bit_at (mkBitArray 4096 [UINT64_MAX; 18446744039349813248] 2 100 0 99) 100
                 = false) by (apply Hpad; lia).
    vm_compute in Hb. discriminate.
Qed.

(** ** Counting *)

Lemma count_upto_bounds (f : Z -> bool) (n : nat) :
  0 <= count_upto f n <= Z.of_nat n.
Proof.
  induction n as [|n IH]; simpl; [lia|].
  destruct (f (Z.of_nat n)); lia.
Qed.

Lemma count_upto_ext (f g : Z -> bool) (n : nat) :
  (forall i, 0 <= i < Z.of_nat n -> f i = g i) ->
  count_upto f n = count_upto g n.
Proof.
  induction n as [|n IH]; intros H; simpl; [reflexivity|].
  rewrite IH by (intros i Hi; apply H; lia).
  rewrite (H (Z.of_nat n)) by lia. reflexivity.
Qed.

Lemma count_upto_app (f : Z -> bool) (a b : nat) :
  count_upto f (a + b) =
  count_upto f a + count_upto (fun i => f (Z.of_nat a + i)) b.
Proof.
  induction b as [|b IH].
  - rewrite Nat.add_0_r. simpl. lia.
  - rewrite Nat.add_succ_r. simpl. rewrite IH.
    rewrite Nat2Z.inj_add. lia.
Qed.

Lemma count_upto_none (f : Z -> bool) (n : nat) :
  (forall i, 0 <= i < Z.of_nat n -> f i = false) -> count_upto f n = 0.
Proof.
  induction n as [|n IH]; intros H; simpl; [reflexivity|].
  rewrite IH by (intros i Hi; apply H; lia).
  rewrite (H (Z.of_nat n)) by lia. reflexivity.
Qed.

Lemma cntbits_u64_bounds (w : Z) : 0 <= cntbits_u64 w <= 64.
Proof. exact (count_upto_bounds (Z.testbit w) 64). Qed.

Lemma count_set_bounds (s : BitArray) : 0 <= count_set s <= Z.of_nat (Z.to_nat (m_max s)).
Proof. apply count_upto_bounds. Qed.

(** Bit [q] of slot [j] is bit [64 j + q] of the array. *)
Lemma bit_at_slot (s : BitArray) (j : nat) (w q : Z) :
  words s !! j = Some w -> 0 <= q < 64 ->
  bit_at s (Z.of_nat (64 * j) + q) = Z.testbit w q.
Proof.
  intros Hw Hq. unfold bit_at.
  replace (Z.of_nat (64 * j) + q) with (q + Z.of_nat j * 64) by lia.
  rewrite Z.div_add, Z.mod_add by lia.
  rewrite Z.div_small, Z.mod_small by lia.
  rewrite Z.add_0_l, Nat2Z.id, Hw. reflexivity.
Qed.

(** The loop of [doCount] adds up the set bits of the slots below [n]. *)
Lemma doCount_loop_sum (s : BitArray) (n : nat) (count : Z) :
  (n <= length (words s))%nat ->
  0 <= count -> count + 64 * Z.of_nat n < 2 ^ 64 ->
  doCount_loop s n count = Ok (count + count_upto (bit_at s) (64 * n)).
Proof.
  revert count. induction n as [|n IH]; intros count Hlen Hc Hb.
  - simpl. f_equal. lia.
  - cbn [doCount_loop].
    destruct (lookup_lt_is_Some_2 (words s) n ltac:(lia)) as [w Hw].
    unfold load. rewrite Nat2Z.id, Hw, bind_Ok_l.
    pose proof (cntbits_u64_bounds w) as Hcw.
    rewrite u64_small by lia.
    rewrite IH by lia.
    replace (64 * S n)%nat with (64 * n + 64)%nat by lia.
    rewrite count_upto_app.
    rewrite (count_upto_ext (fun i => bit_at s (Z.of_nat (64 * n) + i)) (Z.testbit w))
      by (intros i Hi; apply bit_at_slot; [exact Hw|lia]).
    unfold cntbits_u64. f_equal. lia.
Qed.

Lemma testbit_land_pow2 (w q : Z) :
  0 <= q -> negb (0 =? Z.land w (2 ^ q)) = Z.testbit w q.
Proof.
  intros Hq. destruct (Z.testbit w q) eqn:E.
  - destruct (Z.eqb_spec 0 (Z.land w (2 ^ q))) as [H0|]; [|reflexivity].
    assert (Hb : Z.testbit (Z.land w (2 ^ q)) q = true).
    { rewrite Z.land_spec, E, Z.pow2_bits_true by exact Hq. reflexivity. }
    rewrite <- H0, Z.bits_0 in Hb. discriminate.
  - replace (Z.land w (2 ^ q)) with 0; [reflexivity|].
    symmetry. apply Z.bits_inj'. intros p Hp.
    rewrite Z.land_spec, Z.bits_0, Z.pow2_bits_eqb by exact Hq.
    destruct (Z.eqb_spec q p) as [->|]; [rewrite E; reflexivity|apply andb_false_r].
Qed.

(** [isSet(i)] reads bit [i] of the array. *)
Lemma isSet_bit_at (s : BitArray) (i : Z) :
  wf s -> 0 <= i < m_max s -> isSet s i = Ok (bit_at s i).
Proof.
  intros Hwf Hi. unfold isSet.
  destruct (Z.ltb_spec i (m_max s)) as [_|]; [|lia].
  unfold DM_CHECK. rewrite bind_Ok_l.
  pose proof (bucket_in_bounds s i Hwf ltac:(lia)) as Hb.
  destruct (load_in_bounds _ _ Hb) as [w Hw]. rewrite Hw, bind_Ok_l.
  apply load_Ok in Hw. rewrite shiftr6 in Hw.
  unfold bit_at. rewrite Hw.
  rewrite bit_mask_pow2, testbit_land_pow2; [reflexivity|].
  apply Z.mod_pos_bound. lia.
Qed.

(** X23: in every well-formed state without a bit set at a position
    >= max(), [doCount()] returns exactly the number of indices [i] in
    [[0, max())] for which [isSet(i)] is true. *)
Theorem doCount_counts_set_bits (s : BitArray) :
  wf s -> padding_clear s -> doCount s = Ok (count_set s).
Proof.
  intros Hwf Hpad.
  pose proof (wf_numSlots_bound s Hwf) as Hn.
  change (2 ^ 26) with 67108864 in Hn.
  assert (Hmax : 1 <= m_max s < 2 ^ 32) by (destruct Hwf; assumption).
  change (2 ^ 32) with 4294967296 in Hmax.
  assert (Hlen : (Z.to_nat (m_numSlots s) <= length (words s))%nat)
    by (destruct Hwf; assumption).
  assert (Hcap : m_max s <= 64 * m_numSlots s).
  { destruct Hwf as [Hm Hns _ _ _]. rewrite Hns, numSlotsFor_pos by exact Hm.
    pose proof (Z.div_mod (m_max s - 1) 64 ltac:(lia)).
    pose proof (Z.mod_pos_bound (m_max s - 1) 64 ltac:(lia)). lia. }
  unfold doCount.
  rewrite doCount_loop_sum by (change (2 ^ 64) with 18446744073709551616; lia).
  rewrite bind_Ok_l. f_equal. rewrite Z.add_0_l.
  replace (64 * Z.to_nat (m_numSlots s))%nat
    with (Z.to_nat (m_max s) + Z.to_nat (64 * m_numSlots s - m_max s))%nat by lia.
  rewrite count_upto_app.
  rewrite (count_upto_none (fun i => bit_at s (Z.of_nat (Z.to_nat (m_max s)) + i))).
  - rewrite Z.add_0_r.
    assert (Heq : count_upto (bit_at s) (Z.to_nat (m_max s)) = count_set s).
    { unfold count_set. apply count_upto_ext. intros i Hi.
      rewrite isSet_bit_at by (try exact Hwf; lia). reflexivity. }
    rewrite Heq. apply u32_small.
    pose proof (count_set_bounds s) as Hb.
    change (2 ^ 32) with 4294967296. lia.
  - intros i Hi. apply Hpad. lia.
Qed.

Lemma padding_clear_128 : padding_clear (mkBitArray 4096 [5; 1] 2 128 0 0).
Proof. intros p Hp. cbn [m_max m_numSlots] in Hp. lia. Defined.

Lemma wf_128_filled : wf (mkBitArray 4096 [5; 1] 2 128 0 0).
Proof.
  constructor; cbn [m_max m_numSlots words m_last].
  - lia.
  - reflexivity.
  - simpl. lia.
  - apply Forall_cons; split; [unfold word_ok; lia|].
    apply Forall_cons; split; [unfold word_ok; lia|].
    apply Forall_nil. exact I.
  - lia.
Defined.

Lemma doCount_counts_set_bits_witness :
  doCount (mkBitArray 4096 [5; 1] 2 128 0 0)
  = Ok (count_set (mkBitArray 4096 [5; 1] 2 128 0 0)).
Proof.
  apply (doCount_counts_set_bits (mkBitArray 4096 [5; 1] 2 128 0 0)).
  - exact wf_128_filled.
  - exact padding_clear_128.
Defined.

(** C4 (the code departs from it): [doCount()] counts whole words, padding
    bits included.  On a bit array over [0, 1), after two calls of
    [setFirst] from the reset state, [doCount()] returns 2 although
    [isSet(i)] is true for one index of the domain only. *)
Theorem doCount_counts_padding_bits :
  exists s s' rs,
    fresh 1 4096 [0] = Ok s /\
    run [CallSetFirst; CallSetFirst] s = Ok (s', rs) /\
    doCount s' = Ok 2 /\ count_set s' = 1 /\
    doCount s' <> Ok (count_set s').
Proof.
  exists (mkBitArray 4096 [0] 1 1 0 0).
  exists (mkBitArray 4096 [3] 1 1 0 0).
  exists [Some 0; Some 1].
  split; [vm_compute; reflexivity|].
  split; [vm_compute; reflexivity|].
  split; [vm_compute; reflexivity|].
  split; [vm_compute; reflexivity|].
  vm_compute. discriminate.
Qed.

(** ** [setFirst] on a prefix of ones *)

(** The scan of [setFirst] passes the full slots and stops at the first one
    with a zero bit. *)
Lemma setFirst_loop_skip (s : BitArray) (j w : Z) (n : nat) (slot : Z) :
  0 <= slot -> slot <= j < slot + Z.of_nat n ->
  (forall i, slot <= i < j -> words s !! Z.to_nat i = Some UINT64_MAX) ->
  words s !! Z.to_nat j = Some w -> w <> UINT64_MAX ->
  setFirst_loop s slot n = setRightmostBit s j.
Proof.
  revert slot. induction n as [|n IH]; intros slot Hslot Hj Hfull Hw Hne; [lia|].
  cbn [setFirst_loop]. unfold load at 1.
  destruct (Z.eq_dec slot j) as [->|Hsj].
  - rewrite Hw, bind_Ok_l.
    destruct (Z.eqb_spec w UINT64_MAX); [contradiction|reflexivity].
  - rewrite Hfull, bind_Ok_l by lia.
    rewrite Z.eqb_refl. cbn [negb].
    apply IH; [lia|lia| |exact Hw|exact Hne].
    intros i Hi. apply Hfull. lia.
Qed.

Lemma setFirst_loop_full (s : BitArray) (n : nat) (slot : Z) :
  0 <= slot ->
  (forall i, slot <= i < slot + Z.of_nat n -> words s !! Z.to_nat i = Some UINT64_MAX) ->
  setFirst_loop s slot n = Ok (s, m_max s).
Proof.
  revert slot. induction n as [|n IH]; intros slot Hslot Hfull; [reflexivity|].
  cbn [setFirst_loop]. unfold load.
  rewrite Hfull, bind_Ok_l by lia.
  rewrite Z.eqb_refl. cbn [negb].
  apply IH; [lia|]. intros i Hi. apply Hfull. lia.
Qed.

Lemma ones_64 : Z.ones 64 = UINT64_MAX.
Proof. reflexivity. Qed.

Lemma ones_lt_64 (r : Z) : 0 <= r < 64 -> word_ok (Z.ones r) /\ Z.ones r <> UINT64_MAX.
Proof.
  intros Hr. rewrite Z.ones_equiv. unfold word_ok, UINT64_MAX.
  assert (0 < 2 ^ r) by (apply Z.pow_pos_nonneg; lia).
  assert (2 ^ r < 2 ^ 64) by (apply Z.pow_lt_mono_r; lia).
  lia.
Qed.

(** Setting the lowest zero bit of [r] ones gives [r + 1] ones, and the bit
    found is bit [r]. *)
Lemma rightmost_of_ones (r : Z) :
  0 <= r < 64 ->
  u64 (Z.ones r + 1) = Z.ones r + 1 /\
  cnttz_u64 (Z.ones r + 1) = r /\
  Z.lor (Z.ones r) (Z.ones r + 1) = Z.ones (r + 1).
Proof.
  intros Hr. destruct (ones_lt_64 r Hr) as [Hok Hne].
  destruct (rightmost_spec (Z.ones r) Hok Hne)
    as [t [Ht [Hz [Hlow [Hu [Hc [_ Hbits]]]]]]].
  assert (Htr : t = r).
  { rewrite Z.testbit_ones_nonneg in Hz by lia.
    apply Z.ltb_ge in Hz.
    destruct (Z.eq_dec t r) as [|Hn]; [assumption|].
    specialize (Hlow r ltac:(lia)).
    rewrite Z.testbit_ones_nonneg in Hlow by lia.
    rewrite Z.ltb_irrefl in Hlow. discriminate. }
  rewrite Htr in Hc, Hbits. split; [exact Hu|]. split; [exact Hc|].
  apply Z.bits_inj'. intros p Hp.
  rewrite Hbits by exact Hp.
  rewrite !Z.testbit_ones_nonneg by lia.
  destruct (Z.ltb_spec p r); destruct (Z.eqb_spec p r);
    destruct (Z.ltb_spec p (r + 1)); try lia; reflexivity.
Qed.

Lemma is_reset_prefix_filled (s : BitArray) : is_reset s -> prefix_filled 0 s.
Proof.
  intros [_ Hz] j Hj. rewrite Hz by lia.
  replace (Z.max 0 (Z.min 64 (0 - 64 * Z.of_nat j))) with 0 by lia.
  reflexivity.
Qed.

Lemma wf_capacity (s : BitArray) : wf s -> m_max s <= 64 * m_numSlots s.
Proof.
  intros [Hm Hns _ _ _]. rewrite Hns, numSlotsFor_pos by exact Hm.
  pose proof (Z.div_mod (m_max s - 1) 64 ltac:(lia)).
  pose proof (Z.mod_pos_bound (m_max s - 1) 64 ltac:(lia)). lia.
Qed.

(** One [setFirst] on a prefix of [k] ones, with room left in the slots:
    bit [k] is set and [min k max()] is returned. *)
Lemma setFirst_prefix (s : BitArray) (k : Z) :
  wf s -> prefix_filled k s -> 0 <= k < 64 * m_numSlots s ->
  exists s',
    setFirst s = Ok (s', Z.min k (m_max s)) /\
    wf s' /\ prefix_filled (k + 1) s' /\
    m_max s' = m_max s /\ m_numSlots s' = m_numSlots s.
Proof.
  intros Hwf Hfill Hk.
  pose proof (wf_numSlots_bound s Hwf) as Hn.
  change (2 ^ 26) with 67108864 in Hn.
  pose proof (Z.div_mod k 64 ltac:(lia)) as Hdm.
  pose proof (Z.mod_pos_bound k 64 ltac:(lia)) as Hr.
  assert (Hq : 0 <= k / 64 < m_numSlots s).
  { split; [apply Z.div_pos; lia|apply Z.div_lt_upper_bound; lia]. }
  set (q := k / 64) in *. set (r := k mod 64) in *.
  assert (Hwq : words s !! Z.to_nat q = Some (Z.ones r)).
  { rewrite Hfill by lia. rewrite Z2Nat.id by lia.
    replace (Z.max 0 (Z.min 64 (k - 64 * q))) with r by lia. reflexivity. }
  destruct (ones_lt_64 r Hr) as [Hok Hne].
  destruct (rightmost_of_ones r Hr) as [Hu [Hc Hlor]].
  assert (Hlen : (Z.to_nat q < length (words s))%nat).
  { eapply lookup_lt_Some. exact Hwq. }
  unfold setFirst.
  rewrite (setFirst_loop_skip s q (Z.ones r)); [|lia|lia| |exact Hwq|exact Hne].
  - unfold setRightmostBit, load. rewrite Hwq, bind_Ok_l.
    rewrite store_in_bounds by exact Hlen. rewrite bind_Ok_l.
    rewrite Hu, Hc, Hlor, shiftl6.
    rewrite (u32_small (q * 64)) by (change (2 ^ 32) with 4294967296; lia).
    rewrite (u32_small r) by (change (2 ^ 32) with 4294967296; lia).
    rewrite (u32_small (q * 64 + r)) by (change (2 ^ 32) with 4294967296; lia).
    replace (q * 64 + r) with k by lia.
    eexists. split.
    { f_equal. f_equal. destruct (Z.ltb_spec k (m_max s)); lia. }
    destruct (update_word_keeps s (Z.to_nat q) (Z.ones r) (Z.ones (r + 1)) (m_last s)
                Hwf Hwq) as [Hwf' _].
    { destruct (Z.eq_dec (r + 1) 64) as [E|E].
      - rewrite E. unfold word_ok. rewrite Z.ones_equiv. lia.
      - apply ones_lt_64. lia. }
    { destruct Hwf; assumption. }
    split; [exact Hwf'|]. split; [|split; reflexivity].
    intros j Hj. cbn [with_words words m_numSlots] in *.
    destruct (decide (j = Z.to_nat q)) as [->|Hjq].
    + rewrite list_lookup_insert_eq by exact Hlen. rewrite Z2Nat.id by lia.
      replace (Z.max 0 (Z.min 64 (k + 1 - 64 * q))) with (r + 1) by lia.
      reflexivity.
    + rewrite list_lookup_insert_ne by congruence. rewrite Hfill by exact Hj.
      replace (Z.max 0 (Z.min 64 (k + 1 - 64 * Z.of_nat j)))
        with (Z.max 0 (Z.min 64 (k - 64 * Z.of_nat j))) by lia.
      reflexivity.
  - intros i Hi. rewrite Hfill by lia. rewrite Z2Nat.id by lia.
    replace (Z.max 0 (Z.min 64 (k - 64 * i))) with 64 by lia.
    reflexivity.
Qed.

(** [setFirst] once every slot is full. *)
Lemma setFirst_all_full (s : BitArray) :
  wf s -> prefix_filled (64 * m_numSlots s) s -> setFirst s = Ok (s, m_max s).
Proof.
  intros Hwf Hfill. unfold setFirst.
  pose proof (wf_numSlots_bound s Hwf) as Hn.
  apply setFirst_loop_full; [lia|].
  intros i Hi. rewrite Hfill by lia. rewrite Z2Nat.id by lia.
  replace (Z.max 0 (Z.min 64 (64 * m_numSlots s - 64 * i))) with 64 by lia.
  reflexivity.
Qed.

Lemma setFirst_times_prefix (n : nat) (s : BitArray) (k : Z) :
  wf s -> prefix_filled k s -> 0 <= k -> k + Z.of_nat n <= m_max s ->
  exists s',
    setFirst_times n s = Ok (s', map Z.of_nat (seq (Z.to_nat k) n)) /\
    wf s' /\ prefix_filled (k + Z.of_nat n) s' /\
    m_max s' = m_max s /\ m_numSlots s' = m_numSlots s.
Proof.
  revert s k. induction n as [|n IH]; intros s k Hwf Hfill Hk Hkn.
  - exists s. split; [reflexivity|]. split; [exact Hwf|].
    split; [|split; reflexivity]. rewrite Z.add_0_r. exact Hfill.
  - pose proof (wf_capacity s Hwf) as Hcap.
    destruct (setFirst_prefix s k Hwf Hfill ltac:(lia))
      as [s1 [Hrun [Hwf1 [Hfill1 [Hmax1 Hn1]]]]].
    destruct (IH s1 (k + 1) Hwf1 Hfill1 ltac:(lia) ltac:(lia))
      as [s2 [Hrun2 [Hwf2 [Hfill2 [Hmax2 Hn2]]]]].
    exists s2. cbn [setFirst_times]. rewrite Hrun, bind_Ok_l.
    rewrite Hrun2, bind_Ok_l. split.
    + f_equal. f_equal. cbn [seq map]. f_equal; [lia|].
      replace (Z.to_nat (k + 1)) with (S (Z.to_nat k)) by lia. reflexivity.
    + split; [exact Hwf2|]. split; [|split; congruence].
      replace (k + Z.of_nat (S n)) with (k + 1 + Z.of_nat n) by lia.
      exact Hfill2.
Qed.

(** ** Claim about [setFirst] *)

(** C3: for every capacity [max() > 0], from the reset state, [max()] calls
    of [setFirst()] return 0, 1, ..., [max()-1] in that order, and one more
    call returns [max()]. *)
Theorem setFirst_enumerates (s : BitArray) :
  wf s -> is_reset s ->
  exists s1 s2,
    setFirst_times (Z.to_nat (m_max s)) s
      = Ok (s1, map Z.of_nat (seq 0 (Z.to_nat (m_max s)))) /\
    setFirst s1 = Ok (s2, m_max s).
Proof.
  intros Hwf Hreset.
  assert (Hmax : 1 <= m_max s < 2 ^ 32) by (destruct Hwf; assumption).
  destruct (setFirst_times_prefix (Z.to_nat (m_max s)) s 0 Hwf
              (is_reset_prefix_filled s Hreset) ltac:(lia) ltac:(lia))
    as [s1 [Hrun [Hwf1 [Hfill1 [Hmax1 Hn1]]]]].
  rewrite Z.add_0_l, Z2Nat.id in Hfill1 by lia.
  exists s1. change (Z.to_nat 0) with 0%nat in Hrun.
  pose proof (wf_capacity s1 Hwf1) as Hcap.
  destruct (Z.eq_dec (m_max s) (64 * m_numSlots s)) as [Efull|Eroom].
  - exists s1. split; [exact Hrun|].
    rewrite <- Hmax1. apply setFirst_all_full; [exact Hwf1|].
    rewrite Hn1, <- Efull. exact Hfill1.
  - destruct (setFirst_prefix s1 (m_max s) Hwf1 Hfill1 ltac:(lia))
      as [s2 [Hrun2 _]].
    exists s2. split; [exact Hrun|].
    rewrite Hrun2. f_equal. f_equal. lia.
Qed.

Lemma setFirst_enumerates_witness :
  exists s1 s2,
    setFirst_times (Z.to_nat (m_max (mkBitArray 4096 [0; 0] 2 100 0 0)))
      (mkBitArray 4096 [0; 0] 2 100 0 0)
      = Ok (s1, map Z.of_nat
                  (seq 0 (Z.to_nat (m_max (mkBitArray 4096 [0; 0] 2 100 0 0))))) /\
    setFirst s1 = Ok (s2, m_max (mkBitArray 4096 [0; 0] 2 100 0 0)).
Proof.
  apply (setFirst_enumerates (mkBitArray 4096 [0; 0] 2 100 0 0)).
  - exact wf_100.
  - exact is_reset_100.
Defined.

(** ** [getLastSetBit] *)

(** The backward scan passes the zero slots; at a full slot [w] it returns
    [(w + 1) << 6], computed in 32 bits. *)
Lemma getLastSetBit_loop_full (s : BitArray) (w n : nat) :
  (w < n)%nat -> words s !! w = Some UINT64_MAX ->
  (forall j, (w < j < n)%nat -> words s !! j = Some 0) ->
  getLastSetBit_loop s n = Ok (u32 (Z.shiftl (u32 (Z.of_nat w + 1)) 6)).
Proof.
  induction n as [|n IH]; intros Hwn Hw Hzero; [lia|].
  cbn [getLastSetBit_loop]. unfold load. rewrite Nat2Z.id.
  destruct (decide (n = w)) as [->|Hne].
  - rewrite Hw, bind_Ok_l.
    change (0 =? UINT64_MAX) with false. cbn [negb].
    rewrite Z.eqb_refl. reflexivity.
  - rewrite Hzero, bind_Ok_l by lia.
    change (0 =? 0) with true. cbn [negb].
    apply IH; [lia|exact Hw|]. intros j Hj. apply Hzero. lia.
Qed.

Lemma getLastSetBit_loop_empty (s : BitArray) (n : nat) :
  (forall j, (j < n)%nat -> words s !! j = Some 0) ->
  getLastSetBit_loop s n = Ok 0.
Proof.
  induction n as [|n IH]; intros Hzero; [reflexivity|].
  cbn [getLastSetBit_loop]. unfold load. rewrite Nat2Z.id.
  rewrite Hzero, bind_Ok_l by lia.
  change (0 =? 0) with true. cbn [negb].
  apply IH. intros j Hj. apply Hzero. lia.
Qed.

(** C7 (as amended): in a state [s] whose highest-indexed nonzero word, at
    word index [w], has all 64 bits set, and with [(w + 1) * 64]
    representable in 32 bits, [getLastSetBit()] returns [(w + 1) * 64]; in a
    state [e] in which no bit is set it returns 0. *)
Theorem getLastSetBit_past_full_word (s e : BitArray) (w : Z) :
  0 <= w < m_numSlots s ->
  words s !! Z.to_nat w = Some UINT64_MAX ->
  (forall j, w < j < m_numSlots s -> words s !! Z.to_nat j = Some 0) ->
  (w + 1) * 64 < 2 ^ 32 ->
  (forall j, 0 <= j < m_numSlots e -> words e !! Z.to_nat j = Some 0) ->
  getLastSetBit s = Ok ((w + 1) * 64) /\ getLastSetBit e = Ok 0.
Proof.
  intros Hw Hfull Hzero Hfit Hempty. split.
  - unfold getLastSetBit.
    rewrite (getLastSetBit_loop_full s (Z.to_nat w)); [|lia|exact Hfull|].
    + rewrite Z2Nat.id by lia. f_equal.
      change (2 ^ 32) with 4294967296 in Hfit.
      rewrite (u32_small (w + 1)) by (change (2 ^ 32) with 4294967296; lia).
      rewrite shiftl6. apply u32_small. change (2 ^ 32) with 4294967296. lia.
    + intros j Hj. rewrite <- (Nat2Z.id j). apply Hzero. lia.
  - unfold getLastSetBit. apply getLastSetBit_loop_empty.
    intros j Hj. rewrite <- (Nat2Z.id j). apply Hempty. lia.
Qed.

Lemma getLastSetBit_past_full_word_witness :
  getLastSetBit (mkBitArray 4096 [UINT64_MAX; 0] 2 128 0 0) = Ok ((0 + 1) * 64) /\
  getLastSetBit (mkBitArray 4096 [0; 0] 2 128 0 0) = Ok 0.
Proof.
  apply (getLastSetBit_past_full_word
           (mkBitArray 4096 [UINT64_MAX; 0] 2 128 0 0)
           (mkBitArray 4096 [0; 0] 2 128 0 0) 0).
  - simpl. lia.
  - reflexivity.
  - cbn [m_numSlots words]. intros j Hj.
    assert (j = 1) as -> by lia. reflexivity.
  - lia.
  - cbn [m_numSlots words]. intros j Hj.
    assert (j = 0 \/ j = 1) as [-> | ->] by lia; reflexivity.
Defined.

(** C7 (as stated) fails at the last slot of the largest arrays: with
    [max() = 2^32 - 1] there are [2^26] slots; when the last one, at word
    index [w = 2^26 - 1], is the highest nonzero word and is full,
    [(w + 1) << 6] wraps to 0, not [(w + 1) * 64 = 2^32]. *)
Lemma getLastSetBit_wraps_at_last_slot :
  BitArrayStorageExt_numSlotsFor 4294967295 = 67108864 /\
  words (mkBitArray 4096 (replicate (Z.to_nat 67108863) 0 ++ [UINT64_MAX])
           67108864 4294967295 0 0) !! Z.to_nat 67108863 = Some UINT64_MAX /\
  getLastSetBit (mkBitArray 4096 (replicate (Z.to_nat 67108863) 0 ++ [UINT64_MAX])
                   67108864 4294967295 0 0) = Ok 0 /\
  getLastSetBit (mkBitArray 4096 (replicate (Z.to_nat 67108863) 0 ++ [UINT64_MAX])
                   67108864 4294967295 0 0) <> Ok ((67108863 + 1) * 64).
Proof.
  assert (Hlook : (replicate (Z.to_nat 67108863) 0 ++ [UINT64_MAX]) !! Z.to_nat 67108863
                  = Some UINT64_MAX).
  { apply list_lookup_middle. rewrite length_replicate. reflexivity. }
  assert (Hrun : getLastSetBit
                   (mkBitArray 4096 (replicate (Z.to_nat 67108863) 0 ++ [UINT64_MAX])
                      67108864 4294967295 0 0) = Ok 0).
  { unfold getLastSetBit. cbn [m_numSlots].
    rewrite (getLastSetBit_loop_full _ (Z.to_nat 67108863)).
    - rewrite Z2Nat.id by lia. reflexivity.
    - lia.
    - exact Hlook.
    - intros j Hj. lia. }
  split; [reflexivity|]. split; [exact Hlook|]. split; [exact Hrun|].
  rewrite Hrun. intros H. inversion H.
Qed.

(** ** Point operations, bit by bit *)

Lemma testbit_not64 (v q : Z) :
  0 <= q < 64 -> Z.testbit (not64 v) q = negb (Z.testbit v q).
Proof.
  intros Hq. unfold not64. rewrite Z.lxor_spec, testbit_UINT64_MAX.
  destruct (Z.leb_spec 0 q); [|lia]. destruct (Z.ltb_spec q 64); [|lia].
  cbn [andb]. apply xorb_true_r.
Qed.

(** With its check passed, a point operation replaces word [i >> 6] by
    [f] of it. *)
Lemma point_op_runs (s : BitArray) (i : Z) (f : Z -> Z) :
  wf s -> 0 <= i < m_max s ->
  exists w,
    words s !! Z.to_nat (i / 64) = Some w /\
    (_ ← DM_CHECK (i <? m_max s);
     w ← load (words s) (Z.shiftr i 6);
     ws ← store (words s) (Z.shiftr i 6) (f w);
     Ok (with_words s ws))
    = Ok (with_last (with_words s (<[Z.to_nat (i / 64) := f w]> (words s))) (m_last s)).
Proof.
  intros Hwf Hi.
  pose proof (bucket_in_bounds s i Hwf Hi) as Hb.
  destruct (load_in_bounds _ _ Hb) as [w Hw].
  exists w. split; [rewrite <- shiftr6; apply load_Ok; exact Hw|].
  destruct (Z.ltb_spec i (m_max s)); [|lia].
  unfold DM_CHECK. rewrite bind_Ok_l, Hw, bind_Ok_l.
  rewrite store_in_bounds by exact Hb. rewrite bind_Ok_l, shiftr6. reflexivity.
Qed.

(** Two positions of the domain in the same word with the same offset are
    the same position. *)
Lemma same_word_same_offset (i j : Z) :
  0 <= i -> 0 <= j -> Z.to_nat (j / 64) = Z.to_nat (i / 64) ->
  i mod 64 = j mod 64 -> j = i.
Proof.
  intros Hi Hj Hw Ho.
  assert (0 <= i / 64) by (apply Z.div_pos; lia).
  assert (0 <= j / 64) by (apply Z.div_pos; lia).
  pose proof (Z.div_mod i 64 ltac:(lia)). pose proof (Z.div_mod j 64 ltac:(lia)).
  lia.
Qed.

(** What [isSet] answers after word [i >> 6] has been replaced by [v]. *)
Lemma isSet_after_update (s : BitArray) (i j w v : Z) :
  wf s -> 0 <= i < m_max s -> 0 <= j < m_max s ->
  words s !! Z.to_nat (i / 64) = Some w -> word_ok v ->
  isSet (with_last (with_words s (<[Z.to_nat (i / 64) := v]> (words s))) (m_last s)) j
  = Ok (if decide (Z.to_nat (j / 64) = Z.to_nat (i / 64))
        then Z.testbit v (j mod 64) else bit_at s j).
Proof.
  intros Hwf Hi Hj Hw Hv.
  destruct (update_word_keeps s _ w v (m_last s) Hwf Hw Hv) as [Hwf' _];
    [destruct Hwf; assumption|].
  rewrite isSet_bit_at by (try exact Hwf'; exact Hj).
  rewrite bit_at_insert by (eapply lookup_lt_Some; exact Hw).
  reflexivity.
Qed.

(** X1: [set(i)] with [i < max()] succeeds; afterwards [isSet(i)] is true,
    [isSet(j)] is what it was for every other index of the domain, the
    cursor is untouched, and setting the bit again changes nothing. *)
Theorem set_then_isSet (s : BitArray) (i : Z) :
  wf s -> 0 <= i < m_max s ->
  exists s',
    set s i = Ok s' /\
    isSet s' i = Ok true /\
    (forall j, 0 <= j < m_max s -> j <> i -> isSet s' j = isSet s j) /\
    m_last s' = m_last s /\
    set s' i = Ok s'.
Proof.
  intros Hwf Hi.
  destruct (point_op_runs s i (fun w => Z.lor w (bit_mask i)) Hwf Hi) as [w [Hw Hrun]].
  pose proof (wf_word_ok s _ w Hwf Hw) as Hwok.
  assert (Hv : word_ok (Z.lor w (bit_mask i)))
    by (apply word_ok_lor; [exact Hwok|apply word_ok_bit_mask]).
  assert (Hlen : (Z.to_nat (i / 64) < length (words s))%nat)
    by (eapply lookup_lt_Some; exact Hw).
  eexists. split; [exact Hrun|].
  split; [|split; [|split; [reflexivity|]]].
  - rewrite (isSet_after_update s i i w _ Hwf Hi Hi Hw Hv).
    destruct (decide _) as [_|Hn]; [|contradiction].
    rewrite Z.lor_spec, testbit_bit_mask, Z.eqb_refl, orb_true_r. reflexivity.
  - intros j Hj Hne.
    rewrite (isSet_after_update s i j w _ Hwf Hi Hj Hw Hv).
    rewrite isSet_bit_at by (try exact Hwf; exact Hj).
    destruct (decide _) as [He|_]; [|reflexivity].
    unfold bit_at. rewrite He, Hw.
    rewrite Z.lor_spec, testbit_bit_mask.
    destruct (Z.eqb_spec (i mod 64) (j mod 64)) as [Ho|_];
      [|rewrite orb_false_r; reflexivity].
    exfalso. apply Hne. apply (same_word_same_offset i j); lia.
  - destruct (update_word_keeps s _ w _ (m_last s) Hwf Hw Hv) as [Hwf' _];
      [destruct Hwf; assumption|].
    set (s' := with_last _ _) in *.
    destruct (point_op_runs s' i (fun w => Z.lor w (bit_mask i)) Hwf' Hi)
      as [w' [Hw' Hrun']].
    unfold set. rewrite Hrun'. f_equal.
    unfold s' in Hw'. cbn [with_last with_words words] in Hw'.
    rewrite list_lookup_insert_eq in Hw' by exact Hlen.
    assert (Ew : w' = Z.lor w (bit_mask i)) by congruence. subst w'.
    replace (Z.lor (Z.lor w (bit_mask i)) (bit_mask i)) with (Z.lor w (bit_mask i)).
    + unfold s'. cbn [with_last with_words words m_bits m_numSlots m_max m_reallocFn m_last].
      rewrite list_insert_insert_eq. reflexivity.
    + rewrite <- Z.lor_assoc, Z.lor_diag. reflexivity.
Qed.

(** X2: [unset(i)] with [i < max()] succeeds; afterwards [isSet(i)] is
    false and [isSet(j)] is what it was for every other index of the
    domain. *)
Theorem unset_then_isSet (s : BitArray) (i : Z) :
  wf s -> 0 <= i < m_max s ->
  exists s',
    unset s i = Ok s' /\
    isSet s' i = Ok false /\
    (forall j, 0 <= j < m_max s -> j <> i -> isSet s' j = isSet s j) /\
    m_last s' = m_last s.
Proof.
  intros Hwf Hi.
  destruct (point_op_runs s i (fun w => Z.land w (not64 (bit_mask i))) Hwf Hi)
    as [w [Hw Hrun]].
  pose proof (wf_word_ok s _ w Hwf Hw) as Hwok.
  assert (Hv : word_ok (Z.land w (not64 (bit_mask i)))) by (apply word_ok_land; exact Hwok).
  eexists. split; [exact Hrun|].
  split; [|split; [|reflexivity]].
  - rewrite (isSet_after_update s i i w _ Hwf Hi Hi Hw Hv).
    destruct (decide _) as [_|Hn]; [|contradiction].
    rewrite Z.land_spec, testbit_not64 by (apply Z.mod_pos_bound; lia).
    rewrite testbit_bit_mask, Z.eqb_refl. cbn [negb]. rewrite andb_false_r. reflexivity.
  - intros j Hj Hne.
    rewrite (isSet_after_update s i j w _ Hwf Hi Hj Hw Hv).
    rewrite isSet_bit_at by (try exact Hwf; exact Hj).
    destruct (decide _) as [He|_]; [|reflexivity].
    unfold bit_at. rewrite He, Hw.
    rewrite Z.land_spec, testbit_not64 by (apply Z.mod_pos_bound; lia).
    rewrite testbit_bit_mask.
    destruct (Z.eqb_spec (i mod 64) (j mod 64)) as [Ho|_];
      [|cbn [negb]; rewrite andb_true_r; reflexivity].
    exfalso. apply Hne. apply (same_word_same_offset i j); lia.
Qed.

Lemma with_words_same (s : BitArray) :
  with_last (with_words s (words s)) (m_last s) = s.
Proof. destruct s. reflexivity. Qed.

(** X3: [toggle(i)] with [i < max()] succeeds and flips what [isSet(i)]
    answers, leaving every other index of the domain alone; a second
    [toggle(i)] gives back the state before the first. *)
Theorem toggle_flips_and_undoes (s : BitArray) (i : Z) :
  wf s -> 0 <= i < m_max s ->
  exists s' b,
    isSet s i = Ok b /\
    toggle s i = Ok s' /\
    isSet s' i = Ok (negb b) /\
    (forall j, 0 <= j < m_max s -> j <> i -> isSet s' j = isSet s j) /\
    toggle s' i = Ok s.
Proof.
  intros Hwf Hi.
  destruct (point_op_runs s i (fun w => Z.lxor w (bit_mask i)) Hwf Hi) as [w [Hw Hrun]].
  pose proof (wf_word_ok s _ w Hwf Hw) as Hwok.
  assert (Hv : word_ok (Z.lxor w (bit_mask i)))
    by (apply word_ok_lxor; [exact Hwok|apply word_ok_bit_mask]).
  assert (Hlen : (Z.to_nat (i / 64) < length (words s))%nat)
    by (eapply lookup_lt_Some; exact Hw).
  eexists. exists (bit_at s i).
  split; [apply isSet_bit_at; assumption|].
  split; [exact Hrun|].
  split; [|split].
  - rewrite (isSet_after_update s i i w _ Hwf Hi Hi Hw Hv).
    destruct (decide _) as [_|Hn]; [|contradiction].
    rewrite Z.lxor_spec, testbit_bit_mask, Z.eqb_refl, xorb_true_r.
    unfold bit_at. rewrite Hw. reflexivity.
  - intros j Hj Hne.
    rewrite (isSet_after_update s i j w _ Hwf Hi Hj Hw Hv).
    rewrite isSet_bit_at by (try exact Hwf; exact Hj).
    destruct (decide _) as [He|_]; [|reflexivity].
    unfold bit_at. rewrite He, Hw.
    rewrite Z.lxor_spec, testbit_bit_mask.
    destruct (Z.eqb_spec (i mod 64) (j mod 64)) as [Ho|_];
      [|rewrite xorb_false_r; reflexivity].
    exfalso. apply Hne. apply (same_word_same_offset i j); lia.
  - destruct (update_word_keeps s _ w _ (m_last s) Hwf Hw Hv) as [Hwf' _];
      [destruct Hwf; assumption|].
    set (s' := with_last _ _) in *.
    destruct (point_op_runs s' i (fun w => Z.lxor w (bit_mask i)) Hwf' Hi)
      as [w' [Hw' Hrun']].
    unfold toggle. rewrite Hrun'. f_equal.
    unfold s' in Hw'. cbn [with_last with_words words] in Hw'.
    rewrite list_lookup_insert_eq in Hw' by exact Hlen.
    assert (Ew : w' = Z.lxor w (bit_mask i)) by congruence. subst w'.
    rewrite Z.lxor_assoc, Z.lxor_nilpotent, Z.lxor_0_r.
    unfold s'. cbn [with_last with_words words m_bits m_numSlots m_max m_reallocFn m_last].
    rewrite list_insert_insert_eq. rewrite (list_insert_id _ _ _ Hw).
    destruct s. reflexivity.
Qed.

Lemma wf_130 : wf (mkBitArray 4096 [5; 0; 2] 3 130 0 0).
Proof.
  constructor; cbn [m_max m_numSlots words m_last].
  - lia.
  - reflexivity.
  - simpl. lia.
  - apply Forall_cons; split; [unfold word_ok; lia|].
    apply Forall_cons; split; [unfold word_ok; lia|].
    apply Forall_cons; split; [unfold word_ok; lia|].
    apply Forall_nil. exact I.
  - lia.
Defined.

Lemma set_then_isSet_witness :
  exists s',
    set (mkBitArray 4096 [5; 0; 2] 3 130 0 0) 70 = Ok s' /\
    isSet s' 70 = Ok true /\
    (forall j, 0 <= j < m_max (mkBitArray 4096 [5; 0; 2] 3 130 0 0) -> j <> 70 ->
       isSet s' j = isSet (mkBitArray 4096 [5; 0; 2] 3 130 0 0) j) /\
    m_last s' = m_last (mkBitArray 4096 [5; 0; 2] 3 130 0 0) /\
    set s' 70 = Ok s'.
Proof.
  apply (set_then_isSet (mkBitArray 4096 [5; 0; 2] 3 130 0 0) 70).
  - exact wf_130.
  - simpl. lia.
Defined.

Lemma unset_then_isSet_witness :
  exists s',
    unset (mkBitArray 4096 [5; 0; 2] 3 130 0 0) 2 = Ok s' /\
    isSet s' 2 = Ok false /\
    (forall j, 0 <= j < m_max (mkBitArray 4096 [5; 0; 2] 3 130 0 0) -> j <> 2 ->
       isSet s' j = isSet (mkBitArray 4096 [5; 0; 2] 3 130 0 0) j) /\
    m_last s' = m_last (mkBitArray 4096 [5; 0; 2] 3 130 0 0).
Proof.
  apply (unset_then_isSet (mkBitArray 4096 [5; 0; 2] 3 130 0 0) 2).
  - exact wf_130.
  - simpl. lia.
Defined.

Lemma toggle_flips_and_undoes_witness :
  exists s' b,
    isSet (mkBitArray 4096 [5; 0; 2] 3 130 0 0) 129 = Ok b /\
    toggle (mkBitArray 4096 [5; 0; 2] 3 130 0 0) 129 = Ok s' /\
    isSet s' 129 = Ok (negb b) /\
    (forall j, 0 <= j < m_max (mkBitArray 4096 [5; 0; 2] 3 130 0 0) -> j <> 129 ->
       isSet s' j = isSet (mkBitArray 4096 [5; 0; 2] 3 130 0 0) j) /\
    toggle s' 129 = Ok (mkBitArray 4096 [5; 0; 2] 3 130 0 0).
Proof.
  apply (toggle_flips_and_undoes (mkBitArray 4096 [5; 0; 2] 3 130 0 0) 129).
  - exact wf_130.
  - simpl. lia.
Defined.

(** ** What [setFirst] and [setAny] hand out *)

(** The slots below a bound are all full, or there is a first one with a
    zero bit. *)
Lemma first_nonfull_slot (s : BitArray) (n : nat) :
  (n <= length (words s))%nat ->
  (forall i, 0 <= i < Z.of_nat n -> words s !! Z.to_nat i = Some UINT64_MAX) \/
  (exists j w, 0 <= j < Z.of_nat n /\ words s !! Z.to_nat j = Some w /\
               w <> UINT64_MAX /\
               forall i, 0 <= i < j -> words s !! Z.to_nat i = Some UINT64_MAX).
Proof.
  intros Hlen.
  assert (Hsome : forall i, 0 <= i < Z.of_nat n ->
            exists w, words s !! Z.to_nat i = Some w).
  { intros i Hi. apply lookup_lt_is_Some_2. lia. }
  destruct (first_false
              (fun i => match words s !! Z.to_nat i with
                        | Some w => w =? UINT64_MAX
                        | None => false
                        end) n) as [Hall|[j [Hj [Hf Hlow]]]].
  - left. intros i Hi. specialize (Hall i Hi).
    destruct (Hsome i Hi) as [w Hw]. rewrite Hw in Hall |- *.
    apply Z.eqb_eq in Hall. congruence.
  - right. destruct (Hsome j Hj) as [w Hw]. rewrite Hw in Hf.
    exists j, w. split; [exact Hj|]. split; [exact Hw|].
    split; [apply Z.eqb_neq; exact Hf|].
    intros i Hi. specialize (Hlow i Hi).
    destruct (Hsome i ltac:(lia)) as [w' Hw']. rewrite Hw' in Hlow |- *.
    apply Z.eqb_eq in Hlow. congruence.
Qed.

(** Below the lowest zero bit of the first slot that is not full, every
    bit is set. *)
Lemma bits_below_first_zero (s : BitArray) (j w t p : Z) :
  0 <= j -> words s !! Z.to_nat j = Some w ->
  (forall i, 0 <= i < j -> words s !! Z.to_nat i = Some UINT64_MAX) ->
  0 <= t <= 64 -> (forall q, 0 <= q < t -> Z.testbit w q = true) ->
  0 <= p < 64 * j + t -> bit_at s p = true.
Proof.
  intros Hj Hw Hfull Ht Hlow Hp. unfold bit_at.
  pose proof (Z.div_mod p 64 ltac:(lia)) as Hdm.
  pose proof (Z.mod_pos_bound p 64 ltac:(lia)) as Hm.
  assert (0 <= p / 64) by (apply Z.div_pos; lia).
  destruct (Z.eq_dec (p / 64) j) as [E|E].
  - rewrite E, Hw. apply Hlow. lia.
  - rewrite Hfull by lia. rewrite testbit_UINT64_MAX.
    destruct (Z.leb_spec 0 (p mod 64)); [|lia].
    destruct (Z.ltb_spec (p mod 64) 64); [reflexivity|lia].
Qed.

(** [setRightmostBit] on a slot [j] with a zero bit: bit [64 j + t] of the
    array, [t] the lowest zero bit of the slot, is the one bit that
    changes, and the index returned is that position cut off at [max()]. *)
Lemma setRightmostBit_effect (s : BitArray) (j w : Z) :
  wf s -> 0 <= j < m_numSlots s ->
  words s !! Z.to_nat j = Some w -> w <> UINT64_MAX ->
  exists t s',
    0 <= t < 64 /\ Z.testbit w t = false /\
    (forall q, 0 <= q < t -> Z.testbit w q = true) /\
    setRightmostBit s j = Ok (s', Z.min (64 * j + t) (m_max s)) /\
    wf s' /\ m_max s' = m_max s /\ m_numSlots s' = m_numSlots s /\
    m_last s' = m_last s /\
    bit_at s (64 * j + t) = false /\
    forall p, 0 <= p -> bit_at s' p = bit_at s p || (p =? 64 * j + t).
Proof.
  intros Hwf Hj Hw Hne.
  pose proof (wf_word_ok s _ w Hwf Hw) as Hwok.
  destruct (rightmost_spec w Hwok Hne) as [t [Ht [Hz [Hlow [Hu [Hc [Hok Hbits]]]]]]].
  pose proof (wf_numSlots_bound s Hwf) as Hn.
  change (2 ^ 26) with 67108864 in Hn.
  assert (Hlen : (Z.to_nat j < length (words s))%nat) by (eapply lookup_lt_Some; exact Hw).
  destruct (update_word_keeps s _ w (Z.lor w (w + 1)) (m_last s) Hwf Hw Hok) as [Hwf' _];
    [destruct Hwf; assumption|].
  exists t.
  exists (with_last (with_words s (<[Z.to_nat j := Z.lor w (w + 1)]> (words s))) (m_last s)).
  split; [exact Ht|]. split; [exact Hz|]. split; [exact Hlow|].
  split.
  { unfold setRightmostBit, load. rewrite Hw, bind_Ok_l.
    rewrite store_in_bounds by exact Hlen. rewrite bind_Ok_l.
    rewrite Hu, Hc, shiftl6.
    rewrite (u32_small (j * 64)) by (change (2 ^ 32) with 4294967296; lia).
    rewrite (u32_small t) by (change (2 ^ 32) with 4294967296; lia).
    rewrite (u32_small (j * 64 + t)) by (change (2 ^ 32) with 4294967296; lia).
    replace (j * 64 + t) with (64 * j + t) by lia.
    replace (Z.min (64 * j + t) (m_max s))
      with (if 64 * j + t <? m_max s then 64 * j + t else m_max s)
      by (destruct (Z.ltb_spec (64 * j + t) (m_max s)); lia).
    reflexivity. }
  split; [exact Hwf'|]. split; [reflexivity|]. split; [reflexivity|].
  split; [reflexivity|].
  assert (Hslot : forall q, 0 <= q < 64 -> bit_at s (64 * j + q) = Z.testbit w q).
  { intros q Hq.
    replace (64 * j + q) with (Z.of_nat (64 * Z.to_nat j) + q) by lia.
    apply bit_at_slot; [exact Hw|exact Hq]. }
  split; [rewrite Hslot by exact Ht; exact Hz|].
  intros p Hp. rewrite bit_at_insert by exact Hlen.
  pose proof (Z.div_mod p 64 ltac:(lia)) as Hdm.
  pose proof (Z.mod_pos_bound p 64 ltac:(lia)) as Hm.
  assert (0 <= p / 64) by (apply Z.div_pos; lia).
  destruct (decide (Z.to_nat (p / 64) = Z.to_nat j)) as [E|E].
  - assert (Ep : p = 64 * j + p mod 64) by lia.
    assert (Hbp : bit_at s p = Z.testbit w (p mod 64)).
    { rewrite <- (Hslot (p mod 64)) by exact Hm. f_equal. exact Ep. }
    rewrite Hbits, Hbp by lia.
    f_equal. destruct (Z.eqb_spec (p mod 64) t); destruct (Z.eqb_spec p (64 * j + t));
      try reflexivity; lia.
  - destruct (Z.eqb_spec p (64 * j + t)) as [Ep|_]; [|rewrite orb_false_r; reflexivity].
    exfalso. apply E. f_equal. subst p.
    replace (64 * j + t) with (t + j * 64) by lia.
    rewrite Z.div_add by lia. rewrite Z.div_small by lia. lia.
Qed.

(** X4: [setFirst()] always succeeds and leaves the cursor alone.  When it
    returns [r < max()], [r] is the lowest index for which [isSet] was
    false, [isSet(r)] is true afterwards and no other index of the domain
    changes; when it returns [max()], [isSet] was true on the whole
    domain. *)
Theorem setFirst_hands_out_lowest_unset (s : BitArray) :
  wf s ->
  exists s' r,
    setFirst s = Ok (s', r) /\ 0 <= r <= m_max s /\ m_last s' = m_last s /\
    (r < m_max s ->
       isSet s r = Ok false /\ isSet s' r = Ok true /\
       (forall p, 0 <= p < r -> isSet s p = Ok true) /\
       (forall p, 0 <= p < m_max s -> p <> r -> isSet s' p = isSet s p)) /\
    (r = m_max s -> forall p, 0 <= p < m_max s -> isSet s p = Ok true).
Proof.
  intros Hwf.
  assert (Hmax : 1 <= m_max s) by (destruct Hwf; lia).
  assert (Hlen : (Z.to_nat (m_numSlots s) <= length (words s))%nat)
    by (destruct Hwf; assumption).
  pose proof (wf_numSlots_bound s Hwf) as Hn.
  pose proof (wf_capacity s Hwf) as Hcap.
  destruct (first_nonfull_slot s (Z.to_nat (m_numSlots s)) Hlen)
    as [Hall|[j [w [Hj [Hw [Hne Hfull]]]]]].
  - exists s, (m_max s).
    split; [unfold setFirst; apply setFirst_loop_full; [lia|]; intros i Hi; apply Hall; lia|].
    split; [lia|]. split; [reflexivity|]. split; [lia|].
    intros _ p Hp. rewrite isSet_bit_at by (try exact Hwf; exact Hp). f_equal.
    unfold bit_at. assert (0 <= p / 64) by (apply Z.div_pos; lia).
    assert (p / 64 < m_numSlots s) by (apply Z.div_lt_upper_bound; lia).
    rewrite Hall by lia. rewrite testbit_UINT64_MAX.
    pose proof (Z.mod_pos_bound p 64 ltac:(lia)).
    destruct (Z.leb_spec 0 (p mod 64)); [|lia].
    destruct (Z.ltb_spec (p mod 64) 64); [reflexivity|lia].
  - rewrite Z2Nat.id in Hj by lia.
    destruct (setRightmostBit_effect s j w Hwf Hj Hw Hne)
      as [t [s' [Ht [Hz [Hlow [Hrun [Hwf' [Hmax' [Hn' [Hl' [Hr Hbits]]]]]]]]]]].
    assert (Hbelow : forall p, 0 <= p < 64 * j + t -> bit_at s p = true).
    { intros p Hp. apply (bits_below_first_zero s j w t p); try assumption; lia. }
    exists s', (Z.min (64 * j + t) (m_max s)).
    split.
    { unfold setFirst. rewrite (setFirst_loop_skip s j w); try assumption; lia. }
    split; [lia|]. split; [exact Hl'|]. split.
    + intros Hlt. assert (Er : Z.min (64 * j + t) (m_max s) = 64 * j + t) by lia.
      rewrite Er in *.
      split; [rewrite isSet_bit_at by (try exact Hwf; lia); f_equal; exact Hr|].
      split.
      { rewrite isSet_bit_at by (try exact Hwf'; lia). f_equal.
        rewrite Hbits by lia. rewrite Z.eqb_refl. apply orb_true_r. }
      split.
      { intros p Hp. rewrite isSet_bit_at by (try exact Hwf; lia). f_equal.
        apply Hbelow. lia. }
      intros p Hp Hpr.
      rewrite isSet_bit_at by (try exact Hwf'; lia).
      rewrite isSet_bit_at by (try exact Hwf; lia). f_equal.
      rewrite Hbits by lia.
      destruct (Z.eqb_spec p (64 * j + t)); [contradiction|apply orb_false_r].
    + intros Emax p Hp. rewrite isSet_bit_at by (try exact Hwf; lia). f_equal.
      apply Hbelow. lia.
Qed.

Lemma setFirst_hands_out_lowest_unset_witness :
  exists s' r,
    setFirst (mkBitArray 4096 [5; 0; 2] 3 130 0 0) = Ok (s', r) /\
    0 <= r <= m_max (mkBitArray 4096 [5; 0; 2] 3 130 0 0) /\
    m_last s' = m_last (mkBitArray 4096 [5; 0; 2] 3 130 0 0) /\
    (r < m_max (mkBitArray 4096 [5; 0; 2] 3 130 0 0) ->
       isSet (mkBitArray 4096 [5; 0; 2] 3 130 0 0) r = Ok false /\
       isSet s' r = Ok true /\
       (forall p, 0 <= p < r -> isSet (mkBitArray 4096 [5; 0; 2] 3 130 0 0) p = Ok true) /\
       (forall p, 0 <= p < m_max (mkBitArray 4096 [5; 0; 2] 3 130 0 0) -> p <> r ->
          isSet s' p = isSet (mkBitArray 4096 [5; 0; 2] 3 130 0 0) p)) /\
    (r = m_max (mkBitArray 4096 [5; 0; 2] 3 130 0 0) ->
       forall p, 0 <= p < m_max (mkBitArray 4096 [5; 0; 2] 3 130 0 0) ->
         isSet (mkBitArray 4096 [5; 0; 2] 3 130 0 0) p = Ok true).
Proof.
  apply (setFirst_hands_out_lowest_unset (mkBitArray 4096 [5; 0; 2] 3 130 0 0)).
  exact wf_130.
Defined.

(** The slots of a range are all full, or there is a first one with a zero
    bit. *)
Lemma first_nonfull_from (s : BitArray) (a : Z) (n : nat) :
  0 <= a -> (Z.to_nat a + n <= length (words s))%nat ->
  (forall i, a <= i < a + Z.of_nat n -> words s !! Z.to_nat i = Some UINT64_MAX) \/
  (exists j w, a <= j < a + Z.of_nat n /\ words s !! Z.to_nat j = Some w /\
               w <> UINT64_MAX /\
               forall i, a <= i < j -> words s !! Z.to_nat i = Some UINT64_MAX).
Proof.
  intros Ha Hlen.
  assert (Hsome : forall i, a <= i < a + Z.of_nat n ->
            exists w, words s !! Z.to_nat i = Some w).
  { intros i Hi. apply lookup_lt_is_Some_2. lia. }
  destruct (first_false
              (fun i => match words s !! Z.to_nat (a + i) with
                        | Some w => w =? UINT64_MAX
                        | None => false
                        end) n) as [Hall|[j [Hj [Hf Hlow]]]].
  - left. intros i Hi. specialize (Hall (i - a) ltac:(lia)).
    replace (a + (i - a)) with i in Hall by lia.
    destruct (Hsome i Hi) as [w Hw]. rewrite Hw in Hall |- *.
    apply Z.eqb_eq in Hall. congruence.
  - right. destruct (Hsome (a + j) ltac:(lia)) as [w Hw]. rewrite Hw in Hf.
    exists (a + j), w. split; [lia|]. split; [exact Hw|].
    split; [apply Z.eqb_neq; exact Hf|].
    intros i Hi. specialize (Hlow (i - a) ltac:(lia)).
    replace (a + (i - a)) with i in Hlow by lia.
    destruct (Hsome i ltac:(lia)) as [w' Hw']. rewrite Hw' in Hlow |- *.
    apply Z.eqb_eq in Hlow. congruence.
Qed.

(** A scan of [setAny] over full slots runs to its end and leaves the
    cursor just past the last slot it saw. *)
Lemma setAny_loop_full (n : nat) (s : BitArray) (slot : Z) :
  0 <= slot ->
  (forall i, slot <= i < slot + Z.of_nat n -> words s !! Z.to_nat i = Some UINT64_MAX) ->
  setAny_loop s slot n
  = Ok (with_last s (if decide (n = O) then m_last s else slot + Z.of_nat n), None).
Proof.
  revert s slot. induction n as [|n IH]; intros s slot Hslot Hfull.
  - cbn [setAny_loop]. rewrite with_last_same. reflexivity.
  - cbn [setAny_loop]. unfold load. rewrite Hfull, bind_Ok_l by lia.
    rewrite Z.eqb_refl. cbn [negb].
    rewrite IH; [|lia|intros i Hi; apply Hfull; lia].
    rewrite with_last_with_last. f_equal. f_equal. f_equal.
    destruct (decide (S n = O)) as [|_]; [lia|].
    destruct (decide (n = O)) as [->|_]; cbn [with_last m_last]; lia.
Qed.

(** A scan of [setAny] that meets a slot [j] with a zero bit calls
    [setRightmostBit] there, the cursor being [j] unless [j] is where the
    scan began. *)
Lemma setAny_loop_skip (n : nat) (s : BitArray) (slot j w : Z) :
  0 <= slot -> slot <= j < slot + Z.of_nat n ->
  (forall i, slot <= i < j -> words s !! Z.to_nat i = Some UINT64_MAX) ->
  words s !! Z.to_nat j = Some w -> w <> UINT64_MAX ->
  setAny_loop s slot n
  = ('(s', r) ← setRightmostBit
                  (with_last s (if decide (j = slot) then m_last s else j)) j;
     Ok (s', Some r)).
Proof.
  revert s slot. induction n as [|n IH]; intros s slot Hslot Hj Hfull Hw Hne; [lia|].
  cbn [setAny_loop]. unfold load at 1.
  destruct (decide (j = slot)) as [->|Hjs].
  - rewrite Hw, bind_Ok_l.
    destruct (Z.eqb_spec w UINT64_MAX); [contradiction|]. cbn [negb].
    rewrite with_last_same. reflexivity.
  - rewrite Hfull, bind_Ok_l by lia. rewrite Z.eqb_refl. cbn [negb].
    rewrite (IH _ (slot + 1)); [|lia|lia| |exact Hw|exact Hne].
    + rewrite with_last_with_last.
      destruct (decide (j = slot + 1)) as [->|_]; reflexivity.
    + intros i Hi. apply Hfull. lia.
Qed.

(** X5: with the cursor inside the slots, [setAny()] succeeds and leaves
    the cursor inside the slots.  An index [r < max()] it returns was not
    set before, is set afterwards, and no other index of the domain
    changes. *)
Theorem setAny_hands_out_unset (s : BitArray) :
  wf s -> cursor_in_slots s ->
  exists s' r,
    setAny s = Ok (s', r) /\ cursor_in_slots s' /\ 0 <= r <= m_max s /\
    (r < m_max s ->
       isSet s r = Ok false /\ isSet s' r = Ok true /\
       (forall p, 0 <= p < m_max s -> p <> r -> isSet s' p = isSet s p)).
Proof.
  intros Hwf [Hl0 HlN].
  assert (Hmax : 1 <= m_max s) by (destruct Hwf; lia).
  assert (Hlen : (Z.to_nat (m_numSlots s) <= length (words s))%nat)
    by (destruct Hwf; assumption).
  pose proof (wf_numSlots_bound s Hwf) as Hn.
  change (2 ^ 26) with 67108864 in Hn.
  (* what a call of setRightmostBit from a state with another cursor gives *)
  assert (Hfound : forall l j w,
            0 <= l <= m_numSlots s -> 0 <= j < m_numSlots s ->
            words s !! Z.to_nat j = Some w -> w <> UINT64_MAX ->
            exists s' r,
              setRightmostBit (with_last s l) j = Ok (s', r) /\
              cursor_in_slots s' /\ 0 <= r <= m_max s /\
              (r < m_max s ->
                 isSet s r = Ok false /\ isSet s' r = Ok true /\
                 (forall p, 0 <= p < m_max s -> p <> r -> isSet s' p = isSet s p))).
  { intros l j w Hl Hj Hw Hne.
    assert (Hwfl : wf (with_last s l))
      by (apply wf_with_last; [exact Hwf|change (2 ^ 32) with 4294967296; lia]).
    destruct (setRightmostBit_effect (with_last s l) j w Hwfl Hj Hw Hne)
      as [t [s' [Ht [Hz [Hlow [Hrun [Hwf' [Hmax' [Hn' [Hl' [Hr Hbits]]]]]]]]]]].
    cbn [with_last m_max m_numSlots m_last] in *.
    exists s', (Z.min (64 * j + t) (m_max s)).
    split; [exact Hrun|].
    split; [unfold cursor_in_slots; rewrite Hl', Hn'; exact Hl|].
    split; [lia|]. intros Hlt.
    assert (Er : Z.min (64 * j + t) (m_max s) = 64 * j + t) by lia.
    rewrite Er in *.
    split; [rewrite isSet_bit_at by (try exact Hwf; lia); f_equal; exact Hr|].
    split.
    { rewrite isSet_bit_at by (try exact Hwf'; lia). f_equal.
      rewrite Hbits by lia. rewrite Z.eqb_refl. apply orb_true_r. }
    intros p Hp Hpr.
    rewrite isSet_bit_at by (try exact Hwf'; lia).
    rewrite isSet_bit_at by (try exact Hwf; lia). f_equal.
    rewrite Hbits by lia.
    destruct (Z.eqb_spec p (64 * j + t)); [contradiction|apply orb_false_r]. }
  unfold setAny.
  destruct (first_nonfull_from s (m_last s) (Z.to_nat (m_numSlots s - m_last s)))
    as [Hfull1|[j [w [Hj [Hw [Hne Hfull1]]]]]]; [lia|lia| |].
  - rewrite setAny_loop_full by (try exact Hfull1; lia). rewrite bind_Ok_l.
    cbn [with_last m_last m_numSlots].
    set (l1 := if decide (Z.to_nat (m_numSlots s - m_last s) = O) then m_last s
               else m_last s + Z.of_nat (Z.to_nat (m_numSlots s - m_last s))).
    assert (El1 : l1 = m_numSlots s) by (unfold l1; destruct (decide _); lia).
    rewrite El1. destruct (Z.leb_spec (m_numSlots s) (m_numSlots s)); [|lia].
    rewrite with_last_with_last.
    destruct (first_nonfull_from (with_last s 0) 0 (Z.to_nat (m_last s)))
      as [Hfull2|[j [w [Hj [Hw [Hne Hfull2]]]]]];
      [lia|cbn [with_last words]; lia| |].
    + rewrite (setAny_loop_full _ (with_last s 0) 0 (Z.le_refl 0) Hfull2).
      rewrite bind_Ok_l.
      rewrite with_last_with_last. cbn [with_last m_last m_max].
      eexists. eexists. split; [reflexivity|].
      split; [unfold cursor_in_slots; cbn [with_last m_last m_numSlots];
              destruct (decide (Z.to_nat (m_last s) = O)); lia|].
      split; [lia|]. intros Hlt. lia.
    + rewrite (setAny_loop_skip _ _ 0 j w) by (try assumption; lia).
      rewrite with_last_with_last. cbn [with_last m_last].
      set (l := if decide (j = 0) then 0 else j).
      cbn [with_last words] in Hw.
      destruct (Hfound l j w) as [s' [r [Hrun Hrest]]];
        [unfold l; destruct (decide (j = 0)); lia|lia|exact Hw|exact Hne|].
      rewrite Hrun, bind_Ok_l. exists s', r. split; [reflexivity|exact Hrest].
  - rewrite (setAny_loop_skip _ _ (m_last s) j w) by (try assumption; lia).
    set (l := if decide (j = m_last s) then m_last s else j).
    destruct (Hfound l j w) as [s' [r [Hrun Hrest]]];
      [unfold l; destruct (decide (j = m_last s)); lia|lia|exact Hw|exact Hne|].
    rewrite Hrun, bind_Ok_l. exists s', r. split; [reflexivity|exact Hrest].
Qed.

Lemma cursor_130 : cursor_in_slots (mkBitArray 4096 [5; 0; 2] 3 130 0 0).
Proof. unfold cursor_in_slots. simpl. lia. Defined.

Lemma setAny_hands_out_unset_witness :
  exists s' r,
    setAny (mkBitArray 4096 [5; 0; 2] 3 130 0 0) = Ok (s', r) /\
    cursor_in_slots s' /\ 0 <= r <= m_max (mkBitArray 4096 [5; 0; 2] 3 130 0 0) /\
    (r < m_max (mkBitArray 4096 [5; 0; 2] 3 130 0 0) ->
       isSet (mkBitArray 4096 [5; 0; 2] 3 130 0 0) r = Ok false /\
       isSet s' r = Ok true /\
       (forall p, 0 <= p < m_max (mkBitArray 4096 [5; 0; 2] 3 130 0 0) -> p <> r ->
          isSet s' p = isSet (mkBitArray 4096 [5; 0; 2] 3 130 0 0) p)).
Proof.
  apply (setAny_hands_out_unset (mkBitArray 4096 [5; 0; 2] 3 130 0 0)).
  - exact wf_130.
  - exact cursor_130.
Defined.

(** ** The helpers of [bitops.h] on nonzero words *)

(** [cnttz_u64] of a nonzero word is the position of its lowest set bit. *)
Lemma cnttz_lowest_set (w : Z) :
  word_ok w -> w <> 0 ->
  exists t, 0 <= t < 64 /\ Z.testbit w t = true /\
            (forall q, 0 <= q < t -> Z.testbit w q = false) /\
            cnttz_u64 w = t.
Proof.
  intros Hw Hne.
  destruct (first_false (fun q => negb (Z.testbit w q)) 64) as [Hall|[t [Ht [Hf Hlow]]]].
  - exfalso. apply Hne. apply Z.bits_inj'. intros p Hp. rewrite Z.bits_0.
    destruct (Z.ltb_spec p 64) as [Hlt|Hge].
    + specialize (Hall p ltac:(lia)). apply negb_true_iff in Hall. exact Hall.
    + destruct (Z.testbit w p) eqn:Eb; [|reflexivity].
      apply (proj1 (word_ok_bits w) Hw) in Eb. lia.
  - apply negb_false_iff in Hf.
    assert (Hlow' : forall q, 0 <= q < t -> Z.testbit w q = false).
    { intros q Hq. specialize (Hlow q Hq). apply negb_true_iff in Hlow. exact Hlow. }
    exists t. split; [lia|]. split; [exact Hf|]. split; [exact Hlow'|].
    unfold cnttz_u64. apply first_set_from_found; [lia|lia|exact Hf|].
    intros q Hq. apply Hlow'. lia.
Qed.

Lemma last_set_from_found (w h : Z) (fuel : nat) (p : Z) :
  h <= p -> p - h < Z.of_nat fuel ->
  Z.testbit w h = true ->
  (forall q, h < q <= p -> Z.testbit w q = false) ->
  last_set_from w p fuel = 63 - h.
Proof.
  revert p. induction fuel as [|fuel IH]; intros p Hp Hfuel Hh Hup; [lia|].
  simpl. destruct (Z.eq_dec p h) as [->|Hne].
  - rewrite Hh. reflexivity.
  - rewrite Hup by lia. apply IH; [lia|lia|exact Hh|].
    intros q Hq. apply Hup. lia.
Qed.

(** [cntlz_u64] of a nonzero word is 63 minus the position of its highest
    set bit. *)
Lemma cntlz_highest_set (w : Z) :
  word_ok w -> w <> 0 ->
  exists h, 0 <= h < 64 /\ Z.testbit w h = true /\
            (forall q, h < q -> Z.testbit w q = false) /\
            cntlz_u64 w = 63 - h.
Proof.
  intros Hw Hne.
  destruct (first_false (fun q => negb (Z.testbit w (63 - q))) 64)
    as [Hall|[t [Ht [Hf Hlow]]]].
  - exfalso. apply Hne. apply Z.bits_inj'. intros p Hp. rewrite Z.bits_0.
    destruct (Z.ltb_spec p 64) as [Hlt|Hge].
    + specialize (Hall (63 - p) ltac:(lia)). apply negb_true_iff in Hall.
      replace (63 - (63 - p)) with p in Hall by lia. exact Hall.
    + destruct (Z.testbit w p) eqn:Eb; [|reflexivity].
      apply (proj1 (word_ok_bits w) Hw) in Eb. lia.
  - apply negb_false_iff in Hf.
    assert (Hup : forall q, 63 - t < q -> Z.testbit w q = false).
    { intros q Hq. destruct (Z.ltb_spec q 64) as [Hlt|Hge].
      - specialize (Hlow (63 - q) ltac:(lia)). apply negb_true_iff in Hlow.
        replace (63 - (63 - q)) with q in Hlow by lia. exact Hlow.
      - destruct (Z.testbit w q) eqn:Eb; [|reflexivity].
        apply (proj1 (word_ok_bits w) Hw) in Eb. lia. }
    exists (63 - t). split; [lia|]. split; [exact Hf|]. split; [exact Hup|].
    unfold cntlz_u64. apply last_set_from_found; [lia|lia|exact Hf|].
    intros q Hq. apply Hup. lia.
Qed.

(** [markFirstUnsetBit] isolates the lowest zero bit of a word that has
    one. *)
Lemma markFirstUnsetBit_pow2 (w t : Z) :
  word_ok w -> 0 <= t < 64 -> Z.testbit w t = false ->
  (forall q, 0 <= q < t -> Z.testbit w q = true) ->
  markFirstUnsetBit w = 2 ^ t.
Proof.
  intros Hw Ht Hz Hlow.
  assert (Hnn : 0 <= w) by (destruct Hw; assumption).
  assert (Hne : w <> UINT64_MAX).
  { intros ->. rewrite testbit_UINT64_MAX in Hz.
    destruct (Z.leb_spec 0 t); [|lia]. destruct (Z.ltb_spec t 64); [discriminate|lia]. }
  unfold markFirstUnsetBit.
  rewrite u64_small by (unfold word_ok, UINT64_MAX in *; lia).
  apply Z.bits_inj'. intros p Hp.
  rewrite Z.land_spec, Z.pow2_bits_eqb by lia.
  rewrite (testbit_succ w t p Hnn ltac:(lia) Hz Hlow Hp).
  destruct (Z.ltb_spec p t).
  - destruct (Z.eqb_spec t p); [lia|]. apply andb_false_r.
  - destruct (Z.eq_dec p t) as [->|Hpt].
    + rewrite !Z.eqb_refl. rewrite testbit_not64, Hz by lia. reflexivity.
    + replace (p =? t) with false by (symmetry; apply Z.eqb_neq; lia).
      replace (t =? p) with false by (symmetry; apply Z.eqb_neq; lia).
      destruct (Z.ltb_spec p 64).
      * rewrite testbit_not64 by lia. apply andb_negb_l.
      * destruct (Z.testbit w p) eqn:Eb; [|apply andb_false_r].
        apply (proj1 (word_ok_bits w) Hw) in Eb. lia.
Qed.

Lemma cnttz_pow2 (t : Z) : 0 <= t < 64 -> cnttz_u64 (2 ^ t) = t.
Proof.
  intros Ht. unfold cnttz_u64. apply first_set_from_found; [lia|lia| |].
  - rewrite Z.pow2_bits_eqb by lia. apply Z.eqb_refl.
  - intros q Hq. rewrite Z.pow2_bits_eqb by lia. apply Z.eqb_neq. lia.
Qed.

Lemma cntlz_pow2 (t : Z) : 0 <= t < 64 -> cntlz_u64 (2 ^ t) = 63 - t.
Proof.
  intros Ht. unfold cntlz_u64. apply last_set_from_found; [lia|lia| |].
  - rewrite Z.pow2_bits_eqb by lia. apply Z.eqb_refl.
  - intros q Hq. rewrite Z.pow2_bits_eqb by lia. apply Z.eqb_neq. lia.
Qed.

(** ** Scans *)

(** The slots of a range all hold [v], or there is a first one that does
    not. *)
Lemma first_slot_differing (s : BitArray) (v a : Z) (n : nat) :
  0 <= a -> (Z.to_nat a + n <= length (words s))%nat ->
  (forall i, a <= i < a + Z.of_nat n -> words s !! Z.to_nat i = Some v) \/
  (exists j w, a <= j < a + Z.of_nat n /\ words s !! Z.to_nat j = Some w /\
               w <> v /\
               forall i, a <= i < j -> words s !! Z.to_nat i = Some v).
Proof.
  intros Ha Hlen.
  assert (Hsome : forall i, a <= i < a + Z.of_nat n ->
            exists w, words s !! Z.to_nat i = Some w).
  { intros i Hi. apply lookup_lt_is_Some_2. lia. }
  destruct (first_false
              (fun i => match words s !! Z.to_nat (a + i) with
                        | Some w => w =? v
                        | None => false
                        end) n) as [Hall|[j [Hj [Hf Hlow]]]].
  - left. intros i Hi. specialize (Hall (i - a) ltac:(lia)).
    replace (a + (i - a)) with i in Hall by lia.
    destruct (Hsome i Hi) as [w Hw]. rewrite Hw in Hall |- *.
    apply Z.eqb_eq in Hall. congruence.
  - right. destruct (Hsome (a + j) ltac:(lia)) as [w Hw]. rewrite Hw in Hf.
    exists (a + j), w. split; [lia|]. split; [exact Hw|].
    split; [apply Z.eqb_neq; exact Hf|].
    intros i Hi. specialize (Hlow (i - a) ltac:(lia)).
    replace (a + (i - a)) with i in Hlow by lia.
    destruct (Hsome i ltac:(lia)) as [w' Hw']. rewrite Hw' in Hlow |- *.
    apply Z.eqb_eq in Hlow. congruence.
Qed.

(** The slots below a bound are all zero, or there is a last one that is
    not. *)
Lemma last_slot_nonzero (s : BitArray) (n : nat) :
  (n <= length (words s))%nat ->
  (forall i, 0 <= i < Z.of_nat n -> words s !! Z.to_nat i = Some 0) \/
  (exists j w, 0 <= j < Z.of_nat n /\ words s !! Z.to_nat j = Some w /\
               w <> 0 /\
               forall i, j < i < Z.of_nat n -> words s !! Z.to_nat i = Some 0).
Proof.
  intros Hlen.
  assert (Hsome : forall i, 0 <= i < Z.of_nat n ->
            exists w, words s !! Z.to_nat i = Some w).
  { intros i Hi. apply lookup_lt_is_Some_2. lia. }
  destruct (first_false
              (fun i => match words s !! Z.to_nat (Z.of_nat n - 1 - i) with
                        | Some w => w =? 0
                        | None => false
                        end) n) as [Hall|[j [Hj [Hf Hlow]]]].
  - left. intros i Hi. specialize (Hall (Z.of_nat n - 1 - i) ltac:(lia)).
    replace (Z.of_nat n - 1 - (Z.of_nat n - 1 - i)) with i in Hall by lia.
    destruct (Hsome i Hi) as [w Hw]. rewrite Hw in Hall |- *.
    apply Z.eqb_eq in Hall. congruence.
  - right. destruct (Hsome (Z.of_nat n - 1 - j) ltac:(lia)) as [w Hw]. rewrite Hw in Hf.
    exists (Z.of_nat n - 1 - j), w. split; [lia|]. split; [exact Hw|].
    split; [apply Z.eqb_neq; exact Hf|].
    intros i Hi. specialize (Hlow (Z.of_nat n - 1 - i) ltac:(lia)).
    replace (Z.of_nat n - 1 - (Z.of_nat n - 1 - i)) with i in Hlow by lia.
    destruct (Hsome i ltac:(lia)) as [w' Hw']. rewrite Hw' in Hlow |- *.
    apply Z.eqb_eq in Hlow. congruence.
Qed.

Lemma getFirstSetBit_loop_none (s : BitArray) (n : nat) (ii : Z) :
  0 <= ii ->
  (forall i, ii <= i < ii + Z.of_nat n -> words s !! Z.to_nat i = Some 0) ->
  getFirstSetBit_loop s ii n = Ok (m_max s).
Proof.
  revert ii. induction n as [|n IH]; intros ii Hii Hz; [reflexivity|].
  cbn [getFirstSetBit_loop]. unfold load. rewrite Hz, bind_Ok_l by lia.
  change (0 =? 0) with true. cbn [negb].
  apply IH; [lia|]. intros i Hi. apply Hz. lia.
Qed.

Lemma getFirstSetBit_loop_found (s : BitArray) (j w : Z) (n : nat) (ii : Z) :
  0 <= ii -> ii <= j < ii + Z.of_nat n ->
  (forall i, ii <= i < j -> words s !! Z.to_nat i = Some 0) ->
  words s !! Z.to_nat j = Some w -> w <> 0 ->
  getFirstSetBit_loop s ii n
  = Ok (u32 (u32 (Z.shiftl j 6) + u32 (cnttz_u64 w))).
Proof.
  revert ii. induction n as [|n IH]; intros ii Hii Hj Hz Hw Hne; [lia|].
  cbn [getFirstSetBit_loop]. unfold load.
  destruct (Z.eq_dec ii j) as [->|Hij].
  - rewrite Hw, bind_Ok_l.
    destruct (Z.eqb_spec 0 w); [congruence|reflexivity].
  - rewrite Hz, bind_Ok_l by lia. change (0 =? 0) with true. cbn [negb].
    apply IH; [lia|lia| |exact Hw|exact Hne]. intros i Hi. apply Hz. lia.
Qed.

Lemma getFirstUnsetBit_loop_none (s : BitArray) (n : nat) (ii : Z) :
  0 <= ii ->
  (forall i, ii <= i < ii + Z.of_nat n -> words s !! Z.to_nat i = Some UINT64_MAX) ->
  getFirstUnsetBit_loop s ii n = Ok (m_max s).
Proof.
  revert ii. induction n as [|n IH]; intros ii Hii Hz; [reflexivity|].
  cbn [getFirstUnsetBit_loop]. unfold load. rewrite Hz, bind_Ok_l by lia.
  rewrite Z.eqb_refl. cbn [negb].
  apply IH; [lia|]. intros i Hi. apply Hz. lia.
Qed.

Lemma getFirstUnsetBit_loop_found (s : BitArray) (j w : Z) (n : nat) (ii : Z) :
  0 <= ii -> ii <= j < ii + Z.of_nat n ->
  (forall i, ii <= i < j -> words s !! Z.to_nat i = Some UINT64_MAX) ->
  words s !! Z.to_nat j = Some w -> w <> UINT64_MAX ->
  getFirstUnsetBit_loop s ii n
  = Ok (u32 (u32 (Z.shiftl j 6) + u32 (cnttz_u64 (markFirstUnsetBit w)))).
Proof.
  revert ii. induction n as [|n IH]; intros ii Hii Hj Hz Hw Hne; [lia|].
  cbn [getFirstUnsetBit_loop]. unfold load.
  destruct (Z.eq_dec ii j) as [->|Hij].
  - rewrite Hw, bind_Ok_l.
    destruct (Z.eqb_spec w UINT64_MAX); [congruence|reflexivity].
  - rewrite Hz, bind_Ok_l by lia. rewrite Z.eqb_refl. cbn [negb].
    apply IH; [lia|lia| |exact Hw|exact Hne]. intros i Hi. apply Hz. lia.
Qed.

Lemma getLastUnsetBit_loop_none (s : BitArray) (n : nat) :
  (forall i, 0 <= i < Z.of_nat n -> words s !! Z.to_nat i = Some 0) ->
  getLastUnsetBit_loop s n = Ok (m_max s).
Proof.
  induction n as [|n IH]; intros Hz; [reflexivity|].
  cbn [getLastUnsetBit_loop]. unfold load. rewrite Hz, bind_Ok_l by lia.
  change (0 =? 0) with true. cbn [negb].
  apply IH. intros i Hi. apply Hz. lia.
Qed.

Lemma getLastUnsetBit_loop_found (s : BitArray) (j w : Z) (n : nat) :
  0 <= j < Z.of_nat n ->
  (forall i, j < i < Z.of_nat n -> words s !! Z.to_nat i = Some 0) ->
  words s !! Z.to_nat j = Some w -> w <> 0 ->
  getLastUnsetBit_loop s n
  = Ok (u32 (u32 (Z.shiftl j 6) + u32 (63 - u32 (cntlz_u64 w)))).
Proof.
  induction n as [|n IH]; intros Hj Hz Hw Hne; [lia|].
  cbn [getLastUnsetBit_loop]. unfold load.
  destruct (Z.eq_dec (Z.of_nat n) j) as [E|Hnj].
  - rewrite E, Hw, bind_Ok_l.
    destruct (Z.eqb_spec 0 w); [congruence|reflexivity].
  - rewrite Hz, bind_Ok_l by lia. change (0 =? 0) with true. cbn [negb].
    apply IH; [lia| |exact Hw|exact Hne]. intros i Hi. apply Hz. lia.
Qed.

Lemma getLastSetBit_loop_partial (s : BitArray) (j w : Z) (n : nat) :
  0 <= j < Z.of_nat n ->
  (forall i, j < i < Z.of_nat n -> words s !! Z.to_nat i = Some 0) ->
  words s !! Z.to_nat j = Some w -> w <> 0 -> w <> UINT64_MAX ->
  getLastSetBit_loop s n
  = Ok (u32 (u32 (Z.shiftl j 6) + u32 (63 - u32 (cntlz_u64 (markFirstUnsetBit w))))).
Proof.
  induction n as [|n IH]; intros Hj Hz Hw Hne Hnf; [lia|].
  cbn [getLastSetBit_loop]. unfold load.
  destruct (Z.eq_dec (Z.of_nat n) j) as [E|Hnj].
  - rewrite E, Hw, bind_Ok_l.
    destruct (Z.eqb_spec 0 w); [congruence|]. cbn [negb].
    destruct (Z.eqb_spec UINT64_MAX w); [congruence|reflexivity].
  - rewrite Hz, bind_Ok_l by lia. change (0 =? 0) with true. cbn [negb].
    apply IH; [lia| |exact Hw|exact Hne|exact Hnf]. intros i Hi. apply Hz. lia.
Qed.

(** The index computed from slot [j] and offset [t] does not wrap. *)
Lemma slot_index_fits (s : BitArray) (j t : Z) :
  wf s -> 0 <= j < m_numSlots s -> 0 <= t < 64 ->
  u32 (u32 (Z.shiftl j 6) + u32 t) = 64 * j + t.
Proof.
  intros Hwf Hj Ht.
  pose proof (wf_numSlots_bound s Hwf) as Hn.
  change (2 ^ 26) with 67108864 in Hn.
  rewrite shiftl6.
  rewrite (u32_small (j * 64)) by (change (2 ^ 32) with 4294967296; lia).
  rewrite (u32_small t) by (change (2 ^ 32) with 4294967296; lia).
  rewrite u32_small by (change (2 ^ 32) with 4294967296; lia). lia.
Qed.

Lemma bit_at_in_slot (s : BitArray) (j w q : Z) :
  0 <= j -> words s !! Z.to_nat j = Some w -> 0 <= q < 64 ->
  bit_at s (64 * j + q) = Z.testbit w q.
Proof.
  intros Hj Hw Hq.
  replace (64 * j + q) with (Z.of_nat (64 * Z.to_nat j) + q) by lia.
  apply bit_at_slot; assumption.
Qed.

(** A position and its slot. *)
Lemma position_split (p : Z) :
  0 <= p -> 0 <= p / 64 /\ 0 <= p mod 64 < 64 /\ p = 64 * (p / 64) + p mod 64.
Proof.
  intros Hp. split; [apply Z.div_pos; lia|].
  split; [apply Z.mod_pos_bound; lia|]. apply Z.div_mod. lia.
Qed.

(** ** The extremal-bit queries *)

Lemma bit_at_zero_slot (s : BitArray) (p : Z) :
  0 <= p -> words s !! Z.to_nat (p / 64) = Some 0 -> bit_at s p = false.
Proof. intros Hp Hw. unfold bit_at. rewrite Hw. apply Z.bits_0. Qed.

Lemma bit_at_full_slot (s : BitArray) (p : Z) :
  0 <= p -> words s !! Z.to_nat (p / 64) = Some UINT64_MAX -> bit_at s p = true.
Proof.
  intros Hp Hw. unfold bit_at. rewrite Hw, testbit_UINT64_MAX.
  destruct (position_split p Hp) as [_ [Hm _]].
  destruct (Z.leb_spec 0 (p mod 64)); [|lia].
  destruct (Z.ltb_spec (p mod 64) 64); [reflexivity|lia].
Qed.

Lemma slot_of_position (s : BitArray) (p : Z) :
  0 <= p < 64 * m_numSlots s -> 0 <= p / 64 < m_numSlots s.
Proof.
  intros Hp. split; [apply Z.div_pos; lia|apply Z.div_lt_upper_bound; lia].
Qed.

(** X6: without padding bits set, [getFirstSetBit()] returns the lowest
    index for which [isSet] is true, and [max()] when there is none. *)
Theorem getFirstSetBit_lowest_set (s : BitArray) :
  wf s -> padding_clear s ->
  exists r,
    getFirstSetBit s = Ok r /\ 0 <= r <= m_max s /\
    (r < m_max s -> isSet s r = Ok true) /\
    (forall p, 0 <= p < r -> isSet s p = Ok false).
Proof.
  intros Hwf Hpad.
  assert (Hmax : 1 <= m_max s) by (destruct Hwf; lia).
  assert (Hlen : (Z.to_nat (m_numSlots s) <= length (words s))%nat)
    by (destruct Hwf; assumption).
  pose proof (wf_numSlots_bound s Hwf) as Hn.
  pose proof (wf_capacity s Hwf) as Hcap.
  unfold getFirstSetBit.
  destruct (first_slot_differing s 0 0 (Z.to_nat (m_numSlots s)))
    as [Hall|[j [w [Hj [Hw [Hne Hzero]]]]]]; [lia|lia| |].
  - exists (m_max s). split; [apply getFirstSetBit_loop_none; [lia|exact Hall]|].
    split; [lia|]. split; [lia|]. intros p Hp.
    rewrite isSet_bit_at by (try exact Hwf; lia). f_equal.
    apply bit_at_zero_slot; [lia|]. apply Hall.
    pose proof (slot_of_position s p ltac:(lia)). lia.
  - rewrite Z2Nat.id in Hj by lia.
    pose proof (wf_word_ok s _ w Hwf Hw) as Hwok.
    destruct (cnttz_lowest_set w Hwok Hne) as [t [Ht [Hset [Hlow Hc]]]].
    assert (Hbit : bit_at s (64 * j + t) = true)
      by (rewrite (bit_at_in_slot s j w t) by (try assumption; lia); exact Hset).
    assert (Hin : 64 * j + t < m_max s).
    { destruct (Z.ltb_spec (64 * j + t) (m_max s)) as [|Hge]; [assumption|].
      rewrite Hpad in Hbit by lia. discriminate. }
    exists (64 * j + t). split.
    { rewrite (getFirstSetBit_loop_found s j w) by (try assumption; lia).
      rewrite Hc, (slot_index_fits s j t) by (try assumption; lia). reflexivity. }
    split; [lia|].
    split; [intros _; rewrite isSet_bit_at by (try exact Hwf; lia); f_equal; exact Hbit|].
    intros p Hp. rewrite isSet_bit_at by (try exact Hwf; lia). f_equal.
    destruct (position_split p ltac:(lia)) as [Hd [Hm Hpe]].
    destruct (Z.eq_dec (p / 64) j) as [E|E].
    + rewrite Hpe, E. rewrite (bit_at_in_slot s j w) by (try assumption; lia).
      apply Hlow. lia.
    + apply bit_at_zero_slot; [lia|]. apply Hzero. lia.
Qed.

(** X7: without padding bits set, [getFirstUnsetBit()] returns the lowest
    index for which [isSet] is false, and [max()] when the domain is
    full. *)
Theorem getFirstUnsetBit_lowest_unset (s : BitArray) :
  wf s -> padding_clear s ->
  exists r,
    getFirstUnsetBit s = Ok r /\ 0 <= r <= m_max s /\
    (r < m_max s -> isSet s r = Ok false) /\
    (forall p, 0 <= p < r -> isSet s p = Ok true).
Proof.
  intros Hwf Hpad.
  assert (Hmax : 1 <= m_max s) by (destruct Hwf; lia).
  assert (Hlen : (Z.to_nat (m_numSlots s) <= length (words s))%nat)
    by (destruct Hwf; assumption).
  pose proof (wf_numSlots_bound s Hwf) as Hn.
  pose proof (wf_capacity s Hwf) as Hcap.
  unfold getFirstUnsetBit.
  destruct (first_slot_differing s UINT64_MAX 0 (Z.to_nat (m_numSlots s)))
    as [Hall|[j [w [Hj [Hw [Hne Hfull]]]]]]; [lia|lia| |].
  - exists (m_max s). split; [apply getFirstUnsetBit_loop_none; [lia|exact Hall]|].
    split; [lia|]. split; [lia|]. intros p Hp.
    rewrite isSet_bit_at by (try exact Hwf; lia). f_equal.
    apply bit_at_full_slot; [lia|]. apply Hall.
    pose proof (slot_of_position s p ltac:(lia)). lia.
  - rewrite Z2Nat.id in Hj by lia.
    pose proof (wf_word_ok s _ w Hwf Hw) as Hwok.
    destruct (lowest_zero_exists w Hwok Hne) as [t [Ht [Hz Hlow]]].
    assert (Hbelow : forall p, 0 <= p < 64 * j + t -> bit_at s p = true).
    { intros p Hp. destruct (position_split p ltac:(lia)) as [Hd [Hm Hpe]].
      destruct (Z.eq_dec (p / 64) j) as [E|E].
      - rewrite Hpe, E. rewrite (bit_at_in_slot s j w) by (try assumption; lia).
        apply Hlow. lia.
      - apply bit_at_full_slot; [lia|]. apply Hfull. lia. }
    assert (Hin : 64 * j + t <= m_max s).
    { destruct (Z.leb_spec (64 * j + t) (m_max s)) as [|Hgt]; [assumption|].
      specialize (Hbelow (m_max s) ltac:(lia)).
      rewrite Hpad in Hbelow by lia. discriminate. }
    exists (64 * j + t). split.
    { rewrite (getFirstUnsetBit_loop_found s j w) by (try assumption; lia).
      rewrite (markFirstUnsetBit_pow2 w t), cnttz_pow2 by (try assumption; lia).
      rewrite (slot_index_fits s j t) by (try assumption; lia). reflexivity. }
    split; [lia|]. split.
    { intros Hlt. rewrite isSet_bit_at by (try exact Hwf; lia). f_equal.
      rewrite (bit_at_in_slot s j w) by (try assumption; lia). exact Hz. }
    intros p Hp. rewrite isSet_bit_at by (try exact Hwf; lia). f_equal.
    apply Hbelow. lia.
Qed.

(** X8: [getFirstUnsetBit()] tells what [setFirst()] hands out next: the
    index [setFirst()] returns is the one [getFirstUnsetBit()] returns, cut
    off at [max()]. *)
Theorem setFirst_takes_getFirstUnsetBit (s : BitArray) :
  wf s ->
  exists r s',
    getFirstUnsetBit s = Ok r /\ setFirst s = Ok (s', Z.min r (m_max s)).
Proof.
  intros Hwf.
  assert (Hlen : (Z.to_nat (m_numSlots s) <= length (words s))%nat)
    by (destruct Hwf; assumption).
  pose proof (wf_numSlots_bound s Hwf) as Hn.
  unfold getFirstUnsetBit, setFirst.
  destruct (first_slot_differing s UINT64_MAX 0 (Z.to_nat (m_numSlots s)))
    as [Hall|[j [w [Hj [Hw [Hne Hfull]]]]]]; [lia|lia| |].
  - exists (m_max s), s.
    split; [apply getFirstUnsetBit_loop_none; [lia|exact Hall]|].
    rewrite Z.min_id. apply setFirst_loop_full; [lia|exact Hall].
  - rewrite Z2Nat.id in Hj by lia.
    pose proof (wf_word_ok s _ w Hwf Hw) as Hwok.
    destruct (setRightmostBit_effect s j w Hwf ltac:(lia) Hw Hne)
      as [t [s' [Ht [Hz [Hlow [Hrun _]]]]]].
    exists (64 * j + t), s'. split.
    + rewrite (getFirstUnsetBit_loop_found s j w) by (try assumption; lia).
      rewrite (markFirstUnsetBit_pow2 w t), cnttz_pow2 by (try assumption; lia).
      rewrite (slot_index_fits s j t) by (try assumption; lia). reflexivity.
    + rewrite (setFirst_loop_skip s j w) by (try assumption; lia). exact Hrun.
Qed.

Lemma setFirst_takes_getFirstUnsetBit_witness :
  exists r s',
    getFirstUnsetBit (mkBitArray 4096 [5; 1] 2 128 0 0) = Ok r /\
    setFirst (mkBitArray 4096 [5; 1] 2 128 0 0)
    = Ok (s', Z.min r (m_max (mkBitArray 4096 [5; 1] 2 128 0 0))).
Proof.
  apply (setFirst_takes_getFirstUnsetBit (mkBitArray 4096 [5; 1] 2 128 0 0)).
  exact wf_128_filled.
Defined.

(** X9: [getLastUnsetBit()] scans for set bits: without padding bits set
    it returns the highest index for which [isSet] is true, and [max()]
    when no index is set. *)
Theorem getLastUnsetBit_returns_highest_set (s : BitArray) :
  wf s -> padding_clear s ->
  exists r,
    getLastUnsetBit s = Ok r /\ 0 <= r <= m_max s /\
    (r < m_max s ->
       isSet s r = Ok true /\
       forall p, r < p < m_max s -> isSet s p = Ok false) /\
    (r = m_max s -> forall p, 0 <= p < m_max s -> isSet s p = Ok false).
Proof.
  intros Hwf Hpad.
  assert (Hmax : 1 <= m_max s) by (destruct Hwf; lia).
  assert (Hlen : (Z.to_nat (m_numSlots s) <= length (words s))%nat)
    by (destruct Hwf; assumption).
  pose proof (wf_numSlots_bound s Hwf) as Hn.
  pose proof (wf_capacity s Hwf) as Hcap.
  unfold getLastUnsetBit.
  destruct (last_slot_nonzero s (Z.to_nat (m_numSlots s)) Hlen)
    as [Hall|[j [w [Hj [Hw [Hne Hzero]]]]]].
  - exists (m_max s). split; [apply getLastUnsetBit_loop_none; exact Hall|].
    split; [lia|]. split; [lia|]. intros _ p Hp.
    rewrite isSet_bit_at by (try exact Hwf; lia). f_equal.
    apply bit_at_zero_slot; [lia|]. apply Hall.
    pose proof (slot_of_position s p ltac:(lia)). lia.
  - assert (Hj' : 0 <= j < m_numSlots s) by lia.
    pose proof (wf_word_ok s _ w Hwf Hw) as Hwok.
    destruct (cntlz_highest_set w Hwok Hne) as [h [Hh [Hset [Hup Hc]]]].
    assert (Hbit : bit_at s (64 * j + h) = true)
      by (rewrite (bit_at_in_slot s j w h) by (try assumption; lia); exact Hset).
    assert (Hin : 64 * j + h < m_max s).
    { destruct (Z.ltb_spec (64 * j + h) (m_max s)) as [|Hge]; [assumption|].
      rewrite Hpad in Hbit by lia. discriminate. }
    exists (64 * j + h). split.
    { rewrite (getLastUnsetBit_loop_found s j w) by (try assumption; lia).
      rewrite Hc.
      rewrite (u32_small (63 - h)) by (change (2 ^ 32) with 4294967296; lia).
      replace (63 - (63 - h)) with h by lia.
      rewrite (slot_index_fits s j h) by (try assumption; lia). reflexivity. }
    split; [lia|]. split; [|lia]. intros _.
    split; [rewrite isSet_bit_at by (try exact Hwf; lia); f_equal; exact Hbit|].
    intros p Hp. rewrite isSet_bit_at by (try exact Hwf; lia). f_equal.
    destruct (position_split p ltac:(lia)) as [Hd [Hm Hpe]].
    destruct (Z.eq_dec (p / 64) j) as [E|E].
    + rewrite Hpe, E. rewrite (bit_at_in_slot s j w) by (try assumption; lia).
      apply Hup. lia.
    + apply bit_at_zero_slot; [lia|]. apply Hzero.
      pose proof (slot_of_position s p ltac:(lia)). lia.
Qed.

Lemma getFirstSetBit_lowest_set_witness :
  exists r,
    getFirstSetBit (mkBitArray 4096 [5; 1] 2 128 0 0) = Ok r /\
    0 <= r <= m_max (mkBitArray 4096 [5; 1] 2 128 0 0) /\
    (r < m_max (mkBitArray 4096 [5; 1] 2 128 0 0) ->
       isSet (mkBitArray 4096 [5; 1] 2 128 0 0) r = Ok true) /\
    (forall p, 0 <= p < r -> isSet (mkBitArray 4096 [5; 1] 2 128 0 0) p = Ok false).
Proof.
  apply (getFirstSetBit_lowest_set (mkBitArray 4096 [5; 1] 2 128 0 0)).
  - exact wf_128_filled.
  - exact padding_clear_128.
Defined.

Lemma getFirstUnsetBit_lowest_unset_witness :
  exists r,
    getFirstUnsetBit (mkBitArray 4096 [5; 1] 2 128 0 0) = Ok r /\
    0 <= r <= m_max (mkBitArray 4096 [5; 1] 2 128 0 0) /\
    (r < m_max (mkBitArray 4096 [5; 1] 2 128 0 0) ->
       isSet (mkBitArray 4096 [5; 1] 2 128 0 0) r = Ok false) /\
    (forall p, 0 <= p < r -> isSet (mkBitArray 4096 [5; 1] 2 128 0 0) p = Ok true).
Proof.
  apply (getFirstUnsetBit_lowest_unset (mkBitArray 4096 [5; 1] 2 128 0 0)).
  - exact wf_128_filled.
  - exact padding_clear_128.
Defined.

Lemma getLastUnsetBit_returns_highest_set_witness :
  exists r,
    getLastUnsetBit (mkBitArray 4096 [5; 1] 2 128 0 0) = Ok r /\
    0 <= r <= m_max (mkBitArray 4096 [5; 1] 2 128 0 0) /\
    (r < m_max (mkBitArray 4096 [5; 1] 2 128 0 0) ->
       isSet (mkBitArray 4096 [5; 1] 2 128 0 0) r = Ok true /\
       forall p, r < p < m_max (mkBitArray 4096 [5; 1] 2 128 0 0) ->
         isSet (mkBitArray 4096 [5; 1] 2 128 0 0) p = Ok false) /\
    (r = m_max (mkBitArray 4096 [5; 1] 2 128 0 0) ->
       forall p, 0 <= p < m_max (mkBitArray 4096 [5; 1] 2 128 0 0) ->
         isSet (mkBitArray 4096 [5; 1] 2 128 0 0) p = Ok false).
Proof.
  apply (getLastUnsetBit_returns_highest_set (mkBitArray 4096 [5; 1] 2 128 0 0)).
  - exact wf_128_filled.
  - exact padding_clear_128.
Defined.

(** ** A prefix of ones, seen through the queries *)

Lemma count_upto_ltb (k : Z) (n : nat) :
  0 <= k -> count_upto (fun p => p <? k) n = Z.min k (Z.of_nat n).
Proof.
  intros Hk. induction n as [|n IH]; [simpl; lia|].
  cbn [count_upto]. rewrite IH.
  destruct (Z.ltb_spec (Z.of_nat n) k); lia.
Qed.

Lemma prefix_filled_slot (k : Z) (s : BitArray) (j : Z) :
  prefix_filled k s -> 0 <= j < m_numSlots s ->
  words s !! Z.to_nat j = Some (Z.ones (Z.max 0 (Z.min 64 (k - 64 * j)))).
Proof.
  intros Hfill Hj. rewrite Hfill by lia. rewrite Z2Nat.id by lia. reflexivity.
Qed.

(** With the first [k] bits set and no other, bit [p] of the slots is set
    exactly when [p < k]. *)
Lemma prefix_filled_bit_at (k : Z) (s : BitArray) (p : Z) :
  prefix_filled k s -> 0 <= p < 64 * m_numSlots s ->
  bit_at s p = (p <? k).
Proof.
  intros Hfill Hp.
  destruct (position_split p ltac:(lia)) as [Hd [Hm Hpe]].
  pose proof (slot_of_position s p Hp) as Hslot.
  unfold bit_at. rewrite (prefix_filled_slot k s (p / 64) Hfill Hslot).
  rewrite Z.testbit_ones_nonneg by lia.
  destruct (Z.ltb_spec (p mod 64) (Z.max 0 (Z.min 64 (k - 64 * (p / 64)))));
    destruct (Z.ltb_spec p k); try reflexivity; lia.
Qed.

Lemma ones_lowest_zero (r : Z) :
  0 <= r < 64 ->
  Z.testbit (Z.ones r) r = false /\
  forall q, 0 <= q < r -> Z.testbit (Z.ones r) q = true.
Proof.
  intros Hr. split.
  - rewrite Z.testbit_ones_nonneg by lia. apply Z.ltb_irrefl.
  - intros q Hq. rewrite Z.testbit_ones_nonneg by lia. apply Z.ltb_lt. lia.
Qed.

Lemma ones_nonzero (r : Z) : 0 < r -> Z.ones r <> 0.
Proof.
  intros Hr. rewrite Z.ones_equiv.
  assert (2 ^ 1 <= 2 ^ r) by (apply Z.pow_le_mono_r; lia).
  change (2 ^ 1) with 2 in *. lia.
Qed.

(** The queries on a prefix of [k] ones, [k <= max()]. *)
Lemma queries_on_prefix (s : BitArray) (k : Z) :
  wf s -> prefix_filled k s -> 0 <= k <= m_max s ->
  doCount s = Ok k /\
  getLastSetBit s = Ok k /\
  getFirstUnsetBit s = Ok k /\
  (forall p, 0 <= p < m_max s -> isSet s p = Ok (p <? k)).
Proof.
  intros Hwf Hfill Hk.
  assert (Hmax : 1 <= m_max s < 2 ^ 32) by (destruct Hwf; assumption).
  change (2 ^ 32) with 4294967296 in Hmax.
  assert (Hlen : (Z.to_nat (m_numSlots s) <= length (words s))%nat)
    by (destruct Hwf; assumption).
  pose proof (wf_numSlots_bound s Hwf) as Hn.
  change (2 ^ 26) with 67108864 in Hn.
  pose proof (wf_capacity s Hwf) as Hcap.
  destruct (position_split k ltac:(lia)) as [Hq [Hr Hke]].
  set (q := k / 64) in *. set (r := k mod 64) in *.
  split; [|split; [|split]].
  - unfold doCount.
    rewrite doCount_loop_sum by (change (2 ^ 64) with 18446744073709551616; lia).
    rewrite bind_Ok_l, Z.add_0_l. f_equal.
    rewrite (count_upto_ext (bit_at s) (fun p => p <? k))
      by (intros i Hi; apply prefix_filled_bit_at; [exact Hfill|lia]).
    rewrite count_upto_ltb by lia. rewrite Z.min_l by lia.
    apply u32_small. change (2 ^ 32) with 4294967296. lia.
  - unfold getLastSetBit.
    destruct (Z.eq_dec k 0) as [Ek|Ek].
    { rewrite Ek. apply getLastSetBit_loop_empty. intros j Hj.
      rewrite <- (Nat2Z.id j). rewrite (prefix_filled_slot k s) by (try assumption; lia).
      replace (Z.max 0 (Z.min 64 (k - 64 * Z.of_nat j))) with 0 by lia. reflexivity. }
    destruct (Z.eq_dec r 0) as [Er|Er].
    + rewrite (getLastSetBit_loop_full s (Z.to_nat (q - 1))).
      * rewrite Z2Nat.id by lia. replace (q - 1 + 1) with q by lia.
        rewrite (u32_small q) by (change (2 ^ 32) with 4294967296; lia).
        rewrite shiftl6.
        rewrite u32_small by (change (2 ^ 32) with 4294967296; lia).
        f_equal. lia.
      * lia.
      * rewrite (prefix_filled_slot k s) by (try assumption; lia).
        replace (Z.max 0 (Z.min 64 (k - 64 * (q - 1)))) with 64 by lia. reflexivity.
      * intros j Hj. rewrite <- (Nat2Z.id j).
        rewrite (prefix_filled_slot k s) by (try assumption; lia).
        replace (Z.max 0 (Z.min 64 (k - 64 * Z.of_nat j))) with 0 by lia. reflexivity.
    + destruct (ones_lt_64 r Hr) as [_ Hnf].
      destruct (ones_lowest_zero r Hr) as [Hz Hlow].
      rewrite (getLastSetBit_loop_partial s q (Z.ones r)).
      * rewrite (markFirstUnsetBit_pow2 (Z.ones r) r), cntlz_pow2;
          [|exact Hr|apply ones_lt_64; exact Hr|exact Hr|exact Hz|exact Hlow].
        rewrite (u32_small (63 - r)) by (change (2 ^ 32) with 4294967296; lia).
        replace (63 - (63 - r)) with r by lia.
        rewrite (slot_index_fits s q r) by (try assumption; lia). f_equal. lia.
      * lia.
      * intros i Hi. rewrite (prefix_filled_slot k s) by (try assumption; lia).
        replace (Z.max 0 (Z.min 64 (k - 64 * i))) with 0 by lia. reflexivity.
      * rewrite (prefix_filled_slot k s) by (try assumption; lia).
        replace (Z.max 0 (Z.min 64 (k - 64 * q))) with r by lia. reflexivity.
      * apply ones_nonzero. lia.
      * exact Hnf.
  - unfold getFirstUnsetBit.
    destruct (Z.eq_dec k (64 * m_numSlots s)) as [Efull|Eroom].
    + replace k with (m_max s) by lia.
      apply getFirstUnsetBit_loop_none; [lia|]. intros i Hi.
      rewrite (prefix_filled_slot k s) by (try assumption; lia).
      replace (Z.max 0 (Z.min 64 (k - 64 * i))) with 64 by lia. reflexivity.
    + destruct (ones_lt_64 r Hr) as [_ Hnf].
      destruct (ones_lowest_zero r Hr) as [Hz Hlow].
      rewrite (getFirstUnsetBit_loop_found s q (Z.ones r)).
      * rewrite (markFirstUnsetBit_pow2 (Z.ones r) r), cnttz_pow2;
          [|exact Hr|apply ones_lt_64; exact Hr|exact Hr|exact Hz|exact Hlow].
        rewrite (slot_index_fits s q r) by (try assumption; lia). f_equal. lia.
      * lia.
      * lia.
      * intros i Hi. rewrite (prefix_filled_slot k s) by (try assumption; lia).
        replace (Z.max 0 (Z.min 64 (k - 64 * i))) with 64 by lia. reflexivity.
      * rewrite (prefix_filled_slot k s) by (try assumption; lia).
        replace (Z.max 0 (Z.min 64 (k - 64 * q))) with r by lia. reflexivity.
      * exact Hnf.
  - intros p Hp. rewrite isSet_bit_at by (try exact Hwf; lia). f_equal.
    apply prefix_filled_bit_at; [exact Hfill|lia].
Qed.

(** X10: after [n <= max()] calls of [setFirst()] on a reset array, exactly
    the indices below [n] are set, and [doCount()], [getLastSetBit()] and
    [getFirstUnsetBit()] all return [n]. *)
Theorem queries_after_setFirst_calls (s : BitArray) (n : nat) :
  wf s -> is_reset s -> Z.of_nat n <= m_max s ->
  exists s' rs,
    setFirst_times n s = Ok (s', rs) /\
    doCount s' = Ok (Z.of_nat n) /\
    getLastSetBit s' = Ok (Z.of_nat n) /\
    getFirstUnsetBit s' = Ok (Z.of_nat n) /\
    (forall p, 0 <= p < m_max s -> isSet s' p = Ok (p <? Z.of_nat n)).
Proof.
  intros Hwf Hreset Hn.
  destruct (setFirst_times_prefix n s 0 Hwf (is_reset_prefix_filled s Hreset)
              ltac:(lia) ltac:(lia))
    as [s' [Hrun [Hwf' [Hfill' [Hmax' Hn']]]]].
  rewrite Z.add_0_l in Hfill'.
  destruct (queries_on_prefix s' (Z.of_nat n) Hwf' Hfill' ltac:(lia))
    as [Hc [Hl [Hf Hi]]].
  exists s'. eexists. split; [exact Hrun|].
  split; [exact Hc|]. split; [exact Hl|]. split; [exact Hf|].
  intros p Hp. apply Hi. lia.
Qed.

Lemma queries_after_setFirst_calls_witness :
  exists s' rs,
    setFirst_times 70 (mkBitArray 4096 [0; 0] 2 100 0 0) = Ok (s', rs) /\
    doCount s' = Ok (Z.of_nat 70) /\
    getLastSetBit s' = Ok (Z.of_nat 70) /\
    getFirstUnsetBit s' = Ok (Z.of_nat 70) /\
    (forall p, 0 <= p < m_max (mkBitArray 4096 [0; 0] 2 100 0 0) ->
       isSet s' p = Ok (p <? Z.of_nat 70)).
Proof.
  apply (queries_after_setFirst_calls (mkBitArray 4096 [0; 0] 2 100 0 0) 70).
  - exact wf_100.
  - exact is_reset_100.
  - simpl. lia.
Defined.

(** ** [reset] and the [init] functions *)

(** X11: [reset()] succeeds on every well-formed array; afterwards the
    cursor is 0, [isSet] is false on the whole domain, [doCount()] is 0,
    [getFirstSetBit()] and [getLastUnsetBit()] return [max()] (no set
    bit), [getLastSetBit()] returns 0, and [getFirstUnsetBit()] returns 0,
    the first free index. *)
Theorem reset_clears_everything (s : BitArray) :
  wf s ->
  exists s',
    reset s = Ok s' /\ wf s' /\ m_last s' = 0 /\ m_max s' = m_max s /\
    (forall p, 0 <= p < m_max s -> isSet s' p = Ok false) /\
    doCount s' = Ok 0 /\
    getFirstSetBit s' = Ok (m_max s) /\ getLastUnsetBit s' = Ok (m_max s) /\
    getLastSetBit s' = Ok 0 /\ getFirstUnsetBit s' = Ok 0.
Proof.
  intros Hwf.
  destruct (reset_runs s Hwf) as [s' [Hrun [Hwf' Hreset]]].
  assert (Hmax : m_max s' = m_max s).
  { unfold reset in Hrun. inv_bind. reflexivity. }
  pose proof (is_reset_prefix_filled s' Hreset) as Hfill.
  assert (Hk : 0 <= 0 <= m_max s') by (destruct Hwf'; lia).
  destruct (queries_on_prefix s' 0 Hwf' Hfill Hk) as [Hc [Hl [Hf Hi]]].
  destruct Hreset as [Hlast Hzero].
  assert (Hz : forall i, 0 <= i < 0 + Z.of_nat (Z.to_nat (m_numSlots s')) ->
            words s' !! Z.to_nat i = Some 0)
    by (intros i Hi'; apply Hzero; lia).
  exists s'. split; [exact Hrun|]. split; [exact Hwf'|]. split; [exact Hlast|].
  split; [exact Hmax|].
  split; [intros p Hp; rewrite Hi by lia; f_equal; apply Z.ltb_ge; lia|].
  split; [exact Hc|].
  split; [rewrite <- Hmax; apply getFirstSetBit_loop_none; [lia|exact Hz]|].
  split; [rewrite <- Hmax; apply getLastUnsetBit_loop_none;
          intros i Hi'; apply Hz; lia|].
  split; [exact Hl|exact Hf].
Qed.

Lemma reset_clears_everything_witness :
  exists s',
    reset (mkBitArray 4096 [5; 0; 2] 3 130 0 0) = Ok s' /\ wf s' /\
    m_last s' = 0 /\ m_max s' = m_max (mkBitArray 4096 [5; 0; 2] 3 130 0 0) /\
    (forall p, 0 <= p < m_max (mkBitArray 4096 [5; 0; 2] 3 130 0 0) ->
       isSet s' p = Ok false) /\
    doCount s' = Ok 0 /\
    getFirstSetBit s' = Ok (m_max (mkBitArray 4096 [5; 0; 2] 3 130 0 0)) /\
    getLastUnsetBit s' = Ok (m_max (mkBitArray 4096 [5; 0; 2] 3 130 0 0)) /\
    getLastSetBit s' = Ok 0 /\ getFirstUnsetBit s' = Ok 0.
Proof.
  apply (reset_clears_everything (mkBitArray 4096 [5; 0; 2] 3 130 0 0)).
  exact wf_130.
Defined.

(** X12: [BitArrayExt::init] and [BitArray::init] for a capacity of at
    least one bit, on memory of at least [ceil(max/64)] words whatever it
    holds, give a well-formed array in the reset state; the owning variant
    asks the allocator for [ceil(max/64) * 8] bytes. *)
Theorem init_gives_reset_array (s0 : BitArray) (_max mem fn : Z) (buf : list Z) :
  1 <= _max < 2 ^ 32 -> 0 <= m_last s0 < 2 ^ 32 ->
  Forall word_ok buf -> (Z.to_nat (ceil_div64 _max) <= length buf)%nat ->
  (exists s ret,
     BitArrayExt_init s0 _max mem buf = Ok (s, ret) /\
     wf s /\ is_reset s /\ m_max s = _max /\ m_bits s = mem) /\
  (exists s,
     BitArray_init s0 _max fn mem buf
     = Ok (s, [EvAlloc (ceil_div64 _max * sizeof_u64) fn]) /\
     wf s /\ is_reset s /\ m_max s = _max /\ m_bits s = mem /\ m_reallocFn s = fn).
Proof.
  intros Hmax Hlast Hbuf Hlen.
  rewrite ceil_div64_pos in *. rewrite <- (numSlotsFor_pos _max Hmax) in *.
  assert (Hsize : BitArrayStorage_sizeFor _max
                  = BitArrayStorageExt_numSlotsFor _max * sizeof_u64).
  { unfold BitArrayStorage_sizeFor.
    change (BitArrayStorage_numSlotsFor _max) with (BitArrayStorageExt_numSlotsFor _max).
    rewrite (numSlotsFor_pos _max Hmax).
    assert (0 <= (_max - 1) / 64) by (apply Z.div_pos; lia).
    assert ((_max - 1) / 64 < 2 ^ 26).
    { apply Z.div_lt_upper_bound; [lia|]. change (64 * 2 ^ 26) with (2 ^ 32). lia. }
    apply u32_small. unfold sizeof_u64. change (2 ^ 26) with 67108864 in *.
    change (2 ^ 32) with 4294967296. lia. }
  split.
  - assert (Hwf1 : wf (mkBitArray mem buf (BitArrayStorageExt_numSlotsFor _max) _max
                         (m_reallocFn s0) (m_last s0)))
      by (constructor; cbn [m_max m_numSlots words m_last]; auto).
    destruct (reset_runs _ Hwf1) as [s [Hrun [Hwf Hreset]]].
    exists s. eexists. unfold BitArrayExt_init, BitArrayStorageExt_init.
    rewrite Hrun, bind_Ok_l. split; [reflexivity|].
    split; [exact Hwf|]. split; [exact Hreset|].
    unfold reset in Hrun. inv_bind. split; reflexivity.
  - assert (Hwf1 : wf (mkBitArray mem buf (BitArrayStorageExt_numSlotsFor _max) _max
                         fn (m_last s0)))
      by (constructor; cbn [m_max m_numSlots words m_last]; auto).
    destruct (reset_runs _ Hwf1) as [s [Hrun [Hwf Hreset]]].
    exists s. unfold BitArray_init, BitArrayStorage_init.
    change (BitArrayStorage_numSlotsFor _max) with (BitArrayStorageExt_numSlotsFor _max).
    rewrite Hrun, bind_Ok_l, Hsize. split; [reflexivity|].
    split; [exact Hwf|]. split; [exact Hreset|].
    unfold reset in Hrun. inv_bind. repeat split.
Qed.

Lemma init_gives_reset_array_witness :
  (exists s ret,
     BitArrayExt_init (BitArrayStorage_ctor 0 0) 100 4096 [7; 9] = Ok (s, ret) /\
     wf s /\ is_reset s /\ m_max s = 100 /\ m_bits s = 4096) /\
  (exists s,
     BitArray_init (BitArrayStorage_ctor 0 0) 100 77 4096 [7; 9]
     = Ok (s, [EvAlloc (ceil_div64 100 * sizeof_u64) 77]) /\
     wf s /\ is_reset s /\ m_max s = 100 /\ m_bits s = 4096 /\ m_reallocFn s = 77).
Proof.
  apply (init_gives_reset_array (BitArrayStorage_ctor 0 0) 100 4096 77 [7; 9]).
  - lia.
  - simpl. lia.
  - apply Forall_cons; split; [unfold word_ok; lia|].
    apply Forall_cons; split; [unfold word_ok; lia|].
    apply Forall_nil. exact I.
  - vm_compute. lia.
Defined.

(** ** [reset(_startBucket, _endBucket)] *)

Lemma memset_words_overrun (n : nat) (ws : list Z) (start v : Z) :
  0 <= start -> (Z.to_nat start <= length ws < Z.to_nat start + n)%nat ->
  memset_words ws start v n = Err OutOfBounds.
Proof.
  revert ws start. induction n as [|n IH]; intros ws start Hs Hlen; [lia|].
  cbn [memset_words]. unfold store.
  destruct (decide (Z.to_nat start < length ws)%nat) as [Hin|Hout]; [|reflexivity].
  rewrite bind_Ok_l. apply IH; [lia|]. rewrite length_insert. lia.
Qed.

(** X13: [reset(a, b)] with [a <= b <= numSlots()] succeeds on every
    well-formed array, zeroes the cursor and exactly the words [a .. b-1]:
    [isSet] becomes false on their indices and keeps its answer everywhere
    else.  [reset(c, d)] with [d < c <= numSlots()] makes the word count
    wrap around and, on a buffer of fewer than [2^32] words, the [memset]
    leaves the buffer. *)
Theorem reset_range_clears_words (s : BitArray) :
  wf s ->
  (forall a b, 0 <= a <= b -> b <= m_numSlots s ->
     exists s',
       reset_range s a b = Ok s' /\ wf s' /\ m_last s' = 0 /\
       forall p, 0 <= p < m_max s ->
         isSet s' p = if (a <=? p / 64) && (p / 64 <? b) then Ok false else isSet s p) /\
  (forall c d, 0 <= d < c -> c <= m_numSlots s ->
     Z.of_nat (length (words s)) < 2 ^ 32 ->
     reset_range s c d = Err OutOfBounds).
Proof.
  intros Hwf.
  pose proof (wf_numSlots_bound s Hwf) as Hn.
  change (2 ^ 26) with 67108864 in Hn.
  assert (Hlen : (Z.to_nat (m_numSlots s) <= length (words s))%nat)
    by (destruct Hwf; assumption).
  split.
  - intros a b Hab Hb.
    assert (Ha : 0 <= a) by lia.
    unfold reset_range. cbn [with_last words].
    rewrite (u32_small (b - a)) by (change (2 ^ 32) with 4294967296; lia).
    destruct (memset_words_in_bounds (Z.to_nat (b - a)) (words s) a 0)
      as [ws Hm]; [lia|lia|].
    rewrite Hm, bind_Ok_l.
    assert (H0 : 0 <= 0 < 2 ^ 32) by lia.
    destruct (memset_zero_keeps s a _ ws 0 Hwf Ha H0 Hm) as [Hwf' _].
    eexists. split; [reflexivity|]. split; [exact Hwf'|]. split; [reflexivity|].
    intros p Hp.
    rewrite isSet_bit_at by (try exact Hwf'; exact Hp).
    rewrite isSet_bit_at by (try exact Hwf; exact Hp).
    unfold bit_at. cbn [with_last with_words words].
    rewrite (memset_words_lookup _ _ _ _ _ (Z.to_nat (p / 64)) Ha Hm).
    assert (0 <= p / 64) by (apply Z.div_pos; lia).
    destruct (decide _) as [Hin|Hout];
      destruct (Z.leb_spec a (p / 64)); destruct (Z.ltb_spec (p / 64) b);
      cbn [andb]; try lia; try reflexivity.
    rewrite Z.bits_0. reflexivity.
  - intros c d Hdc Hc Hsmall.
    change (2 ^ 32) with 4294967296 in Hsmall.
    unfold reset_range. cbn [with_last words].
    rewrite memset_words_overrun; [reflexivity|lia|].
    unfold u32.
    replace ((d - c) mod 2 ^ 32) with (d - c + 2 ^ 32).
    + change (2 ^ 32) with 4294967296. lia.
    + apply Z.mod_unique with (-1); change (2 ^ 32) with 4294967296; lia.
Qed.

Lemma wf_130_long : wf (mkBitArray 4096 [5; 0; 2; 7; 9] 3 130 0 0).
Proof.
  constructor; cbn [m_max m_numSlots words m_last].
  - lia.
  - reflexivity.
  - simpl. lia.
  - repeat (apply Forall_cons; split; [unfold word_ok; lia|]).
    apply Forall_nil. exact I.
  - lia.
Defined.

Lemma reset_range_clears_words_witness :
  (exists s',
     reset_range (mkBitArray 4096 [5; 0; 2; 7; 9] 3 130 0 0) 0 1 = Ok s' /\ wf s' /\
     m_last s' = 0 /\
     forall p, 0 <= p < m_max (mkBitArray 4096 [5; 0; 2; 7; 9] 3 130 0 0) ->
       isSet s' p = if (0 <=? p / 64) && (p / 64 <? 1) then Ok false
                    else isSet (mkBitArray 4096 [5; 0; 2; 7; 9] 3 130 0 0) p) /\
  reset_range (mkBitArray 4096 [5; 0; 2; 7; 9] 3 130 0 0) 2 1 = Err OutOfBounds.
Proof.
  destruct (reset_range_clears_words (mkBitArray 4096 [5; 0; 2; 7; 9] 3 130 0 0)
              wf_130_long) as [Hclear Hwrap].
  split.
  - apply (Hclear 0 1); [lia|simpl; lia].
  - apply (Hwrap 2 1); [lia|simpl; lia|simpl; lia].
Defined.

(** ** Life cycle of the storage *)

(** X14: a sparse set set up on caller-supplied memory starts empty and
    never frees: [destroy()] releases nothing and leaves the set as it
    was, so that it stays initialized whenever the memory address is not
    null. *)
Theorem external_set_is_never_freed (s0 : SparseSet.t) (_max _mem _allocator : Z) :
  SparseSet.m_num (fst (SparseSet.init_mem s0 _max _mem _allocator)) = 0 /\
  SparseSet.m_max (fst (SparseSet.init_mem s0 _max _mem _allocator)) = _max /\
  SparseSet.destroy (fst (SparseSet.init_mem s0 _max _mem _allocator))
  = (fst (SparseSet.init_mem s0 _max _mem _allocator), []) /\
  SparseSet.isInitialized (fst (SparseSet.init_mem s0 _max _mem _allocator))
  = negb (NULL =? _mem).
Proof.
  cbn [SparseSet.init_mem fst]. repeat split.
Qed.

(** X15: an owning sparse set asks for [4 * max] bytes and an owning bit
    array for [sizeFor(max)] bytes; when the allocation succeeded,
    [destroy()] frees exactly the address received, with the allocator
    given to [init], and the instance is uninitialized afterwards. *)
Theorem owned_storage_frees_what_it_allocated
    (s0 : SparseSet.t) (b0 : BitArray) (smax bmax alloc mem : Z) (buf : list Z) :
  0 <= smax < 2 ^ 16 -> mem <> NULL ->
  (let '(st, ev) := SparseSet.init_realloc s0 smax alloc mem in
   ev = [EvAlloc (4 * smax) alloc] /\ SparseSet.isInitialized st = true /\
   SparseSet.m_num st = 0 /\
   snd (SparseSet.destroy st) = [EvFree mem alloc] /\
   SparseSet.isInitialized (fst (SparseSet.destroy st)) = false) /\
  (let '(ba, ev) := BitArrayStorage_init b0 bmax alloc mem buf in
   ev = [EvAlloc (BitArrayStorage_sizeFor bmax) alloc] /\
   snd (BitArrayStorage_destroy ba) = [EvFree mem alloc] /\
   m_bits (fst (BitArrayStorage_destroy ba)) = NULL).
Proof.
  intros Hmax Hmem.
  assert (Hne : (NULL =? mem) = false) by (apply Z.eqb_neq; congruence).
  split.
  - cbn [SparseSet.init_realloc]. unfold SparseSet.isInitialized, SparseSet.destroy.
    cbn [SparseSet.m_values SparseSet.m_cleanup SparseSet.m_num SparseSet.m_allocator].
    rewrite Hne. cbn [negb andb fst snd SparseSet.m_values].
    split.
    { unfold SparseSet.sizeFor, SparseSet.SizePerElement, sizeof_u16.
      rewrite u32_small by (change (2 ^ 32) with 4294967296;
                            change (2 ^ 16) with 65536 in Hmax; lia).
      f_equal. f_equal. lia. }
    repeat split.
  - cbn [BitArrayStorage_init]. unfold BitArrayStorage_destroy.
    cbn [m_bits m_reallocFn]. rewrite Hne. cbn [negb fst snd m_bits].
    repeat split.
Qed.

Lemma owned_storage_frees_what_it_allocated_witness :
  (let '(st, ev) := SparseSet.init_realloc (SparseSet.ctor 0 0 0 false) 8 77 4096 in
   ev = [EvAlloc (4 * 8) 77] /\ SparseSet.isInitialized st = true /\
   SparseSet.m_num st = 0 /\
   snd (SparseSet.destroy st) = [EvFree 4096 77] /\
   SparseSet.isInitialized (fst (SparseSet.destroy st)) = false) /\
  (let '(ba, ev) := BitArrayStorage_init (BitArrayStorage_ctor 0 0) 128 77 4096 [0; 0] in
   ev = [EvAlloc (BitArrayStorage_sizeFor 128) 77] /\
   snd (BitArrayStorage_destroy ba) = [EvFree 4096 77] /\
   m_bits (fst (BitArrayStorage_destroy ba)) = NULL).
Proof.
  apply (owned_storage_frees_what_it_allocated
           (SparseSet.ctor 0 0 0 false) (BitArrayStorage_ctor 0 0) 8 128 77 4096 [0; 0]).
  - lia.
  - unfold NULL. lia.
Defined.

(** ** The masks and the effect of [setRange] and [unsetRange] *)

(** A property checked on each of the 64 bit positions holds on all of
    them. *)
Lemma forall_bit_positions (P : Z -> bool) :
  forallb (fun n => P (Z.of_nat n)) (seq 0 64) = true ->
  forall r, 0 <= r < 64 -> P r = true.
Proof.
  intros H r Hr. rewrite forallb_forall in H.
  specialize (H (Z.to_nat r)). rewrite Z2Nat.id in H by lia.
  apply H. apply in_seq. lia.
Qed.

(** The six right shifts spread bit [r] over the positions [0 .. r]. *)
Lemma smear_down_pow2 (r : Z) :
  0 <= r < 64 -> smear_down (2 ^ r) = Z.ones (r + 1).
Proof.
  intros Hr. apply Z.eqb_eq.
  apply (forall_bit_positions (fun r => smear_down (2 ^ r) =? Z.ones (r + 1)));
    [vm_compute; reflexivity|exact Hr].
Qed.

(** The six left shifts spread bit [r] over the positions [r .. 63]. *)
Lemma smear_up_pow2 (r : Z) :
  0 <= r < 64 -> smear_up (2 ^ r) = Z.shiftl (Z.ones (64 - r)) r.
Proof.
  intros Hr. apply Z.eqb_eq.
  apply (forall_bit_positions
           (fun r => smear_up (2 ^ r) =? Z.shiftl (Z.ones (64 - r)) r));
    [vm_compute; reflexivity|exact Hr].
Qed.

Lemma testbit_begin_mask (a q : Z) :
  0 <= q < 64 -> Z.testbit (smear_down (bit_mask a)) q = (q <=? a mod 64).
Proof.
  intros Hq. pose proof (Z.mod_pos_bound a 64 ltac:(lia)) as Hm.
  rewrite bit_mask_pow2, smear_down_pow2 by exact Hm.
  rewrite Z.testbit_ones_nonneg by lia.
  destruct (Z.ltb_spec q (a mod 64 + 1)); destruct (Z.leb_spec q (a mod 64));
    try reflexivity; lia.
Qed.

Lemma testbit_end_mask (b q : Z) :
  0 <= q < 64 -> Z.testbit (smear_up (bit_mask b)) q = (b mod 64 <=? q).
Proof.
  intros Hq. pose proof (Z.mod_pos_bound b 64 ltac:(lia)) as Hm.
  rewrite bit_mask_pow2, smear_up_pow2 by exact Hm.
  destruct (Z.leb_spec (b mod 64) q).
  - rewrite Z.shiftl_spec by lia. rewrite Z.testbit_ones_nonneg by lia.
    apply Z.ltb_lt. lia.
  - rewrite Z.shiftl_spec by lia. apply Z.testbit_neg_r. lia.
Qed.

Lemma word_ok_ones (n : Z) : 0 <= n <= 64 -> word_ok (Z.ones n).
Proof.
  intros Hn. apply word_ok_bits. intros p Hp.
  destruct (Z.ltb_spec p 0) as [Hneg|Hnn].
  { rewrite Z.testbit_neg_r in Hp by exact Hneg. discriminate. }
  rewrite Z.testbit_ones_nonneg in Hp by lia. apply Z.ltb_lt in Hp. lia.
Qed.

Lemma word_ok_begin_mask (a : Z) : word_ok (smear_down (bit_mask a)).
Proof.
  pose proof (Z.mod_pos_bound a 64 ltac:(lia)) as Hm.
  rewrite bit_mask_pow2, smear_down_pow2 by exact Hm.
  apply word_ok_ones. lia.
Qed.

Lemma word_ok_end_mask (b : Z) : word_ok (smear_up (bit_mask b)).
Proof.
  pose proof (Z.mod_pos_bound b 64 ltac:(lia)) as Hm.
  rewrite bit_mask_pow2, smear_up_pow2 by exact Hm.
  apply word_ok_bits. intros p Hp.
  destruct (Z.ltb_spec p 0) as [Hneg|Hnn].
  { rewrite Z.testbit_neg_r in Hp by exact Hneg. discriminate. }
  rewrite Z.shiftl_spec in Hp by lia.
  destruct (Z.ltb_spec (p - b mod 64) 0) as [Hneg|Hnn'].
  { rewrite Z.testbit_neg_r in Hp by exact Hneg. discriminate. }
  rewrite Z.testbit_ones_nonneg in Hp by lia. apply Z.ltb_lt in Hp. lia.
Qed.

Lemma word_ok_UINT64_MAX : word_ok UINT64_MAX.
Proof. unfold word_ok, UINT64_MAX. lia. Qed.

(** The buffer after the two boundary stores and the [memset] of a range
    operation. *)
Lemma range_words_lookup (ws ws3 : list Z) (ja jb x1 x2 v : Z) (j : nat) :
  0 <= ja <= jb ->
  (Z.to_nat jb < length ws)%nat ->
  memset_words (<[Z.to_nat jb := x2]> (<[Z.to_nat ja := x1]> ws)) ja v
    (Z.to_nat (jb - ja)) = Ok ws3 ->
  ws3 !! j =
    if decide (ja <= Z.of_nat j < jb) then Some v
    else if decide (Z.of_nat j = jb) then Some x2
    else ws !! j.
Proof.
  intros Hj Hlen Hm.
  rewrite (memset_words_lookup _ _ _ _ _ j (proj1 Hj) Hm).
  destruct (decide (Z.to_nat ja <= j < Z.to_nat ja + Z.to_nat (jb - ja))%nat);
    destruct (decide (ja <= Z.of_nat j < jb)); try lia; [reflexivity|].
  destruct (decide (Z.of_nat j = jb)) as [E|E].
  - replace j with (Z.to_nat jb) by lia.
    apply list_lookup_insert_eq. rewrite length_insert. exact Hlen.
  - rewrite !list_lookup_insert_ne by lia. reflexivity.
Qed.

(** Whether a position of word [j] counts as touched, by its offset. *)
Lemma range_touched_by_offset (a b p : Z) :
  0 <= a -> a <= b -> 0 <= p ->
  range_touched a b p =
    ((a / 64 <=? p / 64) && (p / 64 <? b / 64))
    || ((p / 64 =? a / 64) && (p mod 64 <=? a mod 64))
    || ((p / 64 =? b / 64) && (b mod 64 <=? p mod 64)).
Proof.
  intros Ha Hab Hp. unfold range_touched.
  pose proof (Z.div_mod a 64 ltac:(lia)). pose proof (Z.mod_pos_bound a 64 ltac:(lia)).
  pose proof (Z.div_mod b 64 ltac:(lia)). pose proof (Z.mod_pos_bound b 64 ltac:(lia)).
  pose proof (Z.div_mod p 64 ltac:(lia)). pose proof (Z.mod_pos_bound p 64 ltac:(lia)).
  f_equal; [f_equal|].
  - destruct (Z.eqb_spec (p / 64) (a / 64)); [|reflexivity]. cbn [andb].
    destruct (Z.leb_spec p a); destruct (Z.leb_spec (p mod 64) (a mod 64));
      try reflexivity; lia.
  - destruct (Z.eqb_spec (p / 64) (b / 64)); [|reflexivity]. cbn [andb].
    destruct (Z.leb_spec b p); destruct (Z.leb_spec (b mod 64) (p mod 64));
      try reflexivity; lia.
Qed.

(** Decides the comparisons of the goal, one after the other. *)
Ltac split_comparisons :=
  repeat match goal with
  | |- context [?x <=? ?y] => destruct (Z.leb_spec x y)
  | |- context [?x <? ?y] => destruct (Z.ltb_spec x y)
  | |- context [?x =? ?y] => destruct (Z.eqb_spec x y)
  end.

(** The two boundary stores and the [memset] of a range operation, on a
    well-formed array: they stay inside the buffer, and word [j] of the
    result is the fill value between the two boundary words, the image of
    the old word under the boundary updates in the end word, and the old
    word elsewhere. *)
Lemma range_update_runs (s : BitArray) (a b v : Z) (f1 f2 : Z -> Z) :
  wf s -> 0 <= a -> a <= b -> b < m_max s -> word_ok v ->
  (forall w, word_ok w -> word_ok (f1 w)) ->
  (forall w, word_ok w -> word_ok (f2 w)) ->
  exists ws3,
    (forall (A : Type) (k : list Z -> res A),
       (w0 ← load (words s) (Z.shiftr a 6);
        ws1 ← store (words s) (Z.shiftr a 6) (f1 w0);
        w1 ← load ws1 (Z.shiftr b 6);
        ws2 ← store ws1 (Z.shiftr b 6) (f2 w1);
        ws3 ← memset_words ws2 (Z.shiftr a 6) v
                (Z.to_nat (u32 (Z.shiftr b 6 - Z.shiftr a 6)));
        k ws3) = k ws3) /\
    length ws3 = length (words s) /\ Forall word_ok ws3 /\
    forall j w, 0 <= j -> words s !! Z.to_nat j = Some w ->
      ws3 !! Z.to_nat j =
        Some (if decide (a / 64 <= j < b / 64) then v
              else if decide (j = b / 64)
                   then (if decide (a / 64 = b / 64) then f2 (f1 w) else f2 w)
                   else w).
Proof.
  intros Hwf Ha Hab Hb Hv Hf1 Hf2.
  pose proof (bucket_in_bounds s a Hwf ltac:(lia)) as Hba.
  pose proof (bucket_in_bounds s b Hwf ltac:(lia)) as Hbb.
  rewrite !shiftr6 in *.
  assert (Hq : 0 <= a / 64 <= b / 64).
  { split; [apply Z.div_pos; lia | apply Z.div_le_mono; lia]. }
  assert (Hb32 : b / 64 < 2 ^ 32).
  { destruct Hwf as [Hmax _ _ _ _]. apply Z.div_lt_upper_bound; lia. }
  assert (Hws : Forall word_ok (words s)) by (destruct Hwf; assumption).
  destruct (load_in_bounds _ _ Hba) as [w0 Hw0].
  pose proof Hw0 as Hl0. apply load_Ok in Hw0.
  set (ws1 := <[Z.to_nat (a / 64) := f1 w0]> (words s)).
  assert (Hl1 : length ws1 = length (words s)) by apply length_insert.
  assert (Hok0 : word_ok w0) by (rewrite Forall_lookup in Hws; eapply Hws, Hw0).
  assert (Hws1 : Forall word_ok ws1) by (apply Forall_insert; auto).
  destruct (load_in_bounds ws1 (b / 64)) as [w1 Hw1]; [lia|].
  pose proof Hw1 as Hl1'. apply load_Ok in Hw1.
  assert (Hok1 : word_ok w1) by (rewrite Forall_lookup in Hws1; eapply Hws1, Hw1).
  destruct (memset_words_in_bounds (Z.to_nat (b / 64 - a / 64))
              (<[Z.to_nat (b / 64) := f2 w1]> ws1) (a / 64) v) as [ws3 Hm];
    [lia|rewrite length_insert; lia|].
  exists ws3. split.
  { intros A k. rewrite Hl0, bind_Ok_l.
    rewrite store_in_bounds by exact Hba. rewrite bind_Ok_l.
    fold ws1. rewrite Hl1', bind_Ok_l.
    rewrite store_in_bounds by lia. rewrite bind_Ok_l.
    rewrite (u32_small (b / 64 - a / 64)) by lia.
    rewrite Hm, bind_Ok_l. reflexivity. }
  pose proof (memset_words_length _ _ _ _ _ Hm) as Hl3.
  rewrite length_insert in Hl3.
  assert (Hlook : forall j : nat,
            ws3 !! j = if decide (a / 64 <= Z.of_nat j < b / 64) then Some v
                       else if decide (Z.of_nat j = b / 64) then Some (f2 w1)
                       else words s !! j).
  { intros j. apply (range_words_lookup (words s) ws3 (a / 64) (b / 64) (f1 w0));
      [exact Hq|exact Hbb|exact Hm]. }
  split; [lia|]. split.
  - rewrite Forall_lookup. intros j w Hj. rewrite Hlook in Hj.
    destruct (decide _); [congruence|].
    destruct (decide _); [inversion Hj; subst; auto|].
    rewrite Forall_lookup in Hws. eapply Hws, Hj.
  - intros j w Hj Hw. rewrite Hlook. rewrite Z2Nat.id by lia.
    destruct (decide (a / 64 <= j < b / 64)); [reflexivity|].
    destruct (decide (j = b / 64)) as [->|]; [|exact Hw].
    f_equal. destruct (decide (a / 64 = b / 64)) as [E|E].
    + f_equal. unfold ws1 in Hw1. rewrite <- E in Hw1.
      rewrite list_lookup_insert_eq in Hw1 by exact Hba.
      rewrite E in Hw0. congruence.
    + f_equal. unfold ws1 in Hw1.
      rewrite list_lookup_insert_ne in Hw1 by lia. congruence.
Qed.

(** X16: [setRange(begin, end)] with [begin <= end < max()] succeeds and
    only sets bits: afterwards [isSet(p)] is true where it was true and on
    the positions touched ([range_touched]), which include [begin] and
    [end] themselves and exclude the positions strictly between them in
    [end]'s word. *)
Theorem setRange_sets_touched (s : BitArray) (a b : Z) :
  wf s -> 0 <= a -> a <= b -> b < m_max s ->
  exists s',
    setRange s a b = Ok s' /\ wf s' /\
    (forall p v, 0 <= p < m_max s -> isSet s p = Ok v ->
       isSet s' p = Ok (v || range_touched a b p)) /\
    isSet s' a = Ok true /\ isSet s' b = Ok true.
Proof.
  intros Hwf Ha Hab Hb.
  destruct (range_update_runs s a b UINT64_MAX
              (fun w => Z.lor w (smear_down (bit_mask a)))
              (fun w => Z.lor w (smear_up (bit_mask b))) Hwf Ha Hab Hb)
    as [ws3 [Hrun [Hlen [Hok Hlook]]]].
  { exact word_ok_UINT64_MAX. }
  { intros w Hw. apply word_ok_lor; [exact Hw|apply word_ok_begin_mask]. }
  { intros w Hw. apply word_ok_lor; [exact Hw|apply word_ok_end_mask]. }
  set (l := if (a <=? m_last s) && (m_last s <=? b) then b else m_last s).
  assert (Hl : 0 <= l < 2 ^ 32).
  { destruct Hwf as [Hmax _ _ _ Hlast]. unfold l.
    destruct ((a <=? m_last s) && (m_last s <=? b)); lia. }
  assert (Hwf' : wf (with_last (with_words s ws3) l)).
  { destruct Hwf as [Hmax Hn Hlength Hws Hlast].
    constructor; cbn [with_last with_words m_max m_numSlots words m_last];
      try assumption. rewrite Hlen. exact Hlength. }
  assert (Hbits : forall p v, 0 <= p < m_max s -> isSet s p = Ok v ->
            isSet (with_last (with_words s ws3) l) p = Ok (v || range_touched a b p)).
  { intros p v Hp Hv.
    rewrite isSet_bit_at in Hv by (try exact Hwf; exact Hp).
    rewrite isSet_bit_at by (try exact Hwf'; exact Hp). f_equal.
    assert (Ev : v = bit_at s p) by congruence. subst v.
    destruct (position_split p ltac:(lia)) as [Hd [Hm Hpe]].
    pose proof (bucket_in_bounds s p Hwf Hp) as Hin. rewrite shiftr6 in Hin.
    destruct (lookup_lt_is_Some_2 _ _ Hin) as [w Hw].
    unfold bit_at. cbn [with_last with_words words].
    rewrite (Hlook (p / 64) w Hd Hw), Hw.
    rewrite range_touched_by_offset by lia.
    assert (Hq : a / 64 <= b / 64) by (apply Z.div_le_mono; lia).
    destruct (decide (a / 64 <= p / 64 < b / 64)) as [Hmid|Hmid].
    { rewrite testbit_UINT64_MAX.
      split_comparisons; try lia; cbn [andb orb]; rewrite ?orb_true_r; reflexivity. }
    destruct (decide (p / 64 = b / 64)) as [Eb|Eb].
    - destruct (decide (a / 64 = b / 64)) as [Eab|Eab].
      + rewrite !Z.lor_spec, testbit_begin_mask, testbit_end_mask by exact Hm.
        split_comparisons; try lia; cbn [andb orb];
          destruct (Z.testbit w (p mod 64)); reflexivity.
      + rewrite Z.lor_spec, testbit_end_mask by exact Hm.
        split_comparisons; try lia; cbn [andb orb];
          destruct (Z.testbit w (p mod 64)); reflexivity.
    - split_comparisons; try lia; cbn [andb orb];
        destruct (Z.testbit w (p mod 64)); reflexivity. }
  exists (with_last (with_words s ws3) l).
  split.
  { unfold setRange.
    destruct (Z.ltb_spec a (m_max s)); [|lia].
    destruct (Z.ltb_spec b (m_max s)); [|lia].
    unfold DM_CHECK. rewrite !bind_Ok_l. cbv zeta.
    exact (Hrun _ (fun ws => Ok (with_last (with_words s ws) l))). }
  split; [exact Hwf'|]. split; [exact Hbits|].
  assert (Hta : range_touched a b a = true).
  { unfold range_touched. split_comparisons; try lia; reflexivity. }
  assert (Htb : range_touched a b b = true).
  { unfold range_touched. split_comparisons; try lia; reflexivity. }
  split.
  - rewrite (Hbits a (bit_at s a)) by (try apply isSet_bit_at; try exact Hwf; lia).
    rewrite Hta, orb_true_r. reflexivity.
  - rewrite (Hbits b (bit_at s b)) by (try apply isSet_bit_at; try exact Hwf; lia).
    rewrite Htb, orb_true_r. reflexivity.
Qed.

(** X17: [unsetRange(begin, end)] with [begin <= end < max()] succeeds and
    only clears bits: afterwards [isSet(p)] is true where it was true
    except on the positions touched ([range_touched]), which include
    [begin] and [end] themselves and exclude the positions strictly
    between them in [end]'s word; the cursor is left at [begin]. *)
Theorem unsetRange_clears_touched (s : BitArray) (a b : Z) :
  wf s -> 0 <= a -> a <= b -> b < m_max s ->
  exists s',
    unsetRange s a b = Ok s' /\ wf s' /\ m_last s' = a /\
    (forall p v, 0 <= p < m_max s -> isSet s p = Ok v ->
       isSet s' p = Ok (v && negb (range_touched a b p))) /\
    isSet s' a = Ok false /\ isSet s' b = Ok false.
Proof.
  intros Hwf Ha Hab Hb.
  destruct (range_update_runs s a b 0
              (fun w => Z.land w (not64 (smear_down (bit_mask a))))
              (fun w => Z.land w (not64 (smear_up (bit_mask b)))) Hwf Ha Hab Hb)
    as [ws3 [Hrun [Hlen [Hok Hlook]]]].
  { unfold word_ok. lia. }
  { intros w Hw. apply word_ok_land. exact Hw. }
  { intros w Hw. apply word_ok_land. exact Hw. }
  assert (Hl : 0 <= a < 2 ^ 32) by (destruct Hwf; lia).
  assert (Hwf' : wf (with_last (with_words s ws3) a)).
  { destruct Hwf as [Hmax Hn Hlength Hws Hlast].
    constructor; cbn [with_last with_words m_max m_numSlots words m_last];
      try assumption. rewrite Hlen. exact Hlength. }
  assert (Hbits : forall p v, 0 <= p < m_max s -> isSet s p = Ok v ->
            isSet (with_last (with_words s ws3) a) p
            = Ok (v && negb (range_touched a b p))).
  { intros p v Hp Hv.
    rewrite isSet_bit_at in Hv by (try exact Hwf; exact Hp).
    rewrite isSet_bit_at by (try exact Hwf'; exact Hp). f_equal.
    assert (Ev : v = bit_at s p) by congruence. subst v.
    destruct (position_split p ltac:(lia)) as [Hd [Hm Hpe]].
    pose proof (bucket_in_bounds s p Hwf Hp) as Hin. rewrite shiftr6 in Hin.
    destruct (lookup_lt_is_Some_2 _ _ Hin) as [w Hw].
    unfold bit_at. cbn [with_last with_words words].
    rewrite (Hlook (p / 64) w Hd Hw), Hw.
    rewrite range_touched_by_offset by lia.
    assert (Hq : a / 64 <= b / 64) by (apply Z.div_le_mono; lia).
    destruct (decide (a / 64 <= p / 64 < b / 64)) as [Hmid|Hmid].
    { rewrite Z.bits_0.
      split_comparisons; try lia; cbn [andb orb negb]; rewrite ?andb_false_r;
        reflexivity. }
    destruct (decide (p / 64 = b / 64)) as [Eb|Eb].
    - destruct (decide (a / 64 = b / 64)) as [Eab|Eab].
      + rewrite !Z.land_spec, !testbit_not64 by exact Hm.
        rewrite testbit_begin_mask, testbit_end_mask by exact Hm.
        split_comparisons; try lia; cbn [andb orb negb];
          destruct (Z.testbit w (p mod 64)); reflexivity.
      + rewrite Z.land_spec, testbit_not64, testbit_end_mask by exact Hm.
        split_comparisons; try lia; cbn [andb orb negb];
          destruct (Z.testbit w (p mod 64)); reflexivity.
    - split_comparisons; try lia; cbn [andb orb negb];
        destruct (Z.testbit w (p mod 64)); reflexivity. }
  exists (with_last (with_words s ws3) a).
  split.
  { unfold unsetRange.
    destruct (Z.ltb_spec a (m_max s)); [|lia].
    destruct (Z.ltb_spec b (m_max s)); [|lia].
    unfold DM_CHECK. rewrite !bind_Ok_l. cbv zeta.
    exact (Hrun _ (fun ws => Ok (with_last (with_words s ws) a))). }
  split; [exact Hwf'|]. split; [reflexivity|]. split; [exact Hbits|].
  assert (Hta : range_touched a b a = true).
  { unfold range_touched. split_comparisons; try lia; reflexivity. }
  assert (Htb : range_touched a b b = true).
  { unfold range_touched. split_comparisons; try lia; reflexivity. }
  split.
  - rewrite (Hbits a (bit_at s a)) by (try apply isSet_bit_at; try exact Hwf; lia).
    rewrite Hta. cbn [negb]. rewrite andb_false_r. reflexivity.
  - rewrite (Hbits b (bit_at s b)) by (try apply isSet_bit_at; try exact Hwf; lia).
    rewrite Htb. cbn [negb]. rewrite andb_false_r. reflexivity.
Qed.

Lemma setRange_sets_touched_witness :
  exists s',
    setRange (mkBitArray 4096 [5; 0; 2] 3 130 0 0) 60 70 = Ok s' /\ wf s' /\
    (forall p v, 0 <= p < m_max (mkBitArray 4096 [5; 0; 2] 3 130 0 0) ->
       isSet (mkBitArray 4096 [5; 0; 2] 3 130 0 0) p = Ok v ->
       isSet s' p = Ok (v || range_touched 60 70 p)) /\
    isSet s' 60 = Ok true /\ isSet s' 70 = Ok true.
Proof.
  apply (setRange_sets_touched (mkBitArray 4096 [5; 0; 2] 3 130 0 0) 60 70).
  - exact wf_130.
  - lia.
  - lia.
  - simpl. lia.
Defined.

Lemma unsetRange_clears_touched_witness :
  exists s',
    unsetRange (mkBitArray 4096 [5; 0; 2] 3 130 0 0) 60 70 = Ok s' /\ wf s' /\
    m_last s' = 60 /\
    (forall p v, 0 <= p < m_max (mkBitArray 4096 [5; 0; 2] 3 130 0 0) ->
       isSet (mkBitArray 4096 [5; 0; 2] 3 130 0 0) p = Ok v ->
       isSet s' p = Ok (v && negb (range_touched 60 70 p))) /\
    isSet s' 60 = Ok false /\ isSet s' 70 = Ok false.
Proof.
  apply (unsetRange_clears_touched (mkBitArray 4096 [5; 0; 2] 3 130 0 0) 60 70).
  - exact wf_130.
  - lia.
  - lia.
  - simpl. lia.
Defined.

(** ** What no call changes *)

Lemma same_storage_refl (s : BitArray) : same_storage s s.
Proof. repeat split. Qed.

Lemma same_storage_trans (s1 s2 s3 : BitArray) :
  same_storage s1 s2 -> same_storage s2 s3 -> same_storage s1 s3.
Proof.
  intros [H1 [H2 [H3 [H4 H5]]]] [K1 [K2 [K3 [K4 K5]]]].
  repeat split; congruence.
Qed.

Lemma same_storage_update (s : BitArray) (ws : list Z) (l : Z) :
  length ws = length (words s) -> same_storage s (with_last (with_words s ws) l).
Proof. intros H. repeat split. exact H. Qed.

Lemma point_op_same_storage (s : BitArray) (i : Z) (f : Z -> Z) (s' : BitArray) :
  (_ ← DM_CHECK (i <? m_max s);
   w ← load (words s) (Z.shiftr i 6);
   ws ← store (words s) (Z.shiftr i 6) (f w);
   Ok (with_words s ws)) = Ok s' ->
  same_storage s s'.
Proof.
  intros H. apply point_op_inv in H. destruct H as [_ [w [_ ->]]].
  apply same_storage_update. apply length_insert.
Qed.

Lemma memset_words_word_ok (n : nat) (ws : list Z) (start v : Z) (ws' : list Z) :
  0 <= start -> word_ok v -> Forall word_ok ws ->
  memset_words ws start v n = Ok ws' -> Forall word_ok ws'.
Proof.
  intros Hs Hv Hws Hm. rewrite Forall_lookup. intros j w Hj.
  rewrite (memset_words_lookup _ _ _ _ _ j Hs Hm) in Hj.
  destruct (decide _); [congruence|].
  rewrite Forall_lookup in Hws. eapply Hws, Hj.
Qed.

Lemma setRange_keeps_storage (s : BitArray) (a b : Z) (s' : BitArray) :
  wf s -> 0 <= a -> 0 <= b -> setRange s a b = Ok s' ->
  wf s' /\ same_storage s s'.
Proof.
  intros Hwf Ha Hb0 H. unfold setRange in H. inv_bind.
  apply Z.ltb_lt in Hstep. apply Z.ltb_lt in Hstep0.
  pose proof (store_length _ _ _ _ Hstep2) as Hl1.
  pose proof (store_length _ _ _ _ Hstep4) as Hl2.
  pose proof (memset_words_length _ _ _ _ _ Hstep5) as Hl3.
  apply load_Ok in Hstep1. apply store_Ok in Hstep2. destruct Hstep2 as [_ ->].
  apply load_Ok in Hstep3.
  assert (Hws : Forall word_ok (words s)) by (destruct Hwf; assumption).
  assert (Hok0 : word_ok a2) by (rewrite Forall_lookup in Hws; eapply Hws, Hstep1).
  assert (Hws1 : Forall word_ok
                   (<[Z.to_nat (Z.shiftr a 6) := Z.lor a2 (smear_down (bit_mask a))]>
                      (words s))).
  { apply Forall_insert; [exact Hws|].
    apply word_ok_lor; [exact Hok0|apply word_ok_begin_mask]. }
  assert (Hok1 : word_ok a4) by (rewrite Forall_lookup in Hws1; eapply Hws1, Hstep3).
  apply store_Ok in Hstep4. destruct Hstep4 as [_ ->].
  assert (H0 : 0 <= Z.shiftr a 6) by (rewrite shiftr6; apply Z.div_pos; lia).
  assert (Hws3 : Forall word_ok a6).
  { apply (memset_words_word_ok _ _ _ _ _ H0 word_ok_UINT64_MAX) in Hstep5;
      [exact Hstep5|].
    apply Forall_insert; [exact Hws1|].
    apply word_ok_lor; [exact Hok1|apply word_ok_end_mask]. }
  split.
  - destruct Hwf as [Hmax Hn Hlength _ Hlast].
    constructor; cbn [with_last with_words m_max m_numSlots words m_last];
      try assumption.
    + lia.
    + destruct ((a <=? m_last s) && (m_last s <=? b)); lia.
  - apply same_storage_update. lia.
Qed.

Lemma unsetRange_same_storage (s : BitArray) (a b : Z) (s' : BitArray) :
  unsetRange s a b = Ok s' -> same_storage s s'.
Proof.
  intros H. unfold unsetRange in H. inv_bind.
  pose proof (store_length _ _ _ _ Hstep2) as Hl1.
  pose proof (store_length _ _ _ _ Hstep4) as Hl2.
  pose proof (memset_words_length _ _ _ _ _ Hstep5) as Hl3.
  apply same_storage_update. lia.
Qed.

Lemma reset_same_storage (s s' : BitArray) : reset s = Ok s' -> same_storage s s'.
Proof.
  intros H. unfold reset in H. inv_bind.
  pose proof (memset_words_length _ _ _ _ _ Hstep) as Hl.
  repeat split. exact Hl.
Qed.

Lemma setRightmostBit_same_storage (s : BitArray) (j : Z) (s' : BitArray) (r : Z) :
  setRightmostBit s j = Ok (s', r) -> same_storage s s'.
Proof.
  intros H. apply setRightmostBit_inv in H. destruct H as [w [_ [-> _]]].
  apply same_storage_update. apply length_insert.
Qed.

Lemma setFirst_same_storage (s s' : BitArray) (r : Z) :
  setFirst s = Ok (s', r) -> same_storage s s'.
Proof.
  intros H. unfold setFirst in H. apply setFirst_loop_inv in H; [|lia].
  destruct H as [[-> _]|[j [w [_ [_ [_ [_ Hset]]]]]]].
  - apply same_storage_refl.
  - eapply setRightmostBit_same_storage. exact Hset.
Qed.

Lemma setAny_loop_same_storage (n : nat) (s : BitArray) (slot : Z)
    (s' : BitArray) (r : option Z) :
  setAny_loop s slot n = Ok (s', r) -> same_storage s s'.
Proof.
  revert s slot. induction n as [|n IH]; intros s slot H; simpl in H.
  - inv_bind. apply same_storage_refl.
  - inv_bind. destruct (negb (a =? UINT64_MAX)).
    + inv_bind. destruct a0 as [s1 r1]. inv_bind.
      eapply setRightmostBit_same_storage. exact Hstep0.
    + apply IH in H. exact H.
Qed.

Lemma setAny_same_storage (s s' : BitArray) (r : Z) :
  setAny s = Ok (s', r) -> same_storage s s'.
Proof.
  intros H. unfold setAny in H. inv_bind. destruct a as [s1 [r1|]].
  - inv_bind. eapply setAny_loop_same_storage. exact Hstep.
  - inv_bind. destruct a as [s3 r3].
    apply setAny_loop_same_storage in Hstep.
    apply setAny_loop_same_storage in Hstep0.
    assert (Hs : same_storage s s3)
      by (eapply same_storage_trans; [exact Hstep|exact Hstep0]).
    destruct r3; inv_bind; exact Hs.
Qed.

(** One call on a well-formed array, when it succeeds, leaves a well-formed
    array over the same storage. *)
Lemma exec_keeps_storage (c : call) (s s' : BitArray) (r : option Z) :
  wf s -> call_unsigned c -> exec c s = Ok (s', r) ->
  wf s' /\ same_storage s s'.
Proof.
  intros Hwf Hc H. destruct c as [i|i|i|a b|a b| | |]; cbn [exec call_unsigned] in *.
  - inv_bind. split; [apply (set_keeps s i s' Hwf Hc Hstep)|].
    eapply point_op_same_storage. exact Hstep.
  - inv_bind. split; [apply (unset_keeps s i s' Hwf Hstep)|].
    eapply point_op_same_storage. exact Hstep.
  - inv_bind. split; [apply (toggle_keeps s i s' Hwf Hc Hstep)|].
    eapply point_op_same_storage. exact Hstep.
  - inv_bind. apply (setRange_keeps_storage s a b s' Hwf (proj1 Hc) (proj2 Hc) Hstep).
  - inv_bind. split; [apply (unsetRange_keeps s a b s' Hwf (proj1 Hc) Hstep)|].
    eapply unsetRange_same_storage. exact Hstep.
  - inv_bind. destruct a as [s1 r1]. inv_bind.
    split; [apply (setFirst_keeps s s' r1 Hwf Hstep)|].
    eapply setFirst_same_storage. exact Hstep.
  - inv_bind. destruct a as [s1 r1]. inv_bind.
    split; [apply (setAny_keeps s s' r1 Hwf Hstep)|].
    eapply setAny_same_storage. exact Hstep.
  - inv_bind. split; [apply (reset_keeps s s' Hwf Hstep)|].
    eapply reset_same_storage. exact Hstep.
Qed.

(** X18: whatever sequence of calls is made on a well-formed array, as long
    as no call trips a check or leaves the buffer, the array stays well
    formed and the storage is the same: the address, [max()], [numSlots()]
    and the size of the buffer never change, every word stays a 64-bit
    value, and each call has returned. *)
Theorem calls_keep_storage (cs : list call) (s s' : BitArray) (rs : list (option Z)) :
  wf s -> Forall call_unsigned cs -> run cs s = Ok (s', rs) ->
  wf s' /\ same_storage s s' /\ length rs = length cs.
Proof.
  revert s rs. induction cs as [|c cs IH]; intros s rs Hwf Hcs H.
  - cbn [run] in H. inv_bind.
    split; [exact Hwf|]. split; [apply same_storage_refl|reflexivity].
  - cbn [run] in H. inv_bind. destruct a as [s1 r]. inv_bind.
    destruct a as [s2 rs2]. inv_bind.
    apply Forall_cons in Hcs. destruct Hcs as [Hc Hcs].
    destruct (exec_keeps_storage c s s1 r Hwf Hc Hstep) as [Hwf1 Hsame1].
    destruct (IH s1 rs2 Hwf1 Hcs Hstep0) as [Hwf2 [Hsame2 Hlen]].
    split; [exact Hwf2|]. split.
    + eapply same_storage_trans; [exact Hsame1|exact Hsame2].
    + cbn [length]. rewrite Hlen. reflexivity.
Qed.

Lemma calls_keep_storage_witness :
  wf (mkBitArray 4096 [18446744073709551615; 1; 0] 3 130 0 65) /\
  same_storage (mkBitArray 4096 [5; 0; 2] 3 130 0 0)
    (mkBitArray 4096 [18446744073709551615; 1; 0] 3 130 0 65) /\
  length [None; None; Some 64; None; None; Some 64]
  = length [CallSet 3; CallSetRange 60 70; CallSetAny; CallUnsetRange 65 66;
            CallToggle 129; CallSetFirst].
Proof.
  apply (calls_keep_storage
           [CallSet 3; CallSetRange 60 70; CallSetAny; CallUnsetRange 65 66;
            CallToggle 129; CallSetFirst]
           (mkBitArray 4096 [5; 0; 2] 3 130 0 0)).
  - exact wf_130.
  - repeat (apply Forall_cons; split; [simpl; lia|]). apply Forall_nil. exact I.
  - vm_compute. reflexivity.
Defined.

(** ** Full arrays and the padding of the last slot *)

(** X19: when every slot is full, [setFirst()], wherever the cursor is,
    and [setAny()], with the cursor inside the slots, return [max()] and
    leave the array, cursor included, exactly as it was. *)
Theorem full_array_hands_out_nothing (s : BitArray) :
  wf s ->
  (forall j, 0 <= j < m_numSlots s -> words s !! Z.to_nat j = Some UINT64_MAX) ->
  setFirst s = Ok (s, m_max s) /\
  (cursor_in_slots s -> setAny s = Ok (s, m_max s)).
Proof.
  intros Hwf Hfull.
  pose proof (wf_numSlots_bound s Hwf) as Hn.
  split.
  - unfold setFirst. apply setFirst_loop_full; [lia|].
    intros i Hi. apply Hfull. lia.
  - intros [Hl0 HlN]. unfold setAny.
    rewrite setAny_loop_full by (try lia; intros i Hi; apply Hfull; lia).
    rewrite bind_Ok_l. cbn [with_last m_last m_numSlots].
    set (l1 := if decide (Z.to_nat (m_numSlots s - m_last s) = O) then m_last s
               else m_last s + Z.of_nat (Z.to_nat (m_numSlots s - m_last s))).
    assert (El1 : l1 = m_numSlots s)
      by (unfold l1; destruct (decide (Z.to_nat (m_numSlots s - m_last s) = O)); lia).
    rewrite El1. destruct (Z.leb_spec (m_numSlots s) (m_numSlots s)); [|lia].
    rewrite with_last_with_last.
    rewrite (setAny_loop_full _ (with_last s 0) 0 (Z.le_refl 0))
      by (intros i Hi; apply Hfull; lia).
    rewrite bind_Ok_l, with_last_with_last. cbn [with_last m_last m_max].
    f_equal. f_equal.
    replace (if decide (Z.to_nat (m_last s) = O) then 0
             else 0 + Z.of_nat (Z.to_nat (m_last s))) with (m_last s)
      by (destruct (decide (Z.to_nat (m_last s) = O)); lia).
    destruct s. reflexivity.
Qed.

Lemma wf_128_full (l : Z) :
  0 <= l < 2 ^ 32 -> wf (mkBitArray 4096 [UINT64_MAX; UINT64_MAX] 2 128 0 l).
Proof.
  intros Hl. constructor; cbn [m_max m_numSlots words m_last].
  - lia.
  - reflexivity.
  - simpl. lia.
  - apply Forall_cons; split; [exact word_ok_UINT64_MAX|].
    apply Forall_cons; split; [exact word_ok_UINT64_MAX|].
    apply Forall_nil. exact I.
  - exact Hl.
Defined.

Lemma full_array_hands_out_nothing_witness :
  setFirst (mkBitArray 4096 [UINT64_MAX; UINT64_MAX] 2 128 0 100)
  = Ok (mkBitArray 4096 [UINT64_MAX; UINT64_MAX] 2 128 0 100, 128) /\
  setFirst (mkBitArray 4096 [UINT64_MAX; UINT64_MAX] 2 128 0 1)
  = Ok (mkBitArray 4096 [UINT64_MAX; UINT64_MAX] 2 128 0 1, 128) /\
  setAny (mkBitArray 4096 [UINT64_MAX; UINT64_MAX] 2 128 0 1)
  = Ok (mkBitArray 4096 [UINT64_MAX; UINT64_MAX] 2 128 0 1, 128).
Proof.
  assert (Hfull : forall l j, 0 <= j < m_numSlots (mkBitArray 4096 [UINT64_MAX; UINT64_MAX] 2 128 0 l) ->
            words (mkBitArray 4096 [UINT64_MAX; UINT64_MAX] 2 128 0 l) !! Z.to_nat j
            = Some UINT64_MAX).
  { cbn [m_numSlots words]. intros l j Hj.
    assert (j = 0 \/ j = 1) as [-> | ->] by lia; reflexivity. }
  split.
  - apply (full_array_hands_out_nothing
             (mkBitArray 4096 [UINT64_MAX; UINT64_MAX] 2 128 0 100)
             (wf_128_full 100 ltac:(lia)) (Hfull 100)).
  - destruct (full_array_hands_out_nothing
                (mkBitArray 4096 [UINT64_MAX; UINT64_MAX] 2 128 0 1)
                (wf_128_full 1 ltac:(lia)) (Hfull 1)) as [HsetFirst HsetAny].
    split; [exact HsetFirst|].
    apply HsetAny. unfold cursor_in_slots. simpl. lia.
Defined.

(** X20: [setAny()] can answer [max()] while indices are free.  With the
    cursor on the last slot, all indices of the domain in that slot set and
    a padding bit of it free, [setAny()] takes the padding bit and returns
    [max()]; [isSet] answers as before on the whole domain, whatever is
    free in the slots below. *)
Theorem setAny_takes_padding_bit (s : BitArray) (w : Z) :
  wf s -> m_last s = m_numSlots s - 1 ->
  words s !! Z.to_nat (m_numSlots s - 1) = Some w -> w <> UINT64_MAX ->
  (forall p, 64 * (m_numSlots s - 1) <= p < m_max s -> isSet s p = Ok true) ->
  exists s',
    setAny s = Ok (s', m_max s) /\
    (forall p, 0 <= p < m_max s -> isSet s' p = isSet s p) /\
    exists q, m_max s <= q < 64 * m_numSlots s /\
              bit_at s q = false /\ bit_at s' q = true.
Proof.
  intros Hwf Hlast Hw Hne Hdom.
  pose proof (wf_numSlots_bound s Hwf) as Hn.
  pose proof (wf_capacity s Hwf) as Hcap.
  assert (Hmax : 1 <= m_max s) by (destruct Hwf; lia).
  set (j := m_numSlots s - 1) in *.
  assert (Ej : j = m_numSlots s - 1) by reflexivity.
  clearbody j.
  destruct (setRightmostBit_effect s j w Hwf ltac:(lia) Hw Hne)
    as [t [s' [Ht [Hz [Hlow [Hrun [Hwf' [Hmax' [Hn' [Hl' [Hr Hbits]]]]]]]]]]].
  assert (Hpad : m_max s <= 64 * j + t).
  { destruct (Z.leb_spec (m_max s) (64 * j + t)) as [|Hlt]; [assumption|].
    specialize (Hdom (64 * j + t) ltac:(lia)).
    rewrite isSet_bit_at in Hdom by (try exact Hwf; lia).
    rewrite Hr in Hdom. discriminate. }
  exists s'. split.
  - unfold setAny.
    rewrite (setAny_loop_skip _ s (m_last s) j w);
      [|lia|lia|intros i Hi; exfalso; lia|exact Hw|exact Hne].
    destruct (decide (j = m_last s)) as [_|]; [|lia].
    rewrite with_last_same, Hrun. cbn [mbind res_bind].
    f_equal. f_equal. lia.
  - split.
    + intros p Hp. rewrite isSet_bit_at by (try exact Hwf'; lia).
      rewrite isSet_bit_at by (try exact Hwf; lia). f_equal.
      rewrite Hbits by lia.
      destruct (Z.eqb_spec p (64 * j + t)); [lia|apply orb_false_r].
    + exists (64 * j + t). split; [lia|]. split; [exact Hr|].
      rewrite Hbits by lia. rewrite Z.eqb_refl. apply orb_true_r.
Qed.

Lemma wf_100_tail : wf (mkBitArray 4096 [0; 68719476735] 2 100 0 1).
Proof.
  constructor; cbn [m_max m_numSlots words m_last].
  - lia.
  - reflexivity.
  - simpl. lia.
  - apply Forall_cons; split; [unfold word_ok; lia|].
    apply Forall_cons; split; [unfold word_ok; lia|].
    apply Forall_nil. exact I.
  - lia.
Defined.

Lemma tail_100_set (p : Z) :
  64 * (m_numSlots (mkBitArray 4096 [0; 68719476735] 2 100 0 1) - 1) <= p
    < m_max (mkBitArray 4096 [0; 68719476735] 2 100 0 1) ->
  isSet (mkBitArray 4096 [0; 68719476735] 2 100 0 1) p = Ok true.
Proof.
  cbn [m_numSlots m_max]. intros Hp.
  rewrite isSet_bit_at by (try exact wf_100_tail; cbn [m_max]; lia). f_equal.
  replace p with (64 * 1 + (p - 64)) by lia.
  rewrite (bit_at_in_slot _ 1 (Z.ones 36)) by (try reflexivity; lia).
  rewrite Z.testbit_ones_nonneg by lia. apply Z.ltb_lt. lia.
Defined.

Lemma setAny_takes_padding_bit_witness :
  exists s',
    setAny (mkBitArray 4096 [0; 68719476735] 2 100 0 1)
    = Ok (s', m_max (mkBitArray 4096 [0; 68719476735] 2 100 0 1)) /\
    (forall p, 0 <= p < m_max (mkBitArray 4096 [0; 68719476735] 2 100 0 1) ->
       isSet s' p = isSet (mkBitArray 4096 [0; 68719476735] 2 100 0 1) p) /\
    exists q, m_max (mkBitArray 4096 [0; 68719476735] 2 100 0 1) <= q
                < 64 * m_numSlots (mkBitArray 4096 [0; 68719476735] 2 100 0 1) /\
              bit_at (mkBitArray 4096 [0; 68719476735] 2 100 0 1) q = false /\
              bit_at s' q = true.
Proof.
  apply (setAny_takes_padding_bit (mkBitArray 4096 [0; 68719476735] 2 100 0 1)
           68719476735).
  - exact wf_100_tail.
  - reflexivity.
  - reflexivity.
  - unfold UINT64_MAX. lia.
  - exact tail_100_set.
Defined.

(** X21: in an array whose highest nonzero word [j] is not full,
    [getLastSetBit()] returns the position of the lowest zero bit of that
    word: every position of word [j] below the result is set and the
    result itself is not, whatever is set above it in the word. *)
Theorem getLastSetBit_lowest_zero_of_last_word (s : BitArray) (j w : Z) :
  wf s -> 0 <= j < m_numSlots s ->
  words s !! Z.to_nat j = Some w -> w <> 0 -> w <> UINT64_MAX ->
  (forall i, j < i < m_numSlots s -> words s !! Z.to_nat i = Some 0) ->
  exists r,
    getLastSetBit s = Ok r /\ 64 * j <= r < 64 * j + 64 /\
    bit_at s r = false /\
    forall p, 64 * j <= p < r -> bit_at s p = true.
Proof.
  intros Hwf Hj Hw Hne Hnf Hzero.
  pose proof (wf_word_ok s _ w Hwf Hw) as Hwok.
  destruct (lowest_zero_exists w Hwok Hnf) as [t [Ht [Hz Hlow]]].
  exists (64 * j + t). split.
  - unfold getLastSetBit.
    rewrite (getLastSetBit_loop_partial s j w);
      [|lia|intros i Hi; apply Hzero; lia|exact Hw|exact Hne|exact Hnf].
    rewrite (markFirstUnsetBit_pow2 w t Hwok Ht Hz Hlow), cntlz_pow2 by exact Ht.
    rewrite (u32_small (63 - t)) by (change (2 ^ 32) with 4294967296; lia).
    replace (63 - (63 - t)) with t by lia.
    rewrite (slot_index_fits s j t) by (try assumption; lia). reflexivity.
  - split; [lia|]. split.
    + rewrite (bit_at_in_slot s j w t) by (try assumption; lia). exact Hz.
    + intros p Hp. replace p with (64 * j + (p - 64 * j)) by lia.
      rewrite (bit_at_in_slot s j w) by (try assumption; lia).
      apply Hlow. lia.
Qed.

Lemma getLastSetBit_lowest_zero_of_last_word_witness :
  exists r,
    getLastSetBit (mkBitArray 4096 [5; 1] 2 128 0 0) = Ok r /\
    64 * 1 <= r < 64 * 1 + 64 /\
    bit_at (mkBitArray 4096 [5; 1] 2 128 0 0) r = false /\
    forall p, 64 * 1 <= p < r -> bit_at (mkBitArray 4096 [5; 1] 2 128 0 0) p = true.
Proof.
  apply (getLastSetBit_lowest_zero_of_last_word (mkBitArray 4096 [5; 1] 2 128 0 0) 1 1).
  - exact wf_128_filled.
  - simpl. lia.
  - reflexivity.
  - lia.
  - unfold UINT64_MAX. lia.
  - cbn [m_numSlots]. intros i Hi. lia.
Defined.
